(** * orbit_rat: the stick-to-motion controller of [src/main.cpp]

    A shallow embedding of the firmware's polling loop: axis calibration and
    normalization, the dead-zone classifier, the motion state machine of
    [sendMouse] and the bounded unwind loop of [doUnwind].

    - [int] is the 32-bit two's-complement integer of the 32-bit Teensy
      boards; a value is a [Z] in [int_min .. int_max] and every
      arithmetic result is brought back into that range by [wrap].
    - [float] is IEEE-754 binary32, computed with the Standard Library's
      executable specification [SpecFloat] at precision 24 and [emax] 128.
    - the HID sinks ([Mouse], [Keyboard], [Joystick]) and [delay] are recorded
      as a trace of [event]s, in the order the calls are made. *)

From Stdlib Require Import ZArith List Bool Lia.
From Stdlib Require Import Floats.SpecFloat.
Import ListNotations.

Local Open Scope Z_scope.

(** ** Machine integers *)

Module Int.

Definition int_bits : Z := 32.
Definition modulus : Z := 2 ^ int_bits.
Definition int_min : Z := - 2 ^ (int_bits - 1).
Definition int_max : Z := 2 ^ (int_bits - 1) - 1.

(** The representative of [z] modulo [2^32] in [int_min .. int_max]. *)
Definition wrap (z : Z) : Z := (z - int_min) mod modulus + int_min.

Definition in_range (z : Z) : Prop := int_min <= z <= int_max.

(** [a + b] and [-a] on [int]. *)
Definition add (a b : Z) : Z := wrap (a + b).
Definition neg (a : Z) : Z := wrap (- a).

(** Arduino's [min(a, b)]: [(a) < (b) ? (a) : (b)]. *)
Definition min (a b : Z) : Z := if a <? b then a else b.

(** [unsigned int]: the range [0 .. uint_max]. *)
Definition uint_max : Z := modulus - 1.

End Int.

(** ** Single-precision floats *)

Module F32.

Definition prec : Z := 24.
Definition emax : Z := 128.

Definition float : Type := spec_float.

Definition add : float -> float -> float := SFadd prec emax.
Definition sub : float -> float -> float := SFsub prec emax.
Definition mul : float -> float -> float := SFmul prec emax.
Definition div : float -> float -> float := SFdiv prec emax.
Definition neg : float -> float := SFopp.
Definition ltb : float -> float -> bool := SFltb.
Definition leb : float -> float -> bool := SFleb.
Definition eqb : float -> float -> bool := SFeqb.

(** The float nearest to [m * 2^e] (ties to even): how a literal or an
    integer becomes a [float]. *)
Definition round (m e : Z) : float := binary_normalize prec emax m e false.

(** The conversion [int -> float]. *)
Definition of_int (z : Z) : float := round z 0.

Definition zero : float := S754_zero false.

(** A value of the format: a zero, an infinity, NaN, or a mantissa and an
    exponent in canonical form. *)
Definition valid (x : float) : bool := valid_binary prec emax x.

Definition is_zero (x : float) : bool :=
  match x with S754_zero _ => true | _ => false end.

(** The integral part of a finite value, towards zero. *)
Definition trunc (s : bool) (m : positive) (e : Z) : Z :=
  cond_Zopp s (Z.shiftl (Zpos m) e).

(** The conversion [float -> int]: the integral part of the value. C++ leaves
    the conversion undefined when that is not an [int]; the ARM conversion
    instruction and the run-time library's routine both saturate then, and
    turn NaN into 0. *)
Definition to_int (x : float) : Z :=
  match x with
  | S754_zero _ => 0
  | S754_nan => 0
  | S754_infinity s => if s then Int.int_min else Int.int_max
  | S754_finite s m e => Z.max Int.int_min (Z.min Int.int_max (trunc s m e))
  end.

(** The conversion [float -> unsigned int], saturating likewise. *)
Definition to_uint (x : float) : Z :=
  match x with
  | S754_zero _ => 0
  | S754_nan => 0
  | S754_infinity s => if s then 0 else Int.uint_max
  | S754_finite s m e => Z.max 0 (Z.min Int.uint_max (trunc s m e))
  end.

(** Arduino's [abs(x)]: [(x) > 0 ? (x) : -(x)]. *)
Definition abs (x : float) : float := if ltb zero x then x else neg x.

End F32.

Definition float : Type := F32.float.

(** ** Configuration constants *)

Definition calibrate_on_startup : bool := true.
Definition send_joystick_hid : bool := false.
Definition n_axes : nat := 4.
Definition pan_speed : Z := -25.
Definition orbit_speed : Z := -10.

(** [constexpr float deadzone = 0.02]: the literal is the double
    [5764607523034235 * 2^-58], converted to [float]. *)
Definition deadzone : float := F32.round 5764607523034235 (-58).

Definition max_unwind_step : Z := 100.

(** [stick_active_buttons]: the mouse buttons held during each stick's motion. *)
Definition stick_active_buttons : list (bool * bool * bool) :=
  [ (false, true, false);
    (false, true, false) ].

(** Modelled from the spec: the key code [KEY_LEFT_SHIFT] is declared by the
    keyboard library's header, which is not among the sources; the spec only
    says that a stick's modifier key is either a key code or the null code 0.
    The value is the one of Arduino's [Keyboard.h]; nothing below depends on
    more than its being non-zero. *)
Definition KEY_LEFT_SHIFT : Z := 129.

(** [stick_active_key]: the key held during each stick's motion, 0 for none. *)
Definition stick_active_key : list Z := [ 0; KEY_LEFT_SHIFT ].

(** [axisExtents] as configured: low value, center, high value of each axis. *)
Definition configured_extents : list (float * float * float) :=
  [ (F32.of_int 3, F32.of_int 520, F32.of_int 1021);
    (F32.of_int 6, F32.of_int 498, F32.of_int 1019);
    (F32.of_int 3, F32.of_int 530, F32.of_int 1021);
    (F32.of_int 2, F32.of_int 513, F32.of_int 1022) ].

(** ** The unwind engine *)

(** [max_step]: the largest step that reduces [accum], at most [maxStep] long.
    The source reads the constant [max_unwind_step]; it is a parameter here so
    that the loop can be studied for every step cap. *)
Definition max_step (maxStep accum : Z) : Z :=
  if 0 <? accum then Int.neg (Int.min accum maxStep)
  else if accum <? 0 then Int.min maxStep (Int.neg accum)
  else 0.

(** One pass through the body of [doUnwind]'s loop: the move sent to
    [Mouse.move] and the accumulator after the two [+=]. *)
Definition unwind_step (maxStep : Z) (acc : Z * Z) : (Z * Z) * (Z * Z) :=
  let xMove := max_step maxStep (fst acc) in
  let yMove := max_step maxStep (snd acc) in
  ((xMove, yMove), (Int.add (fst acc) xMove, Int.add (snd acc) yMove)).

(** The loop condition [unwindAccumulator[0] != 0 || unwindAccumulator[1] != 0]. *)
Definition unwinding (acc : Z * Z) : bool :=
  negb (fst acc =? 0) || negb (snd acc =? 0).

(** [doUnwind]'s [while] loop, run for at most [fuel] iterations: the moves
    sent, in order, and the accumulator on exit; [None] when the loop is still
    running after [fuel] iterations. *)
Fixpoint doUnwind_loop (fuel : nat) (maxStep : Z) (acc : Z * Z)
  : option (list (Z * Z) * (Z * Z)) :=
  if unwinding acc then
    match fuel with
    | O => None
    | S fuel' =>
        let '(mv, acc') := unwind_step maxStep acc in
        match doUnwind_loop fuel' maxStep acc' with
        | Some (mvs, final) => Some (mv :: mvs, final)
        | None => None
        end
    end
  else Some ([], acc).

(** Iterations granted to the loop: it needs at most
    [max |ax| |ay|] of them whenever [maxStep] is positive. *)
Definition unwind_fuel (acc : Z * Z) : nat :=
  Z.to_nat (Z.max (Z.abs (fst acc)) (Z.abs (snd acc))).

Definition doUnwind (maxStep : Z) (acc : Z * Z) : option (list (Z * Z) * (Z * Z)) :=
  doUnwind_loop (unwind_fuel acc) maxStep acc.

(** The net displacement of a sequence of relative moves, as the pointer
    experiences it (an unbounded sum). *)
Fixpoint sum_moves (mvs : list (Z * Z)) : Z * Z :=
  match mvs with
  | [] => (0, 0)
  | (dx, dy) :: rest => (dx + fst (sum_moves rest), dy + snd (sum_moves rest))
  end.

(** Every move of the list is at most [bound] long on each axis. *)
Definition moves_bounded (bound : Z) (mvs : list (Z * Z)) : Prop :=
  Forall (fun mv => Z.abs (fst mv) <= bound /\ Z.abs (snd mv) <= bound) mvs.

(** [ceil (n / d)] for [0 <= n], [0 < d]. *)
Definition ceil_div (n d : Z) : Z := (n + d - 1) / d.

(** An accumulator component whose negation is an [int]: any but [int_min]. *)
Definition negatable (a : Z) : Prop := Int.int_min < a <= Int.int_max.

(** What [max_step] returns when nothing wraps. *)
Definition exact_step (maxStep a : Z) : Z :=
  if 0 <? a then - Z.min a maxStep else if a <? 0 then Z.min maxStep (- a) else 0.


(** ** Controller state and HID trace *)

(** The calls made on the HID sinks and [delay], in the order they are made. *)
Inductive event : Type :=
| MouseMove (dx dy : Z)
| MouseButtons (left middle right : bool)
| KeyPress (key : Z)
| KeyRelease (key : Z)
| JoystickX (v : Z)
| JoystickY (v : Z)
| JoystickSliderLeft (v : Z)
| JoystickZrotate (v : Z)
| Delay (ms : Z).

(** The global variables of the firmware. *)
Record state : Type := mkState {
  axisExtents : list (float * float * float);
  axisValues : list Z;
  normalizedAxes : list float;
  unwindAccumulator : Z * Z;
  inMove : bool;
  motionStartIndex : Z
}.

(** The globals as the program starts: statics are zero-initialized. *)
Definition initial_state : state :=
  {| axisExtents := configured_extents;
     axisValues := [0; 0; 0; 0];
     normalizedAxes := [F32.zero; F32.zero; F32.zero; F32.zero];
     unwindAccumulator := (0, 0);
     inMove := false;
     motionStartIndex := -1 |}.

Definition set_gesture (st : state) (acc : Z * Z) (moving : bool) (idx : Z) : state :=
  {| axisExtents := axisExtents st;
     axisValues := axisValues st;
     normalizedAxes := normalizedAxes st;
     unwindAccumulator := acc;
     inMove := moving;
     motionStartIndex := idx |}.

(** Array reads. The firmware only indexes its arrays inside their bounds; a
    read outside them gets the default here. *)
Definition axis (axes : list float) (i : Z) : float :=
  nth (Z.to_nat i) axes F32.zero.

Definition extents (exts : list (float * float * float)) (i : nat)
  : float * float * float :=
  nth i exts (F32.zero, F32.zero, F32.zero).

(** ** Calibration and normalization *)

(** [readSticks]: one sample per axis, as [analogRead] returned them. *)
Definition readSticks (samples : list Z) (st : state) : state :=
  {| axisExtents := axisExtents st;
     axisValues := map (fun i => nth i samples 0) (seq 0 n_axes);
     normalizedAxes := normalizedAxes st;
     unwindAccumulator := unwindAccumulator st;
     inMove := inMove st;
     motionStartIndex := motionStartIndex st |}.

(** [normalize]: the position of [val] within the half space [low .. high]. *)
Definition normalize (low val high : float) : float :=
  let range := F32.sub high low in
  F32.div (F32.sub val low) range.

(** The body of [normalizeSticks]'s loop for one axis: the raw value [v]
    against its calibration, inverted. *)
Definition normalize_axis (ext : float * float * float) (v : Z) : float :=
  let '(low, center, high) := ext in
  let n :=
    if F32.ltb (F32.of_int v) center
    then F32.neg (F32.sub (F32.of_int 1) (normalize low (F32.of_int v) center))
    else normalize center (F32.of_int v) high in
  F32.neg n.

Definition normalizeSticks (st : state) : state :=
  {| axisExtents := axisExtents st;
     axisValues := axisValues st;
     normalizedAxes :=
       map (fun i => normalize_axis (extents (axisExtents st) i) (nth i (axisValues st) 0))
           (seq 0 n_axes);
     unwindAccumulator := unwindAccumulator st;
     inMove := inMove st;
     motionStartIndex := motionStartIndex st |}.

(** The calibration step of [setup]: the center of each axis becomes its
    current raw value. *)
Definition calibrate (st : state) : state :=
  {| axisExtents :=
       map (fun i => let '(low, _, high) := extents (axisExtents st) i in
                     (low, F32.of_int (nth i (axisValues st) 0), high))
           (seq 0 n_axes);
     axisValues := axisValues st;
     normalizedAxes := normalizedAxes st;
     unwindAccumulator := unwindAccumulator st;
     inMove := inMove st;
     motionStartIndex := motionStartIndex st |}.

(** [setup], given the samples [analogRead] returns during it. *)
Definition setup (samples : list Z) (st : state) : state :=
  if calibrate_on_startup then calibrate (readSticks samples st) else st.

(** ** Joystick reports *)

(** [to_joy]: the normalized value as a 0-1023 joystick value. *)
Definition to_joy (val : float) : Z :=
  F32.to_uint (F32.mul (F32.div (F32.add val (F32.of_int 1)) (F32.of_int 2))
                       (F32.of_int 1023)).

Definition sendJoystick (st : state) : list event :=
  [ JoystickX (to_joy (axis (normalizedAxes st) 0));
    JoystickY (to_joy (axis (normalizedAxes st) 1));
    JoystickSliderLeft (to_joy (axis (normalizedAxes st) 3));
    JoystickZrotate (to_joy (axis (normalizedAxes st) 2)) ].

(** ** The motion state machine *)

(** [checkDeadzone]: is the stick on axes [startIndex], [startIndex + 1] in
    its dead zone? *)
Definition checkDeadzone (axes : list float) (startIndex : Z) : bool :=
  F32.ltb (F32.abs (axis axes startIndex)) deadzone
  && F32.ltb (F32.abs (axis axes (startIndex + 1))) deadzone.

(** The same test on two axis values, for any threshold. *)
Definition in_deadzone (threshold x y : float) : bool :=
  F32.ltb (F32.abs x) threshold && F32.ltb (F32.abs y) threshold.

(** [x] lies strictly between [-threshold] and [threshold]. *)
Definition strictly_within (threshold x : float) : Prop :=
  F32.ltb (F32.neg threshold) x = true /\ F32.ltb x threshold = true.

(** [x] lies between [-threshold] and [threshold], the two included. *)
Definition within (threshold x : float) : Prop :=
  F32.leb (F32.neg threshold) x = true /\ F32.leb x threshold = true.

(** [x] reaches [threshold] on either side: it is at or beyond it. *)
Definition reaches (threshold x : float) : Prop :=
  F32.leb threshold x = true \/ F32.leb x (F32.neg threshold) = true.

Definition setMouseButtons (startIndex : Z) : list event :=
  let stickIndex := Z.shiftr startIndex 1 in
  let '(b0, b1, b2) := nth (Z.to_nat stickIndex) stick_active_buttons (false, false, false) in
  [MouseButtons b0 b1 b2].

Definition setKeys (startIndex : Z) (press : bool) : list event :=
  let stickIndex := Z.shiftr startIndex 1 in
  let key := nth (Z.to_nat stickIndex) stick_active_key 0 in
  if key =? 0 then []
  else if press then [KeyPress key]
  else [KeyRelease key].

Definition moves_events (mvs : list (Z * Z)) : list event :=
  map (fun mv => MouseMove (fst mv) (snd mv)) mvs.

(** The first branch of [sendMouse]: a move that has now stopped. *)
Definition stop_move (st : state) : option (list event * state) :=
  match doUnwind max_unwind_step (unwindAccumulator st) with
  | Some (mvs, acc) =>
      Some ([MouseButtons false false false]
              ++ setKeys (motionStartIndex st) false
              ++ [Delay 10]
              ++ moves_events mvs,
            set_gesture st acc false (motionStartIndex st))
  | None => None
  end.

(** The stick that starts a move, if any: the first one outside its dead
    zone, the pan stick first. *)
Definition starting_stick (axes : list float) : option Z :=
  if negb (checkDeadzone axes 0) then Some 0
  else if negb (checkDeadzone axes 2) then Some 2
  else None.

(** The per-tick displacement the origin stick asks for. *)
Definition stick_move (axes : list float) (idx : Z) : Z * Z :=
  let speed := if idx =? 0 then pan_speed else orbit_speed in
  (F32.to_int (F32.mul (F32.of_int speed) (axis axes idx)),
   F32.to_int (F32.mul (F32.of_int speed) (axis axes (idx + 1)))).

(** The tail of [sendMouse]: send this tick's motion and account for it. *)
Definition send_motion (st : state) : list event * state :=
  let '(xMove, yMove) := stick_move (normalizedAxes st) (motionStartIndex st) in
  ([MouseMove xMove yMove],
   set_gesture st
     (Int.add (fst (unwindAccumulator st)) xMove,
      Int.add (snd (unwindAccumulator st)) yMove)
     (inMove st) (motionStartIndex st)).

(** [sendMouse]: update the motion state and send the HID reports. [None]
    only if the unwind loop does not stop. *)
Definition sendMouse (st : state) : option (list event * state) :=
  if inMove st && checkDeadzone (normalizedAxes st) (motionStartIndex st) then
    stop_move st
  else if negb (inMove st) then
    match starting_stick (normalizedAxes st) with
    | None => Some ([], st)
    | Some idx =>
        let st1 := set_gesture st (0, 0) true idx in
        let '(evs, st2) := send_motion st1 in
        Some (setKeys idx true ++ [Delay 10] ++ setMouseButtons idx ++ [Delay 10] ++ evs,
              st2)
    end
  else Some (send_motion st).

(** [loop]: one tick, given the samples [analogRead] returns during it. *)
Definition loop (samples : list Z) (st : state) : option (list event * state) :=
  let st1 := normalizeSticks (readSticks samples st) in
  let joy := if send_joystick_hid then sendJoystick st1 else [] in
  match sendMouse st1 with
  | Some (evs, st2) => Some (joy ++ evs ++ [Delay 10], st2)
  | None => None
  end.

(** [sendMouse] on a tick whose normalized axis values are [axes]. *)
Definition with_axes (st : state) (axes : list float) : state :=
  {| axisExtents := axisExtents st;
     axisValues := axisValues st;
     normalizedAxes := axes;
     unwindAccumulator := unwindAccumulator st;
     inMove := inMove st;
     motionStartIndex := motionStartIndex st |}.

Definition tick (axes : list float) (st : state) : option (list event * state) :=
  sendMouse (with_axes st axes).

(** A run of ticks, one per input: the trace of all of them and the state
    after the last. *)
Fixpoint run {I : Type} (f : I -> state -> option (list event * state))
  (inputs : list I) (st : state) : option (list event * state) :=
  match inputs with
  | [] => Some ([], st)
  | i :: rest =>
      match f i st with
      | Some (evs, st') =>
          match run f rest st' with
          | Some (evs', st'') => Some (evs ++ evs', st'')
          | None => None
          end
      | None => None
      end
  end.

(** The net pointer displacement of a trace. *)
Fixpoint displacement (evs : list event) : Z * Z :=
  match evs with
  | [] => (0, 0)
  | MouseMove dx dy :: rest =>
      (dx + fst (displacement rest), dy + snd (displacement rest))
  | _ :: rest => displacement rest
  end.

(** The moves a stick asks for over a run of ticks, and their net sum. *)
Definition gesture_moves (s : Z) (inputs : list (list float)) : list (Z * Z) :=
  map (fun axes => stick_move axes s) inputs.

(** The invariant of the gesture state: the accumulator holds [int]s, it is
    zero whenever no move is active, and an active move was started by one of
    the two sticks. *)
Definition gesture_inv (st : state) : Prop :=
  Int.in_range (fst (unwindAccumulator st)) /\
  Int.in_range (snd (unwindAccumulator st)) /\
  (inMove st = false -> unwindAccumulator st = (0, 0)) /\
  (inMove st = true -> motionStartIndex st = 0 \/ motionStartIndex st = 2).

(** Two ticks' axis values agree on the stick at axes [s], [s + 1]. *)
Definition same_stick (s : Z) (axes axes' : list float) : Prop :=
  axis axes s = axis axes' s /\ axis axes (s + 1) = axis axes' (s + 1).

Definition is_move (ev : event) : Prop :=
  match ev with MouseMove _ _ => True | _ => False end.

(** The accumulator after the moves [mvs] have been added to it, one by one. *)
Definition accumulate (acc : Z * Z) (mvs : list (Z * Z)) : Z * Z :=
  fold_left (fun a mv => (Int.add (fst a) (fst mv), Int.add (snd a) (snd mv))) mvs acc.

(** Axis values of a tick with the pan stick held fully over on its
    horizontal axis, and of a tick with both sticks at rest. *)
Definition pan_held : list float := [F32.of_int 1; F32.zero; F32.zero; F32.zero].
Definition at_rest : list float := [F32.zero; F32.zero; F32.zero; F32.zero].

(** ** Vocabulary of the rounding lemmas *)

(** A record that carries no rounding information: nothing was shifted out. *)
Definition exact_record (mrs : shr_record) : Prop :=
  shr_r mrs = false /\ shr_s mrs = false.

(** How much rounding adds: nothing to an exact value, at most one unit. *)
Definition inexact (l : location) : Z :=
  match l with loc_Exact => 0 | loc_Inexact _ => 1 end.

(** [(mb, eb)] is a finite value of the format. *)
Definition representable (mb : positive) (eb : Z) : Prop :=
  fexp F32.prec F32.emax (Zpos (digits2_pos mb) + eb) = eb /\ eb <= 104.

(** A float is a number: a zero or a finite value. *)
Definition is_number (x : float) : bool :=
  match x with S754_zero _ | S754_finite _ _ _ => true | _ => false end.

(** A float is neither a zero nor NaN. *)
Definition is_divisor (x : float) : bool :=
  match x with S754_finite _ _ _ | S754_infinity _ => true | _ => false end.

(** A result that is a zero or a positive finite value of at most
    [mb * 2^eb]. *)
Definition at_most (mb : positive) (eb : Z) (x : float) : Prop :=
  x = S754_zero false \/
  exists m e, x = S754_finite false m e /\ e <= eb /\ Zpos m <= Zpos mb * 2 ^ (eb - e).

(** ** Scenarios *)

(** Startup with the first stick resting at raw 600 on its horizontal axis and
    the other axes on their configured centers. *)
Definition startup_600 : list Z := [600; 498; 530; 513].

(** The sticks on their configured centers, and then the first axis at the
    bottom of the converter's range, below its calibrated low of 3. *)
Definition startup_centered : list Z := [520; 498; 530; 513].
Definition first_axis_at_0 : list Z := [0; 498; 530; 513].

(** A tick with the pan stick half way over on its horizontal axis. *)
Definition pan_half : list float :=
  [F32.div (F32.of_int 1) (F32.of_int 2); F32.zero; F32.zero; F32.zero].

(** The low and the high value an axis is configured with. *)
Definition configured_low (i : nat) : float := fst (fst (extents configured_extents i)).
Definition configured_high (i : nat) : float := snd (extents configured_extents i).

(** ** What the host sees of a trace *)

(** The state of the three mouse buttons after a trace, from [cur]: each
    [Mouse.set_buttons] replaces it. *)
Fixpoint held_buttons (evs : list event) (cur : bool * bool * bool)
  : bool * bool * bool :=
  match evs with
  | [] => cur
  | MouseButtons b0 b1 b2 :: rest => held_buttons rest (b0, b1, b2)
  | _ :: rest => held_buttons rest cur
  end.

(** The key held down after a trace, from [cur], 0 for none: [Keyboard.press]
    holds its key, [Keyboard.release] of the held key lets go of it. *)
Fixpoint held_key (evs : list event) (cur : Z) : Z :=
  match evs with
  | [] => cur
  | KeyPress k :: rest => held_key rest k
  | KeyRelease k :: rest => held_key rest (if cur =? k then 0 else cur)
  | _ :: rest => held_key rest cur
  end.

(** The buttons and the key the firmware means to hold in a state: those of
    the stick that started the active move, none when idle. *)
Definition buttons_of (st : state) : bool * bool * bool :=
  if inMove st
  then nth (Z.to_nat (Z.shiftr (motionStartIndex st) 1)) stick_active_buttons
         (false, false, false)
  else (false, false, false).

Definition key_of (st : state) : Z :=
  if inMove st
  then nth (Z.to_nat (Z.shiftr (motionStartIndex st) 1)) stick_active_key 0
  else 0.

(** Both sticks are in their dead zones. *)
Definition sticks_at_rest (axes : list float) : Prop :=
  checkDeadzone axes 0 = true /\ checkDeadzone axes 2 = true.

(** The stick an axis belongs to, as the index of its first axis. *)
Definition stick_of_axis (i : nat) : Z := 2 * Z.of_nat (Nat.div2 i).

(** ** Unwinding, move by move *)

(** [d] lies between 0 and [-a]: a displacement that takes [a] towards zero
    and not beyond it. *)
Definition towards_zero (a d : Z) : Prop :=
  (0 <= a -> - a <= d <= 0) /\ (a <= 0 -> 0 <= d <= - a).

(** ** Stick-press buttons *)

Definition n_buttons : nat := 2.

(** What a debouncer answers once [update()] has run: [fell()] and [rose()].
    The debouncers belong to the Bounce2 library; their answers are the
    inputs of [updateButtons]. *)
Record edges : Type := mkEdges { fell : bool; rose : bool }.

Definition no_edge : edges := {| fell := false; rose := false |}.

(** The body of [updateButtons]'s loop for one button. *)
Definition update_button (e : edges) (pressed : bool) : bool :=
  if fell e then true
  else if rose e && pressed then false
  else pressed.

(** [updateButtons]: [buttonState] after the call, given what each debouncer
    answers during it. *)
Definition updateButtons (es : list edges) (buttonState : list bool) : list bool :=
  map (fun i => update_button (nth i es no_edge) (nth i buttonState false))
      (seq 0 n_buttons).

(** [buttonState] after one call of [updateButtons] per entry of [history]. *)
Definition buttons_after (history : list (list edges)) (buttonState : list bool)
  : list bool :=
  fold_left (fun bs es => updateButtons es bs) history buttonState.

(** The latest edge button [i]'s debouncer reported, looking back from the
    most recent call: [Some true] for a fall, [Some false] for a rise. *)
Fixpoint latest_edge (i : nat) (recent_first : list (list edges)) : option bool :=
  match recent_first with
  | [] => None
  | es :: earlier =>
      if fell (nth i es no_edge) then Some true
      else if rose (nth i es no_edge) then Some false
      else latest_edge i earlier
  end.

(** ** Integers as floats *)

(** The mantissa and the exponent of the float that holds the integer [n],
    for [0 < n < 2^24]: the digits of [n], moved up to fill the 24 digits of
    the mantissa. *)
Definition int_mantissa (n : Z) : positive := Z.to_pos (n * 2 ^ (24 - Zdigits2 n)).
Definition int_exponent (n : Z) : Z := Zdigits2 n - 24.

(** An integer that every [float] operation below treats exactly. *)
Definition small_int (n : Z) : Prop := 0 <= n < 2 ^ 24.

(** A zero of either sign, or a finite value of either sign whose magnitude
    is at most [mb * 2^eb]. *)
Definition magnitude_at_most (mb : positive) (eb : Z) (x : float) : Prop :=
  (exists s, x = S754_zero s) \/
  exists s m e, x = S754_finite s m e /\ e <= eb /\ Zpos m <= Zpos mb * 2 ^ (eb - e).

(** The calibration table as the source writes it, in raw units. *)
Definition configured_raw : list (Z * Z * Z) :=
  [ (3, 520, 1021);
    (6, 498, 1019);
    (3, 530, 1021);
    (2, 513, 1022) ].

Definition raw_low (i : nat) : Z := fst (fst (nth i configured_raw (0, 0, 0))).
Definition raw_high (i : nat) : Z := snd (nth i configured_raw (0, 0, 0)).

(** The speed of the stick that starts at axis [idx]. *)
Definition stick_speed (idx : Z) : Z := if idx =? 0 then pan_speed else orbit_speed.

(** A tick's samples lie within the configured range of every axis, and
    startup samples lie strictly inside it. *)
Definition within_extents (samples : list Z) : Prop :=
  forall i, (i < n_axes)%nat -> raw_low i <= nth i samples 0 <= raw_high i.

Definition inside_extents (samples : list Z) : Prop :=
  forall i, (i < n_axes)%nat -> raw_low i < nth i samples 0 < raw_high i.

(** Every mouse move of a trace is at most [bound] long on each axis. *)
Definition moves_within (bound : Z) (evs : list event) : Prop :=
  Forall (fun ev => match ev with
                    | MouseMove dx dy => Z.abs dx <= bound /\ Z.abs dy <= bound
                    | _ => True
                    end) evs.

(** The fastest a stick moves the pointer in one tick. *)
Definition top_speed : Z := Z.max (Z.abs pan_speed) (Z.abs orbit_speed).

(** * Properties *)

(** ** Machine integers *)

Lemma int_min_val : Int.int_min = -2147483648.
Proof. reflexivity. Qed.

Lemma int_max_val : Int.int_max = 2147483647.
Proof. reflexivity. Qed.

Lemma modulus_val : Int.modulus = 4294967296.
Proof. reflexivity. Qed.

Lemma wrap_small (z : Z) : Int.in_range z -> Int.wrap z = z.
Proof.
  unfold Int.in_range, Int.wrap. rewrite int_min_val, int_max_val, modulus_val.
  intros H. rewrite Z.mod_small; lia.
Qed.

Lemma wrap_in_range (z : Z) : Int.in_range (Int.wrap z).
Proof.
  unfold Int.in_range, Int.wrap. rewrite int_min_val, int_max_val, modulus_val.
  pose proof (Z.mod_pos_bound (z - -2147483648) 4294967296). lia.
Qed.

Lemma wrap_congr (z : Z) : exists k, Int.wrap z = z + k * Int.modulus.
Proof.
  unfold Int.wrap. rewrite modulus_val.
  exists (- ((z - Int.int_min) / 4294967296)).
  pose proof (Z.div_mod (z - Int.int_min) 4294967296). lia.
Qed.

Lemma wrap_add_wrap_l (a b : Z) : Int.wrap (Int.wrap a + b) = Int.wrap (a + b).
Proof.
  destruct (wrap_congr a) as [k Hk]. rewrite Hk. unfold Int.wrap.
  replace (a + k * Int.modulus + b - Int.int_min)
    with (a + b - Int.int_min + k * Int.modulus) by ring.
  now rewrite Z.mod_add by (rewrite modulus_val; lia).
Qed.

Lemma min_spec (a b : Z) : Int.min a b = Z.min a b.
Proof. unfold Int.min. destruct (Z.ltb_spec a b); lia. Qed.

(** ** The unwind engine *)

Ltac int_range :=
  unfold negatable, Int.in_range in *; rewrite ?int_min_val, ?int_max_val in *; lia.

Lemma ceil_div_0 (d : Z) : 0 < d -> ceil_div 0 d = 0.
Proof. intros Hd. unfold ceil_div. apply Z.div_small. lia. Qed.

Lemma ceil_div_step (n d : Z) :
  0 < d -> 0 < n -> ceil_div n d = 1 + ceil_div (Z.max (n - d) 0) d.
Proof.
  intros Hd Hn. unfold ceil_div.
  destruct (Z.le_gt_cases n d) as [Hle|Hgt].
  - replace (Z.max (n - d) 0) with 0 by lia.
    rewrite (Z.div_small (0 + d - 1)) by lia.
    replace (n + d - 1) with ((n - 1) + 1 * d) by ring.
    rewrite Z.div_add by lia. rewrite Z.div_small; lia.
  - replace (Z.max (n - d) 0) with (n - d) by lia.
    replace (n + d - 1) with ((n - d + d - 1) + 1 * d) by ring.
    rewrite Z.div_add by lia. lia.
Qed.

Lemma ceil_div_spec (n d k : Z) :
  0 < d -> (ceil_div n d = k <-> (k - 1) * d < n <= k * d).
Proof.
  intros Hd. unfold ceil_div.
  pose proof (Z.div_mod (n + d - 1) d ltac:(lia)) as Hdm.
  pose proof (Z.mod_pos_bound (n + d - 1) d Hd) as Hb.
  split; intros H.
  - subst k. nia.
  - symmetry. apply (Z.div_unique (n + d - 1) d k (n + d - 1 - d * k)); lia.
Qed.

Lemma unwinding_false (acc : Z * Z) : unwinding acc = false <-> acc = (0, 0).
Proof.
  destruct acc as [ax ay]. unfold unwinding; simpl.
  destruct (Z.eqb_spec ax 0), (Z.eqb_spec ay 0); simpl; split;
    intros H; try discriminate; try reflexivity; try congruence;
    inversion H; contradiction.
Qed.

Lemma exact_step_abs (maxStep a : Z) :
  0 < maxStep ->
  Z.abs (exact_step maxStep a) <= maxStep /\
  Z.abs (a + exact_step maxStep a) = Z.max (Z.abs a - maxStep) 0.
Proof.
  unfold exact_step. intros Hm.
  destruct (Z.ltb_spec 0 a); [|destruct (Z.ltb_spec a 0)]; lia.
Qed.

Lemma in_range_cases (a : Z) : Int.in_range a -> a = Int.int_min \/ negatable a.
Proof. unfold Int.in_range, negatable. lia. Qed.

(** More fuel never changes the outcome of a loop that has stopped. *)
Lemma doUnwind_loop_mono (maxStep : Z) (fuel : nat) :
  forall (fuel' : nat) (acc : Z * Z) r,
    doUnwind_loop fuel maxStep acc = Some r -> (fuel <= fuel')%nat ->
    doUnwind_loop fuel' maxStep acc = Some r.
Proof.
  induction fuel as [|fuel IH]; intros fuel' acc r Hrun Hle.
  - cbn [doUnwind_loop] in Hrun. destruct (unwinding acc) eqn:Hu; [discriminate|].
    destruct fuel'; cbn [doUnwind_loop]; now rewrite Hu.
  - destruct fuel' as [|fuel']; [lia|].
    cbn [doUnwind_loop] in *. destruct (unwinding acc); [|assumption].
    destruct (unwind_step maxStep acc) as [mv acc'].
    destruct (doUnwind_loop fuel maxStep acc') as [[mvs final]|] eqn:Hrec;
      [|discriminate].
    rewrite (IH fuel' acc' (mvs, final) Hrec) by lia. assumption.
Qed.

Lemma doUnwind_loop_unfold (maxStep : Z) (n : nat) (acc acc' mv : Z * Z) mvs final :
  unwinding acc = true ->
  unwind_step maxStep acc = (mv, acc') ->
  doUnwind_loop n maxStep acc' = Some (mvs, final) ->
  doUnwind_loop (S n) maxStep acc = Some (mv :: mvs, final).
Proof.
  intros Hu Hs Hrun. cbn [doUnwind_loop]. now rewrite Hu, Hs, Hrun.
Qed.

(** The loop under a step cap that is a positive [int]. *)
Section UnwindLoop.

Variable maxStep : Z.
Hypothesis maxStep_range : 0 < maxStep <= Int.int_max.

Lemma max_step_exact (a : Z) :
  negatable a ->
  max_step maxStep a = exact_step maxStep a /\
  Int.add a (max_step maxStep a) = a + exact_step maxStep a.
Proof.
  intros Ha. unfold max_step, exact_step, Int.add, Int.neg. rewrite !min_spec.
  destruct (Z.ltb_spec 0 a); [|destruct (Z.ltb_spec a 0)].
  - rewrite (wrap_small (- Z.min a maxStep)) by int_range.
    split; [reflexivity|]. apply wrap_small. int_range.
  - rewrite (wrap_small (- a)) by int_range.
    split; [reflexivity|]. apply wrap_small. int_range.
  - split; [reflexivity|]. apply wrap_small. int_range.
Qed.

(** On [int_min] the step is [int_min] itself: its negation wraps back to it,
    and [min] prefers it to the step cap. The sum then wraps to zero. *)
Lemma max_step_int_min :
  max_step maxStep Int.int_min = Int.int_min /\
  Int.add Int.int_min (max_step maxStep Int.int_min) = 0.
Proof.
  assert (Hs : max_step maxStep Int.int_min = Int.int_min).
  { unfold max_step. rewrite int_min_val. cbn [Z.ltb Z.compare].
    unfold Int.min.
    replace (Int.neg (-2147483648)) with (-2147483648) by reflexivity.
    destruct (Z.ltb_spec maxStep (-2147483648)); [int_range|reflexivity]. }
  split; [exact Hs|]. rewrite Hs. reflexivity.
Qed.

(** One pass of the loop takes each component strictly closer to zero, and
    off [int_min] for good. *)
Lemma unwind_step_cases (a : Z) :
  Int.in_range a ->
  negatable (Int.add a (max_step maxStep a)) /\
  (Z.abs (Int.add a (max_step maxStep a)) < Z.abs a \/
   (a = 0 /\ Int.add a (max_step maxStep a) = 0)).
Proof.
  intros Ha. destruct (in_range_cases a Ha) as [->|Na].
  - destruct max_step_int_min as [_ ->]. int_range.
  - destruct (max_step_exact a Na) as [_ ->].
    destruct (exact_step_abs maxStep a) as [_ Habs]; [lia|]. int_range.
Qed.

(** The loop, once it has fuel for [max |ax| |ay|] iterations: it stops with
    the accumulator at zero, its moves add up to the negated accumulator, each
    is at most [maxStep] long, and there are [ceil (max |ax| |ay| / maxStep)]
    of them. *)
Lemma doUnwind_loop_spec (fuel : nat) :
  forall ax ay : Z,
    negatable ax -> negatable ay ->
    Z.max (Z.abs ax) (Z.abs ay) <= Z.of_nat fuel ->
    exists mvs,
      doUnwind_loop fuel maxStep (ax, ay) = Some (mvs, (0, 0)) /\
      sum_moves mvs = (- ax, - ay) /\
      moves_bounded maxStep mvs /\
      Z.of_nat (length mvs) = ceil_div (Z.max (Z.abs ax) (Z.abs ay)) maxStep.
Proof.
  induction fuel as [|fuel IH]; intros ax ay Hx Hy Hf.
  - assert (ax = 0) by lia. assert (ay = 0) by lia. subst.
    exists []. simpl. rewrite ceil_div_0 by lia.
    repeat split; constructor.
  - destruct (unwinding (ax, ay)) eqn:Hu.
    + cbn [doUnwind_loop]. rewrite Hu. unfold unwind_step. cbn [fst snd].
      destruct (max_step_exact ax Hx) as [Hsx Hax].
      destruct (max_step_exact ay Hy) as [Hsy Hay].
      rewrite Hax, Hay, Hsx, Hsy.
      assert (Hpos : 0 < maxStep) by lia.
      destruct (exact_step_abs maxStep ax Hpos) as [Hbx Hnx].
      destruct (exact_step_abs maxStep ay Hpos) as [Hby Hny].
      assert (Hnz : 0 < Z.max (Z.abs ax) (Z.abs ay)).
      { destruct (Z.eq_dec ax 0) as [->|], (Z.eq_dec ay 0) as [->|]; try lia.
        discriminate Hu. }
      destruct (IH (ax + exact_step maxStep ax) (ay + exact_step maxStep ay))
        as (mvs & Hrun & Hsum & Hbd & Hlen); [int_range|int_range|lia|].
      rewrite Hrun.
      exists ((exact_step maxStep ax, exact_step maxStep ay) :: mvs).
      split; [reflexivity|]. split; [|split].
      * cbn [sum_moves]. rewrite Hsum. cbn [fst snd]. f_equal; ring.
      * constructor; [cbn [fst snd]; lia | exact Hbd].
      * cbn [length]. rewrite Nat2Z.inj_succ, Hlen.
        rewrite (ceil_div_step (Z.max (Z.abs ax) (Z.abs ay)) maxStep) by lia.
        replace (Z.max (Z.abs (ax + exact_step maxStep ax))
                       (Z.abs (ay + exact_step maxStep ay)))
          with (Z.max (Z.max (Z.abs ax) (Z.abs ay) - maxStep) 0) by lia.
        lia.
    + apply unwinding_false in Hu. inversion Hu; subst.
      exists []. cbn [doUnwind_loop]. simpl. rewrite ceil_div_0 by lia.
      repeat split; constructor.
Qed.

(** [doUnwind] grants the loop enough fuel. *)
Lemma doUnwind_spec (ax ay : Z) :
  negatable ax -> negatable ay ->
  exists mvs,
    doUnwind maxStep (ax, ay) = Some (mvs, (0, 0)) /\
    sum_moves mvs = (- ax, - ay) /\
    moves_bounded maxStep mvs /\
    Z.of_nat (length mvs) = ceil_div (Z.max (Z.abs ax) (Z.abs ay)) maxStep.
Proof.
  intros Hx Hy. apply doUnwind_loop_spec; try assumption.
  unfold unwind_fuel. cbn [fst snd]. lia.
Qed.

Lemma doUnwind_sum (ax ay : Z) :
  negatable ax -> negatable ay ->
  exists mvs,
    doUnwind maxStep (ax, ay) = Some (mvs, (0, 0)) /\
    sum_moves mvs = (- ax, - ay).
Proof.
  intros Hx Hy.
  destruct (doUnwind_spec ax ay Hx Hy) as (mvs & Hrun & Hsum & _).
  exists mvs. split; assumption.
Qed.

(** [doUnwind] stops on every accumulator of [int]s, with the accumulator at
    zero. *)
Lemma doUnwind_total (ax ay : Z) :
  Int.in_range ax -> Int.in_range ay ->
  exists mvs, doUnwind maxStep (ax, ay) = Some (mvs, (0, 0)).
Proof.
  intros Hx Hy. unfold doUnwind.
  destruct (unwinding (ax, ay)) eqn:Hu.
  - destruct (unwind_step_cases ax Hx) as [Nx Px].
    destruct (unwind_step_cases ay Hy) as [Ny Py].
    set (ax' := Int.add ax (max_step maxStep ax)) in *.
    set (ay' := Int.add ay (max_step maxStep ay)) in *.
    destruct (doUnwind_loop_spec (unwind_fuel (ax', ay')) ax' ay' Nx Ny)
      as (mvs & Hrun & _).
    { unfold unwind_fuel. cbn [fst snd]. lia. }
    exists ((max_step maxStep ax, max_step maxStep ay) :: mvs).
    apply (doUnwind_loop_mono maxStep (S (unwind_fuel (ax', ay')))).
    + apply (doUnwind_loop_unfold maxStep _ (ax, ay) (ax', ay')); auto.
    + assert (Hnz : ax <> 0 \/ ay <> 0).
      { destruct (Z.eq_dec ax 0) as [->|]; [|now left].
        destruct (Z.eq_dec ay 0) as [->|]; [discriminate Hu|now right]. }
      unfold unwind_fuel. cbn [fst snd]. lia.
  - exists []. apply unwinding_false in Hu. inversion Hu; subst. reflexivity.
Qed.

End UnwindLoop.

Lemma max_unwind_step_ok : 0 < max_unwind_step <= Int.int_max.
Proof. unfold max_unwind_step. rewrite int_max_val. lia. Qed.

(** The loop on the accumulator [(int_min, 0)]: negating [int_min] wraps back
    to [int_min], which [min] prefers to the step cap, so the only move is
    [int_min] long. *)
Lemma doUnwind_at_int_min :
  doUnwind max_unwind_step (Int.int_min, 0) = Some ([(Int.int_min, 0)], (0, 0)).
Proof.
  unfold doUnwind. apply (doUnwind_loop_mono max_unwind_step 1).
  - reflexivity.
  - unfold unwind_fuel. cbn [fst snd]. rewrite int_min_val. lia.
Qed.

(** C1, as stated, fails: the accumulator [(int_min, 0)] is unwound by the
    single move [(int_min, 0)], whose sum is not [(- int_min, 0)]. *)
Lemma unwind_sum_fails_at_int_min :
  doUnwind max_unwind_step (Int.int_min, 0) = Some ([(Int.int_min, 0)], (0, 0)) /\
  sum_moves [(Int.int_min, 0)] <> (- Int.int_min, - 0).
Proof.
  split; [exact doUnwind_at_int_min|]. cbn. discriminate.
Qed.

(** C1, amended: for every positive step cap and every accumulator whose
    components are [int]s other than [int_min], [doUnwind] stops, leaves the
    accumulator at zero, and the moves it sent add up to exactly
    [(-ax, -ay)]. *)
Theorem unwind_zero_sum (maxStep ax ay : Z) :
  0 < maxStep <= Int.int_max -> negatable ax -> negatable ay ->
  exists mvs,
    doUnwind maxStep (ax, ay) = Some (mvs, (0, 0)) /\
    sum_moves mvs = (- ax, - ay).
Proof.
  intros Hm Hx Hy.
  destruct (doUnwind_spec maxStep Hm ax ay Hx Hy) as (mvs & Hrun & Hsum & _).
  exists mvs. split; assumption.
Qed.

Lemma unwind_zero_sum_witness :
  exists mvs,
    doUnwind 100 (250, -30) = Some (mvs, (0, 0)) /\
    sum_moves mvs = (- 250, - -30).
Proof.
  apply (unwind_zero_sum 100 250 (-30));
    int_range.
Defined.

(** C3, as stated, fails: unwinding the accumulator [(int_min, 0)] sends a
    move that is longer than the step cap. *)
Lemma unwind_step_bound_fails_at_int_min :
  doUnwind max_unwind_step (Int.int_min, 0) = Some ([(Int.int_min, 0)], (0, 0)) /\
  ~ moves_bounded max_unwind_step [(Int.int_min, 0)].
Proof.
  split; [exact doUnwind_at_int_min|]. intros H.
  unfold moves_bounded in H. apply Forall_inv in H. cbv [fst snd] in H.
  rewrite int_min_val in H. unfold max_unwind_step in H. lia.
Qed.

(** C3, amended: for every positive step cap and every accumulator whose
    components are [int]s other than [int_min], every move [doUnwind] sends
    has [|dx| <= maxStep] and [|dy| <= maxStep]. *)
Theorem unwind_step_bound (maxStep ax ay : Z) :
  0 < maxStep <= Int.int_max -> negatable ax -> negatable ay ->
  exists mvs final,
    doUnwind maxStep (ax, ay) = Some (mvs, final) /\
    forall dx dy, In (dx, dy) mvs -> Z.abs dx <= maxStep /\ Z.abs dy <= maxStep.
Proof.
  intros Hm Hx Hy.
  destruct (doUnwind_spec maxStep Hm ax ay Hx Hy) as (mvs & Hrun & _ & Hbd & _).
  exists mvs, (0, 0). split; [assumption|]. intros dx dy Hin.
  unfold moves_bounded in Hbd. rewrite Forall_forall in Hbd.
  exact (Hbd (dx, dy) Hin).
Qed.

Lemma unwind_step_bound_witness :
  exists mvs final,
    doUnwind 100 (250, -30) = Some (mvs, final) /\
    forall dx dy, In (dx, dy) mvs -> Z.abs dx <= 100 /\ Z.abs dy <= 100.
Proof.
  apply (unwind_step_bound 100 250 (-30));
    int_range.
Defined.

(** C4, as stated, fails: the accumulator [(int_min, 0)] is unwound in one
    iteration, not in [ceil (2^31 / 100) = 21474837]. *)
Lemma unwind_iterations_fail_at_int_min :
  doUnwind max_unwind_step (Int.int_min, 0) = Some ([(Int.int_min, 0)], (0, 0)) /\
  Z.of_nat (length [(Int.int_min, 0)])
    <> ceil_div (Z.max (Z.abs Int.int_min) (Z.abs 0)) max_unwind_step.
Proof.
  split; [exact doUnwind_at_int_min|]. cbv. discriminate.
Qed.

(** C4, amended: for every positive step cap and every accumulator whose
    components are [int]s other than [int_min], the loop of [doUnwind] runs
    exactly [ceil (max |ax| |ay| / maxStep)] times before both components are
    zero, and one iteration takes each component [maxStep] closer to zero, or
    to zero. *)
Theorem unwind_iterations (maxStep ax ay : Z) :
  0 < maxStep <= Int.int_max -> negatable ax -> negatable ay ->
  (exists mvs,
     doUnwind maxStep (ax, ay) = Some (mvs, (0, 0)) /\
     Z.of_nat (length mvs) = ceil_div (Z.max (Z.abs ax) (Z.abs ay)) maxStep) /\
  (let acc' := snd (unwind_step maxStep (ax, ay)) in
   Z.abs (fst acc') = Z.max (Z.abs ax - maxStep) 0 /\
   Z.abs (snd acc') = Z.max (Z.abs ay - maxStep) 0).
Proof.
  intros Hm Hx Hy. split.
  - destruct (doUnwind_spec maxStep Hm ax ay Hx Hy) as (mvs & Hrun & _ & _ & Hlen).
    exists mvs. split; assumption.
  - unfold unwind_step. cbn [fst snd].
    destruct (max_step_exact maxStep Hm ax Hx) as [_ ->].
    destruct (max_step_exact maxStep Hm ay Hy) as [_ ->].
    split; apply exact_step_abs; lia.
Qed.

Lemma unwind_iterations_witness :
  (exists mvs,
     doUnwind 100 (250, -30) = Some (mvs, (0, 0)) /\
     Z.of_nat (length mvs) = ceil_div (Z.max (Z.abs 250) (Z.abs (-30))) 100) /\
  (let acc' := snd (unwind_step 100 (250, -30)) in
   Z.abs (fst acc') = Z.max (Z.abs 250 - 100) 0 /\
   Z.abs (snd acc') = Z.max (Z.abs (-30) - 100) 0).
Proof.
  apply (unwind_iterations 100 250 (-30));
    int_range.
Defined.

(** ** The motion state machine *)

Lemma starting_stick_cases (axes : list float) (idx : Z) :
  starting_stick axes = Some idx -> idx = 0 \/ idx = 2.
Proof.
  unfold starting_stick.
  destruct (checkDeadzone axes 0); cbn [negb].
  - destruct (checkDeadzone axes 2); cbn [negb]; intros H; inversion H; auto.
  - intros H; inversion H; auto.
Qed.

Lemma send_motion_inv (st : state) :
  inMove st = true ->
  (motionStartIndex st = 0 \/ motionStartIndex st = 2) ->
  gesture_inv (snd (send_motion st)).
Proof.
  intros Hmv Hidx. unfold send_motion.
  destruct (stick_move (normalizedAxes st) (motionStartIndex st)) as [xMove yMove].
  unfold gesture_inv, set_gesture. cbn [snd fst unwindAccumulator inMove motionStartIndex].
  repeat split; try apply wrap_in_range.
  - intros H. congruence.
  - intros _. exact Hidx.
Qed.

(** Every call of [sendMouse] returns, and keeps the invariant. *)
Lemma sendMouse_inv (st : state) :
  gesture_inv st ->
  exists evs st', sendMouse st = Some (evs, st') /\ gesture_inv st'.
Proof.
  intros (Hx & Hy & Hidle & Hact). unfold sendMouse.
  destruct (inMove st) eqn:Hmv; cbn [andb negb].
  - destruct (checkDeadzone (normalizedAxes st) (motionStartIndex st)).
    + unfold stop_move. destruct (unwindAccumulator st) as [ax ay] eqn:Hacc.
      destruct (doUnwind_total max_unwind_step max_unwind_step_ok ax ay Hx Hy)
        as [mvs Hrun].
      rewrite Hrun. eexists _, _. split; [reflexivity|].
      unfold gesture_inv, set_gesture.
      cbn [fst snd unwindAccumulator inMove motionStartIndex].
      repeat split; try (unfold Int.in_range; rewrite int_min_val, int_max_val; lia);
        intros H; try discriminate H; reflexivity.
    + exists (fst (send_motion st)), (snd (send_motion st)).
      split; [now rewrite <- surjective_pairing|].
      apply send_motion_inv; auto.
  - destruct (starting_stick (normalizedAxes st)) as [idx|] eqn:Hstart.
    + pose proof (starting_stick_cases _ _ Hstart) as Hidx.
      destruct (send_motion (set_gesture st (0, 0) true idx)) as [evs st2] eqn:Hsend.
      eexists _, _. split; [reflexivity|].
      change st2 with (snd (evs, st2)). rewrite <- Hsend.
      apply send_motion_inv; auto.
    + eexists _, _. split; [reflexivity|].
      split; [exact Hx|]. split; [exact Hy|]. split; rewrite Hmv; assumption.
Qed.

Lemma loop_inv (samples : list Z) (st : state) :
  gesture_inv st ->
  exists evs st', loop samples st = Some (evs, st') /\ gesture_inv st'.
Proof.
  intros Hinv. unfold loop.
  destruct (sendMouse_inv (normalizeSticks (readSticks samples st)) Hinv)
    as (evs & st' & Hrun & Hinv').
  rewrite Hrun. eexists _, _. split; [reflexivity|exact Hinv'].
Qed.

Lemma run_inv {I : Type} (f : I -> state -> option (list event * state)) :
  (forall i st, gesture_inv st ->
     exists evs st', f i st = Some (evs, st') /\ gesture_inv st') ->
  forall inputs st, gesture_inv st ->
    exists evs st', run f inputs st = Some (evs, st') /\ gesture_inv st'.
Proof.
  intros Hf inputs. induction inputs as [|i rest IH]; intros st Hinv.
  - exists [], st. split; [reflexivity|exact Hinv].
  - destruct (Hf i st Hinv) as (evs & st1 & Hrun & Hinv1).
    destruct (IH st1 Hinv1) as (evs' & st2 & Hrun' & Hinv2).
    cbn [run]. rewrite Hrun, Hrun'. eexists _, _. split; [reflexivity|exact Hinv2].
Qed.

Lemma setup_inv (samples : list Z) : gesture_inv (setup samples initial_state).
Proof.
  unfold setup, calibrate_on_startup, gesture_inv. cbn.
  repeat split; try (unfold Int.in_range; rewrite int_min_val, int_max_val; lia);
    intros H; try discriminate H; reflexivity.
Qed.

(** C10: whatever the sticks read during [setup] and during any number of
    ticks of [loop], every tick returns, and at the tick boundary the unwind
    accumulator is exactly [(0, 0)] whenever no move is active ([inMove] is
    false). *)
Theorem idle_accumulator_zero (startup : list Z) (ticks : list (list Z)) :
  exists evs st,
    run loop ticks (setup startup initial_state) = Some (evs, st) /\
    (inMove st = false -> unwindAccumulator st = (0, 0)).
Proof.
  destruct (run_inv loop loop_inv ticks (setup startup initial_state)
              (setup_inv startup)) as (evs & st & Hrun & Hinv).
  exists evs, st. split; [exact Hrun|]. apply Hinv.
Qed.

(** *** Traces *)

Lemma displacement_app (l1 l2 : list event) :
  displacement (l1 ++ l2) =
  (fst (displacement l1) + fst (displacement l2),
   snd (displacement l1) + snd (displacement l2)).
Proof.
  induction l1 as [|ev l1 IH]; cbn [app displacement].
  - now destruct (displacement l2).
  - destruct ev; try exact IH. rewrite IH. cbn [fst snd]. f_equal; ring.
Qed.

Lemma displacement_moves (mvs : list (Z * Z)) :
  displacement (moves_events mvs) = sum_moves mvs.
Proof.
  induction mvs as [|[dx dy] mvs IH]; [reflexivity|].
  cbn [moves_events map displacement sum_moves fst snd].
  fold (moves_events mvs). now rewrite IH.
Qed.

Lemma displacement_setKeys (idx : Z) (press : bool) :
  displacement (setKeys idx press) = (0, 0).
Proof.
  unfold setKeys.
  destruct (nth (Z.to_nat (Z.shiftr idx 1)) stick_active_key 0 =? 0); [reflexivity|].
  destruct press; reflexivity.
Qed.

Lemma displacement_setMouseButtons (idx : Z) :
  displacement (setMouseButtons idx) = (0, 0).
Proof.
  unfold setMouseButtons.
  destruct (nth (Z.to_nat (Z.shiftr idx 1)) stick_active_buttons (false, false, false))
    as [[b0 b1] b2].
  reflexivity.
Qed.

Lemma run_app {I : Type} (f : I -> state -> option (list event * state))
  (l1 l2 : list I) (st st1 st2 : state) (evs1 evs2 : list event) :
  run f l1 st = Some (evs1, st1) ->
  run f l2 st1 = Some (evs2, st2) ->
  run f (l1 ++ l2) st = Some (evs1 ++ evs2, st2).
Proof.
  revert st evs1. induction l1 as [|i l1 IH]; intros st evs1 H1 H2.
  - cbn [run] in H1. inversion H1; subst. exact H2.
  - cbn [run app] in *.
    destruct (f i st) as [[evs st']|]; [|discriminate].
    destruct (run f l1 st') as [[evs' st'']|] eqn:Hrest; [|discriminate].
    inversion H1; subst.
    rewrite (IH st' evs' Hrest H2). now rewrite app_assoc.
Qed.

(** *** The three kinds of tick *)

Lemma tick_steady (axes : list float) (st : state) (s : Z) :
  inMove st = true -> motionStartIndex st = s -> checkDeadzone axes s = false ->
  tick axes st =
  Some ([MouseMove (fst (stick_move axes s)) (snd (stick_move axes s))],
        set_gesture (with_axes st axes)
          (Int.add (fst (unwindAccumulator st)) (fst (stick_move axes s)),
           Int.add (snd (unwindAccumulator st)) (snd (stick_move axes s)))
          true s).
Proof.
  intros Hmv Hidx Hdz. unfold tick, sendMouse.
  cbn [with_axes inMove normalizedAxes motionStartIndex].
  rewrite Hmv, Hidx, Hdz. cbn [andb negb]. unfold send_motion.
  cbn [with_axes inMove normalizedAxes motionStartIndex unwindAccumulator].
  rewrite Hidx, Hmv. now destruct (stick_move axes s).
Qed.

Lemma tick_start (axes : list float) (st : state) (s : Z) :
  inMove st = false -> starting_stick axes = Some s ->
  tick axes st =
  Some (setKeys s true ++ [Delay 10] ++ setMouseButtons s ++ [Delay 10]
          ++ [MouseMove (fst (stick_move axes s)) (snd (stick_move axes s))],
        set_gesture (with_axes st axes)
          (Int.add 0 (fst (stick_move axes s)), Int.add 0 (snd (stick_move axes s)))
          true s).
Proof.
  intros Hmv Hstart. unfold tick, sendMouse.
  cbn [with_axes inMove normalizedAxes motionStartIndex].
  rewrite Hmv, Hstart. cbn [andb negb]. unfold send_motion.
  cbn [set_gesture with_axes inMove normalizedAxes motionStartIndex
       unwindAccumulator fst snd].
  now destruct (stick_move axes s).
Qed.

Lemma tick_stop (axes : list float) (st : state) (s : Z) (mvs : list (Z * Z)) (final : Z * Z) :
  inMove st = true -> motionStartIndex st = s -> checkDeadzone axes s = true ->
  doUnwind max_unwind_step (unwindAccumulator st) = Some (mvs, final) ->
  tick axes st =
  Some ([MouseButtons false false false] ++ setKeys s false ++ [Delay 10]
          ++ moves_events mvs,
        set_gesture (with_axes st axes) final false s).
Proof.
  intros Hmv Hidx Hdz Hrun. unfold tick, sendMouse.
  cbn [with_axes inMove normalizedAxes motionStartIndex].
  rewrite Hmv, Hidx, Hdz. cbn [andb]. unfold stop_move.
  cbn [with_axes unwindAccumulator motionStartIndex].
  now rewrite Hrun, Hidx.
Qed.

Lemma tick_idle (axes : list float) (st : state) :
  inMove st = false -> starting_stick axes = None ->
  tick axes st = Some ([], with_axes st axes).
Proof.
  intros Hmv Hstart. unfold tick, sendMouse.
  cbn [with_axes inMove normalizedAxes motionStartIndex].
  now rewrite Hmv, Hstart.
Qed.

(** *** Steady ticks of an active move *)

Lemma accumulate_cons (acc mv : Z * Z) (mvs : list (Z * Z)) :
  accumulate acc (mv :: mvs) =
  accumulate (Int.add (fst acc) (fst mv), Int.add (snd acc) (snd mv)) mvs.
Proof. reflexivity. Qed.

(** Adding moves one by one wraps to the same [int]s as adding their sum. *)
Lemma accumulate_wrap (mvs : list (Z * Z)) :
  forall acc,
    Int.in_range (fst acc) -> Int.in_range (snd acc) ->
    accumulate acc mvs =
    (Int.wrap (fst acc + fst (sum_moves mvs)), Int.wrap (snd acc + snd (sum_moves mvs))).
Proof.
  induction mvs as [|[dx dy] mvs IH]; intros [ax ay] Hx Hy; cbn [fst snd] in *.
  - cbn [accumulate fold_left sum_moves fst snd]. rewrite !Z.add_0_r.
    now rewrite !wrap_small.
  - rewrite accumulate_cons. cbn [fst snd].
    rewrite IH by (cbn [fst snd]; apply wrap_in_range).
    cbn [fst snd sum_moves]. unfold Int.add. rewrite !wrap_add_wrap_l.
    f_equal; f_equal; ring.
Qed.

(** While the origin stick stays outside its dead zone, each tick sends the
    one move that stick asks for and adds it to the accumulator. *)
Lemma run_steady (s : Z) (inputs : list (list float)) :
  forall st,
    inMove st = true -> motionStartIndex st = s ->
    Forall (fun axes => checkDeadzone axes s = false) inputs ->
    exists st',
      run tick inputs st = Some (moves_events (gesture_moves s inputs), st') /\
      unwindAccumulator st' = accumulate (unwindAccumulator st) (gesture_moves s inputs) /\
      inMove st' = true /\ motionStartIndex st' = s.
Proof.
  induction inputs as [|axes rest IH]; intros st Hmv Hidx Hall.
  - exists st. repeat split; auto.
  - inversion Hall as [|? ? Hdz Hrest]; subst.
    pose proof (tick_steady axes st _ Hmv eq_refl Hdz) as Htick.
    destruct (IH _ (eq_refl : inMove (set_gesture (with_axes st axes)
                  (Int.add (fst (unwindAccumulator st))
                     (fst (stick_move axes (motionStartIndex st))),
                   Int.add (snd (unwindAccumulator st))
                     (snd (stick_move axes (motionStartIndex st))))
                  true (motionStartIndex st)) = true) eq_refl Hrest)
      as (st' & Hrun & Hacc & Hmv' & Hidx').
    exists st'. cbn [run]. rewrite Htick, Hrun.
    repeat split; auto.
Qed.

Lemma checkDeadzone_same_stick (s : Z) (axes axes' : list float) :
  same_stick s axes axes' -> checkDeadzone axes s = checkDeadzone axes' s.
Proof. intros [H0 H1]. unfold checkDeadzone. now rewrite H0, H1. Qed.

Lemma stick_move_same_stick (s : Z) (axes axes' : list float) :
  same_stick s axes axes' -> stick_move axes s = stick_move axes' s.
Proof. intros [H0 H1]. unfold stick_move. now rewrite H0, H1. Qed.

Lemma gesture_moves_same_stick (s : Z) (inputs inputs' : list (list float)) :
  Forall2 (same_stick s) inputs inputs' ->
  gesture_moves s inputs = gesture_moves s inputs'.
Proof.
  induction 1 as [|a a' l l' Ha _ IH]; [reflexivity|].
  cbn [gesture_moves map]. fold (gesture_moves s l) (gesture_moves s l').
  now rewrite IH, (stick_move_same_stick s a a' Ha).
Qed.

Lemma moves_events_are_moves (mvs : list (Z * Z)) : Forall is_move (moves_events mvs).
Proof. induction mvs; constructor; [exact I|assumption]. Qed.

(** C7: while a move started by the stick on axes [s], [s + 1] is active and
    that stick stays outside its dead zone, the ticks' traces and the gesture
    state do not depend on the other stick's axes: two runs whose inputs agree
    on the origin stick send the same events, one mouse move per tick and no
    button or key event, and both end with the move still active and still
    owned by the stick that started it. *)
Theorem origin_exclusivity (s : Z) (st : state) (inputs inputs' : list (list float)) :
  inMove st = true -> motionStartIndex st = s ->
  Forall (fun axes => checkDeadzone axes s = false) inputs ->
  Forall2 (same_stick s) inputs inputs' ->
  exists st1 st2,
    run tick inputs st = Some (moves_events (gesture_moves s inputs), st1) /\
    run tick inputs' st = Some (moves_events (gesture_moves s inputs), st2) /\
    Forall is_move (moves_events (gesture_moves s inputs)) /\
    length (moves_events (gesture_moves s inputs)) = length inputs /\
    unwindAccumulator st1 = unwindAccumulator st2 /\
    (inMove st1 = true /\ motionStartIndex st1 = s) /\
    (inMove st2 = true /\ motionStartIndex st2 = s).
Proof.
  intros Hmv Hidx Hall Hsame.
  assert (Hall' : Forall (fun axes => checkDeadzone axes s = false) inputs').
  { clear Hmv Hidx. induction Hsame as [|a a' l l' Ha _ IH]; [constructor|].
    inversion Hall; subst. constructor; [|now apply IH].
    now rewrite <- (checkDeadzone_same_stick s a a' Ha). }
  destruct (run_steady s inputs st Hmv Hidx Hall) as (st1 & Hrun1 & Hacc1 & Hfin1).
  destruct (run_steady s inputs' st Hmv Hidx Hall') as (st2 & Hrun2 & Hacc2 & Hfin2).
  rewrite <- (gesture_moves_same_stick s inputs inputs' Hsame) in Hrun2, Hacc2.
  exists st1, st2. repeat split; try tauto.
  - apply moves_events_are_moves.
  - unfold moves_events, gesture_moves. now rewrite !length_map.
  - congruence.
Qed.

Lemma origin_exclusivity_witness :
  let st := set_gesture initial_state (0, 0) true 0 in
  let inputs := [pan_held; pan_held] in
  let inputs' := [ [F32.of_int 1; F32.zero; F32.of_int 1; F32.of_int (-1)];
                   [F32.of_int 1; F32.zero; F32.zero; F32.of_int 1] ] in
  exists st1 st2,
    run tick inputs st = Some (moves_events (gesture_moves 0 inputs), st1) /\
    run tick inputs' st = Some (moves_events (gesture_moves 0 inputs), st2) /\
    Forall is_move (moves_events (gesture_moves 0 inputs)) /\
    length (moves_events (gesture_moves 0 inputs)) = length inputs /\
    unwindAccumulator st1 = unwindAccumulator st2 /\
    (inMove st1 = true /\ motionStartIndex st1 = 0) /\
    (inMove st2 = true /\ motionStartIndex st2 = 0).
Proof.
  intros st inputs inputs'.
  apply (origin_exclusivity 0 st inputs inputs').
  - reflexivity.
  - reflexivity.
  - repeat constructor.
  - repeat constructor.
Defined.

(** *** The end of a move *)

(** C8: on a tick that finds a move active and its origin stick back in the
    dead zone, [sendMouse] releases all three mouse buttons, releases the
    stick's modifier key if it has one (the pan stick has none, the orbit
    stick has left shift), waits, then runs [doUnwind] to completion on the
    current accumulator; the accumulator is left at zero and the move is no
    longer active. The only pointer motion of the tick is the unwind's. *)
Theorem gesture_end_tick (st : state) :
  Int.in_range (fst (unwindAccumulator st)) ->
  Int.in_range (snd (unwindAccumulator st)) ->
  inMove st = true ->
  checkDeadzone (normalizedAxes st) (motionStartIndex st) = true ->
  exists mvs,
    doUnwind max_unwind_step (unwindAccumulator st) = Some (mvs, (0, 0)) /\
    sendMouse st =
      Some ([MouseButtons false false false]
              ++ setKeys (motionStartIndex st) false
              ++ [Delay 10]
              ++ moves_events mvs,
            set_gesture st (0, 0) false (motionStartIndex st)) /\
    setKeys 0 false = [] /\
    setKeys 2 false = [KeyRelease KEY_LEFT_SHIFT] /\
    displacement ([MouseButtons false false false]
                    ++ setKeys (motionStartIndex st) false
                    ++ [Delay 10]
                    ++ moves_events mvs) = sum_moves mvs.
Proof.
  intros Hx Hy Hmv Hdz.
  destruct (unwindAccumulator st) as [ax ay] eqn:Hacc. cbn [fst snd] in Hx, Hy.
  destruct (doUnwind_total max_unwind_step max_unwind_step_ok ax ay Hx Hy)
    as [mvs Hrun].
  exists mvs. split; [exact Hrun|]. split; [|split; [|split]].
  - unfold sendMouse. rewrite Hmv, Hdz. cbn [andb]. unfold stop_move.
    now rewrite Hacc, Hrun.
  - reflexivity.
  - reflexivity.
  - cbn [app displacement]. rewrite displacement_app, displacement_setKeys.
    cbn [app displacement fst snd]. rewrite displacement_moves.
    now destruct (sum_moves mvs).
Qed.

Lemma gesture_end_tick_witness :
  let st := set_gesture (with_axes initial_state at_rest) (250, -30) true 2 in
  exists mvs,
    doUnwind max_unwind_step (unwindAccumulator st) = Some (mvs, (0, 0)) /\
    sendMouse st =
      Some ([MouseButtons false false false]
              ++ setKeys (motionStartIndex st) false
              ++ [Delay 10]
              ++ moves_events mvs,
            set_gesture st (0, 0) false (motionStartIndex st)) /\
    setKeys 0 false = [] /\
    setKeys 2 false = [KeyRelease KEY_LEFT_SHIFT] /\
    displacement ([MouseButtons false false false]
                    ++ setKeys (motionStartIndex st) false
                    ++ [Delay 10]
                    ++ moves_events mvs) = sum_moves mvs.
Proof.
  intros st. apply (gesture_end_tick st).
  - vm_compute. split; discriminate.
  - vm_compute. split; discriminate.
  - reflexivity.
  - reflexivity.
Defined.

(** *** A whole gesture *)

(** A gesture from start to unwind: the start tick [a0], the steady ticks,
    and the tick [aend] on which the origin stick is back in its dead zone.
    Its trace moves the pointer by the sum of the per-tick moves plus the
    unwind of that sum as the accumulator holds it, wrapped to [int]s. *)
Lemma run_gesture (st : state) (s : Z) (a0 aend : list float)
  (steady : list (list float)) :
  inMove st = false ->
  starting_stick a0 = Some s ->
  Forall (fun axes => checkDeadzone axes s = false) steady ->
  checkDeadzone aend s = true ->
  exists mvs evs st',
    doUnwind max_unwind_step
      (Int.wrap (fst (sum_moves (gesture_moves s (a0 :: steady)))),
       Int.wrap (snd (sum_moves (gesture_moves s (a0 :: steady)))))
      = Some (mvs, (0, 0)) /\
    run tick (a0 :: steady ++ [aend]) st = Some (evs, st') /\
    inMove st' = false /\
    unwindAccumulator st' = (0, 0) /\
    displacement evs =
      (fst (sum_moves (gesture_moves s (a0 :: steady))) + fst (sum_moves mvs),
       snd (sum_moves (gesture_moves s (a0 :: steady))) + snd (sum_moves mvs)).
Proof.
  intros Hmv Hstart Hall Hend.
  pose proof (tick_start a0 st s Hmv Hstart) as Htick0.
  set (st0 := set_gesture (with_axes st a0)
                (Int.add 0 (fst (stick_move a0 s)), Int.add 0 (snd (stick_move a0 s)))
                true s) in *.
  destruct (run_steady s steady st0 eq_refl eq_refl Hall)
    as (st1 & Hrun1 & Hacc1 & Hmv1 & Hidx1).
  assert (Hacc : unwindAccumulator st1 =
                 (Int.wrap (fst (sum_moves (gesture_moves s (a0 :: steady)))),
                  Int.wrap (snd (sum_moves (gesture_moves s (a0 :: steady)))))).
  { rewrite Hacc1. subst st0. cbn [set_gesture unwindAccumulator].
    change (accumulate (Int.add 0 (fst (stick_move a0 s)),
                        Int.add 0 (snd (stick_move a0 s)))
              (gesture_moves s steady))
      with (accumulate (0, 0) (gesture_moves s (a0 :: steady))).
    rewrite accumulate_wrap
      by (cbn [fst snd]; unfold Int.in_range; rewrite int_min_val, int_max_val; lia).
    reflexivity. }
  destruct (doUnwind_total max_unwind_step max_unwind_step_ok _ _
              (wrap_in_range (fst (sum_moves (gesture_moves s (a0 :: steady)))))
              (wrap_in_range (snd (sum_moves (gesture_moves s (a0 :: steady))))))
    as [mvs Hunwind].
  assert (Hunwind1 : doUnwind max_unwind_step (unwindAccumulator st1) = Some (mvs, (0, 0)))
    by (rewrite Hacc; exact Hunwind).
  pose proof (tick_stop aend st1 s mvs (0, 0) Hmv1 Hidx1 Hend Hunwind1) as Htick2.
  assert (Hlast : run tick [aend] st1 =
                  Some (([MouseButtons false false false] ++ setKeys s false
                           ++ [Delay 10] ++ moves_events mvs) ++ [],
                        set_gesture (with_axes st1 aend) (0, 0) false s))
    by (cbn [run]; now rewrite Htick2).
  pose proof (run_app tick steady [aend] st0 st1 _ _ _ Hrun1 Hlast) as Hrest.
  exists mvs. eexists _, _. split; [exact Hunwind|]. split; [|split; [|split]].
  - cbn [run app]. rewrite Htick0. fold st0. rewrite Hrest. reflexivity.
  - reflexivity.
  - reflexivity.
  - rewrite !displacement_app, displacement_setKeys, displacement_setMouseButtons,
      !displacement_moves, displacement_setKeys.
    cbn [displacement gesture_moves map sum_moves fst snd].
    fold (gesture_moves s steady).
    destruct (stick_move a0 s) as [x0 y0]. cbn [fst snd].
    destruct (sum_moves (gesture_moves s steady)) as [sx sy]. cbn [fst snd].
    f_equal; ring.
Qed.

(** C2, amended: for every complete gesture (the start tick out of Idle, the
    steady ticks, and the tick that ends it, unwind included) whose net
    displacement, the sum of the moves sent before the unwind, is on each axis
    an [int] other than [int_min], the run returns to Idle and the cumulative
    pointer displacement of the whole trace is exactly zero on both axes. *)
Theorem gesture_displacement_zero (st : state) (s : Z) (a0 aend : list float)
  (steady : list (list float)) :
  inMove st = false ->
  starting_stick a0 = Some s ->
  Forall (fun axes => checkDeadzone axes s = false) steady ->
  checkDeadzone aend s = true ->
  negatable (fst (sum_moves (gesture_moves s (a0 :: steady)))) ->
  negatable (snd (sum_moves (gesture_moves s (a0 :: steady)))) ->
  exists evs st',
    run tick (a0 :: steady ++ [aend]) st = Some (evs, st') /\
    inMove st' = false /\
    displacement evs = (0, 0).
Proof.
  intros Hmv Hstart Hall Hend Nx Ny.
  destruct (run_gesture st s a0 aend steady Hmv Hstart Hall Hend)
    as (mvs & evs & st' & Hunwind & Hrun & Hidle & _ & Hdisp).
  exists evs, st'. split; [exact Hrun|]. split; [exact Hidle|].
  rewrite Hdisp.
  assert (Rx : Int.in_range (fst (sum_moves (gesture_moves s (a0 :: steady)))))
    by (unfold negatable, Int.in_range in *; lia).
  assert (Ry : Int.in_range (snd (sum_moves (gesture_moves s (a0 :: steady)))))
    by (unfold negatable, Int.in_range in *; lia).
  rewrite (wrap_small _ Rx), (wrap_small _ Ry) in Hunwind.
  destruct (doUnwind_sum max_unwind_step max_unwind_step_ok _ _ Nx Ny)
    as (mvs' & Hunwind' & Hsum).
  rewrite Hunwind in Hunwind'. inversion Hunwind'; subst mvs'.
  rewrite Hsum. cbn [fst snd]. f_equal; ring.
Qed.

Lemma gesture_displacement_zero_witness :
  exists evs st',
    run tick (pan_held :: [pan_held; pan_held] ++ [at_rest]) initial_state
      = Some (evs, st') /\
    inMove st' = false /\
    displacement evs = (0, 0).
Proof.
  apply (gesture_displacement_zero initial_state 0 pan_held at_rest [pan_held; pan_held]).
  - reflexivity.
  - reflexivity.
  - repeat constructor.
  - reflexivity.
  - vm_compute. split; [reflexivity|discriminate].
  - vm_compute. split; [reflexivity|discriminate].
Defined.

Lemma sum_moves_pan_held (n : nat) :
  sum_moves (gesture_moves 0 (repeat pan_held n)) = (-25 * Z.of_nat n, 0).
Proof.
  induction n as [|n IH]; [reflexivity|].
  cbn [repeat gesture_moves map sum_moves]. fold (gesture_moves 0 (repeat pan_held n)).
  rewrite IH. change (stick_move pan_held 0) with (-25, 0). cbn [fst snd].
  f_equal. lia.
Qed.

(** A gesture of [S n] ticks with the pan stick held fully over, then
    released, when [25 * S n] is [2^31 + 2]: the accumulator has wrapped
    around once, and the unwind restores the pointer [2^32] short. *)
Lemma long_gesture (n : nat) :
  Z.of_nat (S n) = 85899346 ->
  exists evs st',
    run tick (pan_held :: repeat pan_held n ++ [at_rest]) initial_state
      = Some (evs, st') /\
    inMove st' = false /\
    displacement evs = (-4294967296, 0).
Proof.
  intros Hn.
  assert (Hall : Forall (fun axes => checkDeadzone axes 0 = false) (repeat pan_held n)).
  { apply Forall_forall. intros a Ha. apply repeat_spec in Ha. now subst a. }
  destruct (run_gesture initial_state 0 pan_held at_rest (repeat pan_held n)
              eq_refl eq_refl Hall eq_refl)
    as (mvs & evs & st' & Hunwind & Hrun & Hidle & _ & Hdisp).
  exists evs, st'. split; [exact Hrun|]. split; [exact Hidle|].
  rewrite Hdisp. clear Hdisp Hrun.
  change (pan_held :: repeat pan_held n) with (repeat pan_held (S n)) in *.
  rewrite sum_moves_pan_held in *. rewrite Hn in *. cbn [fst snd] in *.
  change (Int.wrap (-25 * 85899346)) with 2147483646 in Hunwind.
  change (Int.wrap 0) with 0 in Hunwind.
  destruct (doUnwind_sum max_unwind_step max_unwind_step_ok 2147483646 0)
    as (mvs' & Hunwind' & Hsum).
  { int_range. }
  { int_range. }
  rewrite Hunwind in Hunwind'. inversion Hunwind'; subst mvs'.
  rewrite Hsum. reflexivity.
Qed.

(** C2, as stated, fails: a gesture that holds the pan stick fully over for
    85,899,346 ticks, each sending the move [(-25, 0)], and then releases it
    ends with the pointer [2^32] away from where it started. *)
Lemma long_gesture_not_unwound :
  exists evs st',
    run tick (pan_held :: repeat pan_held (Z.to_nat 85899345) ++ [at_rest]) initial_state
      = Some (evs, st') /\
    inMove st' = false /\
    displacement evs = (-4294967296, 0).
Proof.
  apply long_gesture. lia.
Qed.

(** ** The dead-zone classifier *)

Lemma compare_cont_refl (m : positive) : Pos.compare_cont Eq m m = Eq.
Proof. exact (Pos.compare_refl m). Qed.

Lemma compare_cont_antisym (m n : positive) :
  Pos.compare_cont Eq n m = CompOpp (Pos.compare_cont Eq m n).
Proof. exact (Pos.compare_antisym m n). Qed.

(** Comparison of floats is antisymmetric. *)
Lemma SFcompare_antisym (a b : float) :
  SFcompare b a = option_map CompOpp (SFcompare a b).
Proof.
  destruct a as [sa|sa| |sa ma ea], b as [sb|sb| |sb mb eb]; cbn;
    try reflexivity;
    try (destruct sa; reflexivity); try (destruct sb; reflexivity);
    try (destruct sa, sb; reflexivity).
  destruct sa, sb; try reflexivity;
    rewrite (Z.compare_antisym ea eb); destruct (ea ?= eb); cbn;
    try reflexivity; rewrite (compare_cont_antisym ma mb);
    destruct (Pos.compare_cont Eq ma mb); reflexivity.
Qed.

Lemma ltb_asym (a b : float) : F32.ltb a b = true -> F32.ltb b a = false.
Proof.
  unfold F32.ltb, SFltb. rewrite (SFcompare_antisym a b).
  destruct (SFcompare a b) as [[]|]; cbn; congruence.
Qed.

(** Negating both sides of a comparison swaps them. *)
Lemma SFcompare_opp (a b : float) :
  SFcompare (SFopp a) (SFopp b) = SFcompare b a.
Proof.
  rewrite (SFcompare_antisym a b).
  destruct a as [sa|sa| |sa ma ea], b as [sb|sb| |sb mb eb]; cbn;
    try reflexivity;
    try (destruct sa; reflexivity); try (destruct sb; reflexivity);
    try (destruct sa, sb; reflexivity).
  destruct sa, sb; cbn; try reflexivity;
    destruct (ea ?= eb); cbn; try reflexivity;
    destruct (Pos.compare_cont Eq ma mb); reflexivity.
Qed.

Lemma ltb_opp (a b : float) : F32.ltb (F32.neg a) (F32.neg b) = F32.ltb b a.
Proof. unfold F32.ltb, F32.neg, SFltb. now rewrite SFcompare_opp. Qed.

Lemma neg_involutive (a : float) : F32.neg (F32.neg a) = a.
Proof. destruct a as [s|s| |s m e]; cbn; try reflexivity; now rewrite negb_involutive. Qed.

(** A float below a float that is below zero is below every float above zero,
    and so on: what is needed of transitivity through zero. *)
Lemma ltb_through_zero (a b : float) :
  F32.ltb a F32.zero = true -> F32.ltb F32.zero b = true -> F32.ltb a b = true.
Proof.
  destruct a as [sa|sa| |sa ma ea], b as [sb|sb| |sb mb eb]; cbn;
    try discriminate; try (destruct sa; discriminate);
    try (destruct sb; discriminate);
    destruct sa, sb; cbn; try discriminate; reflexivity.
Qed.

Lemma ltb_zero_lt (a b : float) :
  F32.ltb F32.zero a = true -> F32.ltb a b = true -> F32.ltb F32.zero b = true.
Proof.
  destruct a as [sa|sa| |sa ma ea], b as [sb|sb| |sb mb eb]; cbn;
    try discriminate; try (destruct sa; discriminate);
    try (destruct sb; discriminate);
    destruct sa, sb; cbn; try discriminate; reflexivity.
Qed.

Lemma ltb_zero_opp (a : float) :
  F32.ltb F32.zero (F32.neg a) = F32.ltb a F32.zero.
Proof.
  destruct a as [sa|sa| |sa ma ea]; cbn; try reflexivity; destruct sa; reflexivity.
Qed.

(** [abs x < t] says that [x] lies strictly between [-t] and [t]. *)
Lemma abs_ltb (t x : float) :
  F32.ltb (F32.abs x) t = F32.ltb (F32.neg t) x && F32.ltb x t.
Proof.
  unfold F32.abs. destruct (F32.ltb F32.zero x) eqn:Hpos.
  - destruct (F32.ltb x t) eqn:Hlt; [|now rewrite andb_false_r].
    rewrite andb_true_r. symmetry.
    apply ltb_through_zero; [|exact Hpos].
    rewrite <- ltb_zero_opp, neg_involutive. exact (ltb_zero_lt x t Hpos Hlt).
  - rewrite <- (neg_involutive x) at 2. rewrite ltb_opp.
    destruct (F32.ltb (F32.neg x) t) eqn:Hlt; [|reflexivity].
    cbn [andb]. symmetry.
    destruct x as [sx|sx| |sx mx ex], t as [st|st| |st mt et]; cbn in *;
      try discriminate; try reflexivity;
      try (destruct sx; cbn in *; discriminate);
      try (destruct st; cbn in *; discriminate);
      destruct sx, st; cbn in *; try discriminate; reflexivity.
Qed.

Lemma leb_not_ltb (a b : float) : F32.leb a b = true -> F32.ltb b a = false.
Proof.
  unfold F32.leb, F32.ltb, SFleb, SFltb. rewrite (SFcompare_antisym a b).
  destruct (SFcompare a b) as [[]|]; cbn; congruence.
Qed.

(** C6, the failing input: a stick whose first axis is exactly at the
    threshold and whose second axis is at zero. Both axes are within
    [-deadzone .. deadzone] and neither is above the threshold, so the stick
    is to be inactive, by the claim and by the source's comment on [deadzone]
    (an axis value must be above it to be considered active); [checkDeadzone]
    finds it active, since [abs(x) < deadzone] is false at the threshold. The
    first axis, calibrated at center 521 with high 1021, takes that value when
    it reads 531. *)
Lemma threshold_itself_is_active :
  normalize_axis (F32.of_int 3, F32.of_int 521, F32.of_int 1021) 531 = F32.neg deadzone /\
  within deadzone (F32.neg deadzone) /\
  within deadzone F32.zero /\
  F32.ltb deadzone (F32.abs (F32.neg deadzone)) = false /\
  F32.ltb deadzone (F32.abs F32.zero) = false /\
  checkDeadzone [F32.neg deadzone; F32.zero; F32.zero; F32.zero] 0 = false.
Proof. repeat split; reflexivity. Qed.

(** C6: what the classifier decides. For every threshold and every pair of
    normalized axis values of a stick, the stick is found inactive exactly
    when both values lie strictly between [-threshold] and [threshold]; it is
    found active as soon as either value reaches the threshold on either
    side, a value equal to it included, which is where the code departs from
    the claim; and [checkDeadzone] is this test at the configured [deadzone]
    on the stick's two axes. *)
Theorem deadzone_classifier (threshold : float) (axes : list float) (s : Z) :
  let x := axis axes s in
  let y := axis axes (s + 1) in
  (in_deadzone threshold x y = true <->
     strictly_within threshold x /\ strictly_within threshold y) /\
  (reaches threshold x \/ reaches threshold y -> in_deadzone threshold x y = false) /\
  checkDeadzone axes s = in_deadzone deadzone x y.
Proof.
  intros x y. unfold in_deadzone, strictly_within. rewrite !abs_ltb.
  split; [|split].
  - rewrite !andb_true_iff. tauto.
  - intros [[Hx|Hx]|[Hy|Hy]].
    + now rewrite (leb_not_ltb _ _ Hx), andb_false_r.
    + now rewrite (leb_not_ltb _ _ Hx).
    + now rewrite (leb_not_ltb _ _ Hy), !andb_false_r.
    + now rewrite (leb_not_ltb _ _ Hy), andb_false_r.
  - unfold checkDeadzone. now rewrite !abs_ltb.
Qed.

(** ** Rounding to single precision *)

Lemma emin_val : emin F32.prec F32.emax = -149.
Proof. reflexivity. Qed.

Lemma fexp_val (e : Z) : fexp F32.prec F32.emax e = Z.max (e - 24) (-149).
Proof. reflexivity. Qed.

Lemma fexp_mono (a b : Z) :
  a <= b -> fexp F32.prec F32.emax a <= fexp F32.prec F32.emax b.
Proof. rewrite !fexp_val. lia. Qed.

(** [digits2_pos] counts the binary digits. *)
Lemma digits2_pos_size (m : positive) : digits2_pos m = Pos.size m.
Proof. induction m as [m IH|m IH|]; cbn; now rewrite ?IH. Qed.

Lemma digits_bounds (m : positive) :
  2 ^ (Zpos (digits2_pos m) - 1) <= Zpos m < 2 ^ Zpos (digits2_pos m).
Proof.
  rewrite digits2_pos_size. split.
  - pose proof (Pos.size_le m) as H.
    assert (H' : 2 ^ Zpos (Pos.size m) <= 2 * Zpos m).
    { change 2 with (Zpos 2) at 1. rewrite <- Pos2Z.inj_pow. lia. }
    replace (Zpos (Pos.size m)) with (Z.succ (Zpos (Pos.size m) - 1)) in H' by lia.
    rewrite Z.pow_succ_r in H' by lia. lia.
  - pose proof (Pos.size_gt m) as H.
    change 2 with (Zpos 2). rewrite <- Pos2Z.inj_pow. lia.
Qed.

Lemma Zdigits2_nonneg (m : Z) : 0 <= Zdigits2 m.
Proof. destruct m; cbn; lia. Qed.

Lemma Zdigits2_bounds (m : Z) :
  0 < m -> 2 ^ (Zdigits2 m - 1) <= m < 2 ^ Zdigits2 m.
Proof. destruct m as [|p|p]; try lia. intros _. exact (digits_bounds p). Qed.

(** The number of digits is determined by the power of two above. *)
Lemma Zdigits2_le_of_lt_pow (m d : Z) : 0 <= d -> 0 <= m < 2 ^ d -> Zdigits2 m <= d.
Proof.
  intros Hd [Hm0 Hm]. destruct (Z.eq_dec m 0) as [->|Hnz]; [cbn; lia|].
  destruct (Zdigits2_bounds m ltac:(lia)) as [Hlo _].
  destruct (Z.le_gt_cases (Zdigits2 m) d) as [|Hgt]; [assumption|exfalso].
  assert (2 ^ d <= 2 ^ (Zdigits2 m - 1)) by (apply Z.pow_le_mono_r; lia).
  lia.
Qed.

Lemma Zdigits2_ge_of_pow_le (m d : Z) : 2 ^ (d - 1) <= m -> 0 < m -> d <= Zdigits2 m.
Proof.
  intros Hlo Hm. destruct (Zdigits2_bounds m Hm) as [_ Hhi].
  destruct (Z.le_gt_cases d (Zdigits2 m)) as [|Hgt]; [assumption|exfalso].
  pose proof (Zdigits2_nonneg m).
  assert (2 ^ Zdigits2 m <= 2 ^ (d - 1)) by (apply Z.pow_le_mono_r; lia).
  lia.
Qed.

Lemma Zdigits2_mono (a b : Z) : 0 <= a <= b -> Zdigits2 a <= Zdigits2 b.
Proof.
  intros [Ha Hab]. destruct (Z.eq_dec b 0) as [->|Hb].
  - replace a with 0 by lia. lia.
  - apply Zdigits2_le_of_lt_pow; [apply Zdigits2_nonneg|].
    destruct (Zdigits2_bounds b ltac:(lia)). lia.
Qed.

Lemma Zdigits2_shift (m k : Z) :
  0 < m -> 0 <= k -> Zdigits2 (m * 2 ^ k) = Zdigits2 m + k.
Proof.
  intros Hm Hk. destruct (Zdigits2_bounds m Hm) as [Hlo Hhi].
  pose proof (Zdigits2_nonneg m) as Hd.
  assert (Hd1 : 1 <= Zdigits2 m).
  { destruct m; try lia. cbn. lia. }
  assert (Hp : 0 < 2 ^ k) by (apply Z.pow_pos_nonneg; lia).
  apply Z.le_antisymm.
  - apply Zdigits2_le_of_lt_pow; [lia|]. rewrite Z.pow_add_r by lia. nia.
  - apply Zdigits2_ge_of_pow_le; [|nia].
    replace (Zdigits2 m + k - 1) with (Zdigits2 m - 1 + k) by ring.
    rewrite Z.pow_add_r by lia. nia.
Qed.

(** *** Shifting right with sticky bits *)

Lemma shr_1_m (mrs : shr_record) :
  0 <= shr_m mrs -> shr_m (shr_1 mrs) = shr_m mrs / 2.
Proof.
  destruct mrs as [m r s]. cbn [shr_m]. intros Hm.
  destruct m as [|[p|p|]|p]; cbn [shr_1 shr_m]; try lia.
  - reflexivity.
  - rewrite Pos2Z.inj_xI.
    apply (Z.div_unique_pos _ 2 (Zpos p) 1); lia.
  - rewrite Pos2Z.inj_xO.
    apply (Z.div_unique_pos _ 2 (Zpos p) 0); lia.
  - reflexivity.
Qed.

Lemma shr_1_exact (mrs : shr_record) :
  0 <= shr_m mrs -> exact_record mrs -> shr_m mrs mod 2 = 0 ->
  exact_record (shr_1 mrs).
Proof.
  destruct mrs as [m r s]. unfold exact_record. cbn [shr_m shr_r shr_s].
  intros Hm [-> ->] Hev.
  destruct m as [|[p|p|]|p]; cbn [shr_1 shr_r shr_s orb]; try lia; try tauto.
  - rewrite Pos2Z.inj_xI in Hev.
    rewrite Z.add_comm, Z.mul_comm, Z.mod_add in Hev by lia. discriminate Hev.
  - discriminate Hev.
Qed.

Lemma iter_pos_shr (p : positive) :
  forall mrs, 0 <= shr_m mrs ->
    shr_m (iter_pos shr_1 p mrs) = shr_m mrs / 2 ^ Zpos p /\
    (exact_record mrs -> shr_m mrs mod 2 ^ Zpos p = 0 ->
     exact_record (iter_pos shr_1 p mrs)).
Proof.
  induction p as [p IH|p IH|]; intros mrs Hm.
  - (* 2p + 1 *)
    cbn [iter_pos]. rewrite Pos2Z.inj_xI.
    assert (Hp : 0 < 2 ^ Zpos p) by (apply Z.pow_pos_nonneg; lia).
    replace (2 ^ (2 * Zpos p + 1)) with (2 * (2 ^ Zpos p * 2 ^ Zpos p))
      by (rewrite Z.pow_add_r, <- Z.pow_add_r by lia;
          replace (Zpos p + Zpos p) with (2 * Zpos p) by ring; ring).
    assert (H1 : 0 <= shr_m (shr_1 mrs)).
    { rewrite shr_1_m by assumption. apply Z.div_pos; lia. }
    destruct (IH (shr_1 mrs) H1) as [Hm1 Hx1].
    assert (H2 : 0 <= shr_m (iter_pos shr_1 p (shr_1 mrs))).
    { rewrite Hm1. apply Z.div_pos; lia. }
    destruct (IH _ H2) as [Hm2 Hx2].
    split.
    + rewrite Hm2, Hm1, shr_1_m by assumption.
      rewrite !Z.div_div by lia. reflexivity.
    + intros Hex Hmod.
      assert (Hdiv : (2 * (2 ^ Zpos p * 2 ^ Zpos p) | shr_m mrs))
        by (apply Z.mod_divide; lia).
      destruct Hdiv as [q Hq].
      apply Hx2.
      * apply Hx1.
        -- apply shr_1_exact; auto. rewrite Hq.
           replace (q * (2 * (2 ^ Zpos p * 2 ^ Zpos p)))
             with ((q * (2 ^ Zpos p * 2 ^ Zpos p)) * 2) by ring.
           apply Z.mod_mul. lia.
        -- rewrite shr_1_m, Hq by assumption.
           replace (q * (2 * (2 ^ Zpos p * 2 ^ Zpos p)))
             with ((q * (2 ^ Zpos p * 2 ^ Zpos p)) * 2) by ring.
           rewrite Z.div_mul by lia.
           replace (q * (2 ^ Zpos p * 2 ^ Zpos p))
             with ((q * 2 ^ Zpos p) * 2 ^ Zpos p) by ring.
           apply Z.mod_mul. lia.
      * rewrite Hm1, shr_1_m, Hq by assumption.
        replace (q * (2 * (2 ^ Zpos p * 2 ^ Zpos p)))
          with ((q * (2 ^ Zpos p * 2 ^ Zpos p)) * 2) by ring.
        rewrite Z.div_mul by lia.
        replace (q * (2 ^ Zpos p * 2 ^ Zpos p))
          with ((q * 2 ^ Zpos p) * 2 ^ Zpos p) by ring.
        rewrite Z.div_mul by lia. apply Z.mod_mul. lia.
  - (* 2p *)
    cbn [iter_pos]. change (Zpos p~0) with (2 * Zpos p).
    assert (Hp : 0 < 2 ^ Zpos p) by (apply Z.pow_pos_nonneg; lia).
    replace (2 ^ (2 * Zpos p)) with (2 ^ Zpos p * 2 ^ Zpos p)
      by (rewrite <- Z.pow_add_r by lia; f_equal; ring).
    destruct (IH mrs Hm) as [Hm1 Hx1].
    assert (H2 : 0 <= shr_m (iter_pos shr_1 p mrs)).
    { rewrite Hm1. apply Z.div_pos; lia. }
    destruct (IH _ H2) as [Hm2 Hx2].
    split.
    + rewrite Hm2, Hm1. rewrite Z.div_div by lia. reflexivity.
    + intros Hex Hmod.
      assert (Hdiv : (2 ^ Zpos p * 2 ^ Zpos p | shr_m mrs))
        by (apply Z.mod_divide; lia).
      destruct Hdiv as [q Hq].
      apply Hx2.
      * apply Hx1; [assumption|]. rewrite Hq.
        replace (q * (2 ^ Zpos p * 2 ^ Zpos p))
          with ((q * 2 ^ Zpos p) * 2 ^ Zpos p) by ring.
        apply Z.mod_mul. lia.
      * rewrite Hm1, Hq.
        replace (q * (2 ^ Zpos p * 2 ^ Zpos p))
          with ((q * 2 ^ Zpos p) * 2 ^ Zpos p) by ring.
        rewrite Z.div_mul by lia. apply Z.mod_mul. lia.
  - (* 1 *)
    cbn [iter_pos]. change (2 ^ 1) with 2. split.
    + apply shr_1_m; assumption.
    + intros Hex Hmod. apply shr_1_exact; assumption.
Qed.

Lemma round_nearest_even_bounds (m : Z) (l : location) :
  m <= round_nearest_even m l <= m + inexact l.
Proof.
  destruct l as [|[]]; cbn [round_nearest_even inexact]; try lia.
  destruct (Z.even m); lia.
Qed.

Lemma loc_of_record_of_loc (m : Z) (l : location) :
  loc_of_shr_record (shr_record_of_loc m l) = l.
Proof. destruct l as [|[]]; reflexivity. Qed.

Lemma shr_m_record_of_loc (m : Z) (l : location) :
  shr_m (shr_record_of_loc m l) = m.
Proof. destruct l as [|[]]; reflexivity. Qed.

Lemma exact_record_loc (mrs : shr_record) :
  exact_record mrs -> loc_of_shr_record mrs = loc_Exact.
Proof. destruct mrs as [m r s]. intros [Hr Hs]. cbn in *. now subst. Qed.

(** [shr_fexp]: the mantissa is shifted right to the exponent the format
    gives it, when that is above its own. *)
Lemma shr_fexp_spec (m e : Z) (l : location) :
  0 <= m ->
  let k := fexp F32.prec F32.emax (Zdigits2 m + e) - e in
  let '(mrs, e') := shr_fexp F32.prec F32.emax m e l in
  (k <= 0 -> mrs = shr_record_of_loc m l /\ e' = e) /\
  (0 < k ->
     e' = e + k /\ shr_m mrs = m / 2 ^ k /\
     (l = loc_Exact -> m mod 2 ^ k = 0 -> exact_record mrs)).
Proof.
  intros Hm k. unfold shr_fexp, shr. fold k.
  destruct k as [|p|p] eqn:Hk.
  - split; [auto|lia].
  - split; [lia|]. intros _.
    destruct (iter_pos_shr p (shr_record_of_loc m l)) as [H1 H2].
    { now rewrite shr_m_record_of_loc. }
    rewrite shr_m_record_of_loc in H1, H2.
    split; [reflexivity|]. split; [exact H1|].
    intros -> Hmod. apply H2; [|assumption].
    split; reflexivity.
  - split; [auto|lia].
Qed.

(** *** Rounding never goes above a value of the format *)

Lemma div_pow2_le (m Y k : Z) :
  0 <= m -> 0 <= k -> m <= Y * 2 ^ k -> m / 2 ^ k <= Y.
Proof.
  intros Hm Hk Hle.
  assert (Hp : 0 < 2 ^ k) by (apply Z.pow_pos_nonneg; lia).
  apply Z.div_le_upper_bound; [assumption|]. lia.
Qed.

(** The exponent the format gives to a mantissa below [mb * 2^(eb - e)] is
    at most [eb]. *)
Lemma fexp_below (m e : Z) (mb : positive) (eb : Z) :
  representable mb eb -> e <= eb -> 0 <= m <= Zpos mb * 2 ^ (eb - e) ->
  fexp F32.prec F32.emax (Zdigits2 m + e) <= eb.
Proof.
  intros [Hcanon _] He Hm.
  apply Z.le_trans with (fexp F32.prec F32.emax (Zpos (digits2_pos mb) + eb)); [|lia].
  apply fexp_mono.
  pose proof (Zdigits2_mono m (Zpos mb * 2 ^ (eb - e)) Hm) as Hd.
  rewrite Zdigits2_shift in Hd by lia. cbn [Zdigits2] in Hd. lia.
Qed.

(** One shift-and-round stage of [binary_round_aux]. *)
Lemma round_stage (m e : Z) (l : location) (X eb : Z) :
  0 <= m -> e <= eb ->
  fexp F32.prec F32.emax (Zdigits2 m + e) <= eb ->
  m + inexact l <= X * 2 ^ (eb - e) ->
  let '(mrs, e') := shr_fexp F32.prec F32.emax m e l in
  e <= e' <= eb /\
  0 <= shr_m mrs <= round_nearest_even (shr_m mrs) (loc_of_shr_record mrs) /\
  round_nearest_even (shr_m mrs) (loc_of_shr_record mrs) <= X * 2 ^ (eb - e').
Proof.
  intros Hm He Hfexp Hle.
  pose proof (shr_fexp_spec m e l Hm) as Hspec. cbv zeta in Hspec.
  destruct (shr_fexp F32.prec F32.emax m e l) as [mrs e'].
  destruct Hspec as [Hnone Hshift].
  set (k := fexp F32.prec F32.emax (Zdigits2 m + e) - e) in *.
  destruct (Z.le_gt_cases k 0) as [Hk|Hk].
  - destruct (Hnone Hk) as [-> ->].
    rewrite shr_m_record_of_loc, loc_of_record_of_loc.
    pose proof (round_nearest_even_bounds m l). lia.
  - destruct (Hshift Hk) as (-> & Hm' & Hexact).
    assert (Hp : 0 < 2 ^ k) by (apply Z.pow_pos_nonneg; lia).
    assert (Hm0 : 0 <= shr_m mrs) by (rewrite Hm'; apply Z.div_pos; lia).
    pose proof (round_nearest_even_bounds (shr_m mrs) (loc_of_shr_record mrs)) as Hr.
    assert (Hsplit : X * 2 ^ (eb - e) = X * 2 ^ (eb - (e + k)) * 2 ^ k).
    { rewrite <- Z.mul_assoc, <- Z.pow_add_r by lia. do 2 f_equal. ring. }
    rewrite Hsplit in Hle.
    set (Y := X * 2 ^ (eb - (e + k))) in *.
    assert (HmY : shr_m mrs <= Y).
    { rewrite Hm'. apply div_pow2_le; try lia.
      destruct l; cbn [inexact] in Hle; lia. }
    split; [lia|]. split; [lia|].
    destruct (Z.eq_dec (shr_m mrs) Y) as [Heq|Hne].
    + (* the mantissa sits on the bound: nothing was shifted out *)
      pose proof (Z.div_mod m (2 ^ k) ltac:(lia)) as Hdm.
      pose proof (Z.mod_pos_bound m (2 ^ k) Hp) as Hmod.
      rewrite <- Hm', Heq in Hdm.
      assert (Hl : l = loc_Exact).
      { destruct l; [reflexivity|]. cbn [inexact] in Hle. nia. }
      assert (Hz : m mod 2 ^ k = 0).
      { subst l. cbn [inexact] in Hle. nia. }
      rewrite (exact_record_loc mrs (Hexact Hl Hz)).
      cbn [round_nearest_even]. lia.
    + destruct (loc_of_shr_record mrs); cbn [inexact] in Hr; lia.
Qed.

(** [binary_round_aux] on a value that is at most the representable
    [mb * 2^eb]: the result is a zero or finite, and at most that. *)
Lemma binary_round_aux_le (s : bool) (m e : Z) (l : location) (mb : positive) (eb : Z) :
  representable mb eb -> 0 <= m -> e <= eb ->
  m + inexact l <= Zpos mb * 2 ^ (eb - e) ->
  binary_round_aux F32.prec F32.emax s m e l = S754_zero s \/
  exists mr er,
    binary_round_aux F32.prec F32.emax s m e l = S754_finite s mr er /\
    er <= eb /\ Zpos mr <= Zpos mb * 2 ^ (eb - er).
Proof.
  intros Hrep Hm He Hle. unfold binary_round_aux.
  assert (Hfexp : fexp F32.prec F32.emax (Zdigits2 m + e) <= eb).
  { apply (fexp_below m e mb eb Hrep He). pose proof (round_nearest_even_bounds m l).
    destruct l; cbn [inexact] in Hle; lia. }
  pose proof (round_stage m e l (Zpos mb) eb Hm He Hfexp Hle) as H1.
  destruct (shr_fexp F32.prec F32.emax m e l) as [mrs' e'].
  destruct H1 as (He' & Hm1 & Hb1).
  set (m1 := round_nearest_even (shr_m mrs') (loc_of_shr_record mrs')) in *.
  assert (Hfexp1 : fexp F32.prec F32.emax (Zdigits2 m1 + e') <= eb).
  { apply (fexp_below m1 e' mb eb Hrep); lia. }
  pose proof (round_stage m1 e' loc_Exact (Zpos mb) eb ltac:(lia) ltac:(lia) Hfexp1
                ltac:(cbn [inexact]; lia)) as H2.
  destruct (shr_fexp F32.prec F32.emax m1 e' loc_Exact) as [mrs'' e''].
  destruct H2 as (He'' & Hm2 & Hb2).
  destruct (shr_m mrs'') as [|mr|mr] eqn:Hmr.
  - left. reflexivity.
  - right. exists mr, e''. destruct Hrep as [_ Hmax].
    replace (e'' <=? F32.emax - F32.prec) with true
      by (symmetry; apply Z.leb_le; change (F32.emax - F32.prec) with 104; lia).
    repeat split; lia.
  - lia.
Qed.

(** *** Rounding a non-zero value above the smallest exponent *)

Lemma iter_xO (m d : positive) : Zpos (Pos.iter xO m d) = Zpos m * 2 ^ Zpos d.
Proof.
  induction d as [|d IH] using Pos.peano_ind.
  - cbn [Pos.iter]. rewrite Pos2Z.inj_xO. change (2 ^ 1) with 2. ring.
  - rewrite Pos.iter_succ, Pos2Z.inj_xO, IH, Pos2Z.inj_succ, Z.pow_succ_r by lia. ring.
Qed.

Lemma shl_align_spec (m : positive) (e e' : Z) :
  let '(mz, ez) := shl_align m e e' in
  ez = Z.min e e' /\ Zpos mz = Zpos m * 2 ^ (e - ez).
Proof.
  unfold shl_align. destruct (e' - e) as [|d|d] eqn:Hd.
  - split; [lia|]. replace (e - e) with 0 by ring. cbn. lia.
  - split; [lia|]. replace (e - e) with 0 by ring. cbn. lia.
  - split; [lia|]. rewrite iter_xO. f_equal. f_equal. lia.
Qed.

Lemma shr_fexp_pos (m e : Z) (l : location) :
  0 < m -> -149 <= e ->
  let '(mrs, e') := shr_fexp F32.prec F32.emax m e l in
  0 < shr_m mrs /\ -149 <= e'.
Proof.
  intros Hm He.
  pose proof (shr_fexp_spec m e l ltac:(lia)) as Hspec. cbv zeta in Hspec.
  destruct (shr_fexp F32.prec F32.emax m e l) as [mrs e'].
  destruct Hspec as [Hnone Hshift].
  set (k := fexp F32.prec F32.emax (Zdigits2 m + e) - e) in *.
  destruct (Z.le_gt_cases k 0) as [Hk|Hk].
  - destruct (Hnone Hk) as [-> ->]. rewrite shr_m_record_of_loc. lia.
  - destruct (Hshift Hk) as (-> & Hm' & _). split; [|lia].
    rewrite Hm'. subst k. rewrite fexp_val in *.
    assert (Hkd : Z.max (Zdigits2 m + e - 24) (-149) - e = Zdigits2 m - 24) by lia.
    rewrite Hkd in *.
    destruct (Zdigits2_bounds m Hm) as [Hlo _].
    assert (Hp : 0 < 2 ^ (Zdigits2 m - 24)) by (apply Z.pow_pos_nonneg; lia).
    assert (H23 : 2 ^ 23 <= m / 2 ^ (Zdigits2 m - 24)).
    { apply Z.div_le_lower_bound; [assumption|].
      rewrite <- Z.pow_add_r by lia.
      replace (Zdigits2 m - 24 + 23) with (Zdigits2 m - 1) by ring. assumption. }
    assert (0 < 2 ^ 23) by reflexivity. lia.
Qed.

(** A non-zero mantissa at an exponent of the format never rounds to zero. *)
Lemma binary_round_nonzero (s : bool) (m : positive) (e : Z) :
  -149 <= e ->
  (exists mr er, binary_round F32.prec F32.emax s m e = S754_finite s mr er) \/
  binary_round F32.prec F32.emax s m e = S754_infinity s.
Proof.
  intros He. unfold binary_round.
  pose proof (shl_align_spec m e (fexp F32.prec F32.emax (Zpos (digits2_pos m) + e)))
    as Hal.
  destruct (shl_align m e (fexp F32.prec F32.emax (Zpos (digits2_pos m) + e)))
    as [mz ez].
  destruct Hal as [Hez Hmz].
  assert (Hez' : -149 <= ez) by (rewrite Hez, fexp_val; lia).
  unfold binary_round_aux.
  pose proof (shr_fexp_pos (Zpos mz) ez loc_Exact ltac:(lia) Hez') as H1.
  destruct (shr_fexp F32.prec F32.emax (Zpos mz) ez loc_Exact) as [mrs' e'].
  destruct H1 as [Hm1 He'].
  pose proof (round_nearest_even_bounds (shr_m mrs') (loc_of_shr_record mrs')) as Hr.
  pose proof (shr_fexp_pos (round_nearest_even (shr_m mrs') (loc_of_shr_record mrs'))
                e' loc_Exact ltac:(lia) He') as H2.
  destruct (shr_fexp F32.prec F32.emax
              (round_nearest_even (shr_m mrs') (loc_of_shr_record mrs')) e' loc_Exact)
    as [mrs'' e''].
  destruct H2 as [Hm2 _].
  destruct (shr_m mrs'') as [|mr|mr]; try lia.
  destruct (e'' <=? F32.emax - F32.prec); [left; eauto|right; reflexivity].
Qed.

Lemma binary_round_le (s : bool) (m : positive) (e : Z) (mb : positive) (eb : Z) :
  representable mb eb -> e <= eb ->
  Zpos m <= Zpos mb * 2 ^ (eb - e) ->
  binary_round F32.prec F32.emax s m e = S754_zero s \/
  exists mr er,
    binary_round F32.prec F32.emax s m e = S754_finite s mr er /\
    er <= eb /\ Zpos mr <= Zpos mb * 2 ^ (eb - er).
Proof.
  intros Hrep He Hle. unfold binary_round.
  pose proof (shl_align_spec m e (fexp F32.prec F32.emax (Zpos (digits2_pos m) + e)))
    as Hal.
  destruct (shl_align m e (fexp F32.prec F32.emax (Zpos (digits2_pos m) + e)))
    as [mz ez].
  destruct Hal as [Hez Hmz].
  apply (binary_round_aux_le s (Zpos mz) ez loc_Exact mb eb Hrep); try lia.
  cbn [inexact]. rewrite Z.add_0_r, Hmz.
  replace (eb - ez) with ((eb - e) + (e - ez)) by ring.
  rewrite Z.pow_add_r by lia.
  assert (0 < 2 ^ (e - ez)) by (apply Z.pow_pos_nonneg; lia).
  nia.
Qed.

(** ** Normalization at the calibrated center *)

Lemma ltb_irrefl (a : float) : F32.ltb a a = false.
Proof.
  destruct (F32.ltb a a) eqn:H; [|reflexivity].
  pose proof (ltb_asym a a H). congruence.
Qed.

(** Validity of a finite value, spelled out. *)
Lemma valid_finite (s : bool) (m : positive) (e : Z) :
  F32.valid (S754_finite s m e) = true ->
  fexp F32.prec F32.emax (Zpos (digits2_pos m) + e) = e /\ e <= 104.
Proof.
  unfold F32.valid, valid_binary, bounded, canonical_mantissa.
  rewrite andb_true_iff, Z.eqb_eq, Z.leb_le. tauto.
Qed.

(** Two values of the format with different mantissa or exponent differ once
    aligned on the smaller exponent. *)
Lemma canonical_distinct (m1 m2 : positive) (e1 e2 : Z) :
  fexp F32.prec F32.emax (Zpos (digits2_pos m1) + e1) = e1 ->
  fexp F32.prec F32.emax (Zpos (digits2_pos m2) + e2) = e2 ->
  (m1, e1) <> (m2, e2) ->
  Zpos m1 * 2 ^ (e1 - Z.min e1 e2) <> Zpos m2 * 2 ^ (e2 - Z.min e1 e2).
Proof.
  rewrite !fexp_val. intros H1 H2 Hne.
  destruct (digits_bounds m1) as [L1 U1]. destruct (digits_bounds m2) as [L2 U2].
  destruct (Z.lt_trichotomy e1 e2) as [Hlt|[Heq|Hgt]].
  - replace (Z.min e1 e2) with e1 by lia. replace (e1 - e1) with 0 by ring.
    assert (Hd2 : Zpos (digits2_pos m2) = 24) by lia.
    assert (Hd1 : Zpos (digits2_pos m1) <= 24) by lia.
    rewrite Hd2 in L2. change (2 ^ (24 - 1)) with 8388608 in L2.
    assert (U1' : Zpos m1 < 2 ^ 24).
    { eapply Z.lt_le_trans; [exact U1|]. apply Z.pow_le_mono_r; lia. }
    change (2 ^ 24) with 16777216 in U1'.
    assert (Hp : 2 ^ 1 <= 2 ^ (e2 - e1)) by (apply Z.pow_le_mono_r; lia).
    change (2 ^ 1) with 2 in Hp. change (2 ^ 0) with 1. nia.
  - subst e2. replace (Z.min e1 e1) with e1 by lia. replace (e1 - e1) with 0 by ring.
    change (2 ^ 0) with 1. intros H. apply Hne. f_equal. lia.
  - replace (Z.min e1 e2) with e2 by lia. replace (e2 - e2) with 0 by ring.
    assert (Hd1 : Zpos (digits2_pos m1) = 24) by lia.
    assert (Hd2 : Zpos (digits2_pos m2) <= 24) by lia.
    rewrite Hd1 in L1. change (2 ^ (24 - 1)) with 8388608 in L1.
    assert (U2' : Zpos m2 < 2 ^ 24).
    { eapply Z.lt_le_trans; [exact U2|]. apply Z.pow_le_mono_r; lia. }
    change (2 ^ 24) with 16777216 in U2'.
    assert (Hp : 2 ^ 1 <= 2 ^ (e1 - e2)) by (apply Z.pow_le_mono_r; lia).
    change (2 ^ 1) with 2 in Hp. change (2 ^ 0) with 1. nia.
Qed.

Lemma shl_align_fst (m : positive) (e1 e2 : Z) :
  Zpos (fst (shl_align m e1 (Z.min e1 e2))) = Zpos m * 2 ^ (e1 - Z.min e1 e2).
Proof.
  pose proof (shl_align_spec m e1 (Z.min e1 e2)) as H.
  destruct (shl_align m e1 (Z.min e1 e2)) as [mz ez]. destruct H as [Hez Hmz].
  cbn [fst]. rewrite Hmz, Hez. do 2 f_equal. lia.
Qed.

Lemma shl_align_fst' (m : positive) (e1 e2 : Z) :
  Zpos (fst (shl_align m e2 (Z.min e1 e2))) = Zpos m * 2 ^ (e2 - Z.min e1 e2).
Proof. rewrite (Z.min_comm e1 e2). apply shl_align_fst. Qed.

(** The difference of two distinct values of the format is not zero. *)
Lemma sub_is_divisor (high center : float) :
  F32.valid high = true -> F32.valid center = true ->
  is_number center = true ->
  F32.ltb center high = true ->
  is_divisor (F32.sub high center) = true.
Proof.
  intros Vh Vc Nc Hlt.
  destruct center as [sc|sc| |sc mc ec]; try discriminate Nc;
    destruct high as [sh|sh| |sh mh eh]; try discriminate Hlt; try reflexivity.
  (* both finite *)
  - destruct (valid_finite _ _ _ Vh) as [Ch _].
    destruct (valid_finite _ _ _ Vc) as [Cc _].
    assert (Hne : (mh, eh) <> (mc, ec) \/ sh <> sc).
    { destruct (Bool.bool_dec sh sc) as [->|]; [left|now right].
      intros Heq. inversion Heq; subst. now rewrite ltb_irrefl in Hlt. }
    unfold F32.sub, SFsub.
    set (D := cond_Zopp sh (Zpos (fst (shl_align mh eh (Z.min eh ec))))
              - cond_Zopp sc (Zpos (fst (shl_align mc ec (Z.min eh ec))))).
    assert (HD : D <> 0).
    { subst D. rewrite shl_align_fst, shl_align_fst'.
      assert (0 < 2 ^ (eh - Z.min eh ec)) by (apply Z.pow_pos_nonneg; lia).
      assert (0 < 2 ^ (ec - Z.min eh ec)) by (apply Z.pow_pos_nonneg; lia).
      destruct Hne as [Hne|Hne].
      - pose proof (canonical_distinct mh mc eh ec Ch Cc Hne).
        destruct sh, sc; cbn [cond_Zopp]; nia.
      - destruct sh, sc; try congruence; cbn [cond_Zopp]; nia. }
    assert (Hez : -149 <= Z.min eh ec) by (rewrite fexp_val in Ch, Cc; lia).
    unfold binary_normalize. destruct D as [|d|d]; [congruence| |].
    + destruct (binary_round_nonzero false d (Z.min eh ec) Hez) as [(mr & er & ->)| ->];
        reflexivity.
    + destruct (binary_round_nonzero true d (Z.min eh ec) Hez) as [(mr & er & ->)| ->];
        reflexivity.
Qed.

Lemma sub_self (c : float) : is_number c = true -> F32.sub c c = S754_zero false.
Proof.
  destruct c as [s|s| |s m e]; try discriminate; intros _.
  - destruct s; reflexivity.
  - unfold F32.sub, SFsub. now rewrite Z.sub_diag.
Qed.

Lemma div_zero (r : float) :
  is_divisor r = true -> F32.is_zero (F32.div (S754_zero false) r) = true.
Proof. destruct r; try discriminate; reflexivity. Qed.

Lemma is_zero_neg (x : float) : F32.is_zero (F32.neg x) = F32.is_zero x.
Proof. destruct x; reflexivity. Qed.

Lemma is_zero_eqb (x : float) : F32.is_zero x = true -> F32.eqb x F32.zero = true.
Proof. destruct x; try discriminate; reflexivity. Qed.

(** Between two floats there are only numbers. *)
Lemma between_is_number (low center high : float) :
  F32.ltb low center = true -> F32.ltb center high = true -> is_number center = true.
Proof.
  intros Hl Hh.
  destruct center as [sc|sc| |sc mc ec]; try reflexivity.
  - destruct sc.
    + destruct low as [s|s| |s m e]; try discriminate Hl; destruct s; discriminate Hl.
    + destruct high as [s|s| |s m e]; try discriminate Hh; destruct s; discriminate Hh.
  - destruct low; discriminate Hl.
Qed.

Lemma normalize_axis_at_center (low center high : float) (raw : Z) :
  F32.valid center = true -> F32.valid high = true ->
  F32.ltb low center = true -> F32.ltb center high = true ->
  F32.of_int raw = center ->
  F32.is_zero (normalize_axis (low, center, high) raw) = true.
Proof.
  intros Vc Vh Hl Hh Hraw.
  pose proof (between_is_number low center high Hl Hh) as Nc.
  unfold normalize_axis. rewrite Hraw, ltb_irrefl, is_zero_neg.
  unfold normalize. rewrite (sub_self center Nc).
  apply div_zero. apply sub_is_divisor; assumption.
Qed.

(** ** Joystick reports *)

Lemma one_val : F32.of_int 1 = S754_finite false 8388608 (-23).
Proof. reflexivity. Qed.

Lemma minus_one_val : F32.of_int (-1) = S754_finite true 8388608 (-23).
Proof. reflexivity. Qed.

Lemma two_val : F32.of_int 2 = S754_finite false 8388608 (-22).
Proof. reflexivity. Qed.

Lemma f1023_val : F32.of_int 1023 = S754_finite false 16760832 (-14).
Proof. reflexivity. Qed.

Lemma pow2_23 : 2 ^ 23 = 8388608.
Proof. reflexivity. Qed.

Lemma compare_cont_le (a b : positive) :
  Pos.compare_cont Eq a b <> Gt -> Zpos a <= Zpos b.
Proof. intros H. exact H. Qed.

Lemma compare_cont_ge (a b : positive) :
  Pos.compare_cont Eq a b <> Lt -> Zpos b <= Zpos a.
Proof.
  intros H. apply compare_cont_le. rewrite compare_cont_antisym.
  destruct (Pos.compare_cont Eq a b); cbn; congruence.
Qed.

(** A valid finite float between -1 and 1: its exponent and mantissa. *)
Lemma unit_interval_bounds (s : bool) (m : positive) (e : Z) :
  F32.valid (S754_finite s m e) = true ->
  F32.leb (F32.of_int (-1)) (S754_finite s m e) = true ->
  F32.leb (S754_finite s m e) (F32.of_int 1) = true ->
  e <= -23 /\ Zpos m <= 2 ^ (- e).
Proof.
  intros V Hlo Hhi. destruct (valid_finite _ _ _ V) as [C _].
  rewrite fexp_val in C. destruct (digits_bounds m) as [_ Um].
  assert (Hsmall : e < -23 -> Zpos m <= 2 ^ (- e)).
  { intros He. assert (Hd : Zpos (digits2_pos m) <= 24) by lia.
    assert (2 ^ Zpos (digits2_pos m) <= 2 ^ (- e)) by (apply Z.pow_le_mono_r; lia).
    lia. }
  rewrite one_val in Hhi. rewrite minus_one_val in Hlo.
  unfold F32.leb, SFleb, SFcompare in Hlo, Hhi.
  destruct s.
  - clear Hhi. destruct (Z.compare_spec (-23) e) as [He|He|He]; try discriminate Hlo.
    + subst e. split; [lia|]. change (2 ^ (- -23)) with 8388608.
      apply (compare_cont_ge 8388608 m). intros Hc. rewrite Hc in Hlo. discriminate Hlo.
    + split; [lia|]. apply Hsmall. lia.
  - clear Hlo. destruct (Z.compare_spec e (-23)) as [He|He|He]; try discriminate Hhi.
    + subst e. split; [lia|]. change (2 ^ (- -23)) with 8388608.
      apply (compare_cont_le m 8388608). intros Hc. rewrite Hc in Hhi. discriminate Hhi.
    + split; [lia|]. apply Hsmall. lia.
Qed.

Lemma representable_two : representable 8388608 (-22).
Proof. split; [reflexivity|lia]. Qed.

Lemma representable_one : representable 8388608 (-23).
Proof. split; [reflexivity|lia]. Qed.

Lemma representable_1023 : representable 16760832 (-14).
Proof. split; [reflexivity|lia]. Qed.

(** [val + 1.f] for [val] between -1 and 1 lies between 0 and 2. *)
Lemma add_one_at_most_two (v : float) :
  F32.valid v = true ->
  F32.leb (F32.of_int (-1)) v = true -> F32.leb v (F32.of_int 1) = true ->
  at_most 8388608 (-22) (F32.add v (F32.of_int 1)).
Proof.
  intros V Hlo Hhi. rewrite one_val.
  destruct v as [s|s| |s m e].
  - right. exists 8388608%positive, (-23). cbn. repeat split; lia.
  - destruct s; [discriminate Hlo|discriminate Hhi].
  - discriminate Hlo.
  - destruct (unit_interval_bounds s m e V Hlo Hhi) as [He Hm].
    unfold F32.add, SFadd.
    replace (Z.min e (-23)) with e by lia.
    pose proof (shl_align_fst m e (-23)) as H1.
    pose proof (shl_align_fst' 8388608 e (-23)) as H2.
    replace (Z.min e (-23)) with e in H1, H2 by lia.
    rewrite H1, H2. replace (e - e) with 0 by ring.
    change (2 ^ 0) with 1. rewrite Z.mul_1_r. cbn [cond_Zopp].
    assert (Hpow : 8388608 * 2 ^ (-23 - e) = 2 ^ (- e)).
    { rewrite <- pow2_23, <- Z.pow_add_r by lia. f_equal. ring. }
    rewrite Hpow.
    assert (Hp : 0 < 2 ^ (- e)) by (apply Z.pow_pos_nonneg; lia).
    destruct (cond_Zopp s (Zpos m) + 2 ^ (- e)) as [|p|p] eqn:HM.
    + left. reflexivity.
    + cbn [binary_normalize].
      destruct (binary_round_le false p e 8388608 (-22) representable_two ltac:(lia))
        as [Hz|Hf].
      * assert (Hpow2 : 8388608 * 2 ^ (-22 - e) = 2 * 2 ^ (- e)).
        { rewrite <- pow2_23, <- Z.pow_add_r by lia.
          replace (23 + (-22 - e)) with (Z.succ (- e)) by ring.
          rewrite Z.pow_succ_r by lia. reflexivity. }
        rewrite Hpow2. destruct s; cbn [cond_Zopp] in HM; lia.
      * left. exact Hz.
      * right. exact Hf.
    + exfalso. destruct s; cbn [cond_Zopp] in HM; lia.
Qed.

Lemma div_eucl_div_mod (a b : Z) : Z.div_eucl a b = (a / b, a mod b).
Proof. unfold Z.div, Z.modulo. now destruct (Z.div_eucl a b). Qed.

Lemma shift_for_division (m s : Z) :
  0 <= s ->
  match s with Zpos _ => Z.shiftl m s | Z0 => m | Zneg _ => 0 end = m * 2 ^ s.
Proof.
  intros Hs. destruct s as [|p|p].
  - change (2 ^ 0) with 1. lia.
  - apply Z.shiftl_mul_pow2. lia.
  - lia.
Qed.

(** The quotient the division by [2.f] hands to rounding. *)
Lemma div_core_two (m1 : positive) (e1 : Z) :
  e1 <= -22 -> Zpos m1 <= 8388608 * 2 ^ (-22 - e1) ->
  let '(q, e', l) :=
    SFdiv_core_binary F32.prec F32.emax (Zpos m1) e1 8388608 (-22) in
  0 <= q /\ e' <= -23 /\ q + inexact l <= 8388608 * 2 ^ (-23 - e').
Proof.
  intros He Hm. unfold SFdiv_core_binary.
  change (Zdigits2 8388608) with 24.
  set (d1 := Zdigits2 (Zpos m1)).
  assert (Hd1 : d1 + e1 <= 2).
  { assert (d1 <= 2 - e1); [|lia]. apply Zdigits2_le_of_lt_pow; [lia|].
    split; [lia|]. eapply Z.le_lt_trans; [exact Hm|].
    rewrite <- pow2_23, <- Z.pow_add_r by lia.
    apply Z.pow_lt_mono_r; lia. }
  set (e' := Z.min (fexp F32.prec F32.emax (d1 + e1 - (24 + -22))) (e1 - -22)).
  assert (He' : e' <= -24).
  { subst e'. rewrite fexp_val. lia. }
  assert (Hs : 0 <= e1 - -22 - e') by (subst e'; lia).
  rewrite (shift_for_division (Zpos m1) (e1 - -22 - e') Hs).
  rewrite div_eucl_div_mod.
  set (m' := Zpos m1 * 2 ^ (e1 - -22 - e')).
  change (new_location 8388608 (m' mod 8388608))
    with (new_location_even 8388608 (m' mod 8388608)).
  unfold new_location_even.
  assert (Hm' : m' <= 8388608 * 2 ^ (- e')).
  { subst m'.
    assert (Hsplit : 8388608 * 2 ^ (- e') = 8388608 * 2 ^ (-22 - e1) * 2 ^ (e1 - -22 - e')).
    { rewrite <- Z.mul_assoc, <- Z.pow_add_r by lia. do 2 f_equal. ring. }
    rewrite Hsplit.
    apply Z.mul_le_mono_nonneg_r; [apply Z.pow_nonneg; lia|exact Hm]. }
  assert (Hm0 : 0 <= m').
  { subst m'. apply Z.mul_nonneg_nonneg; [lia|apply Z.pow_nonneg; lia]. }
  assert (Hb : 8388608 * 2 ^ (-23 - e') = 2 ^ (- e')).
  { rewrite <- pow2_23, <- Z.pow_add_r by lia. f_equal. ring. }
  rewrite Hb.
  pose proof (Z.div_mod m' 8388608 ltac:(lia)) as Hdm.
  pose proof (Z.mod_pos_bound m' 8388608 ltac:(lia)) as Hmod.
  assert (Hq0 : 0 <= m' / 8388608) by (apply Z.div_pos; lia).
  split; [exact Hq0|]. split; [lia|].
  destruct (Z.eqb_spec (m' mod 8388608) 0) as [Hz|Hnz]; cbn [inexact]; nia.
Qed.

(** Halving a value of at most 2 gives a value of at most 1. *)
Lemma div_two_at_most_one (x : float) :
  at_most 8388608 (-22) x -> at_most 8388608 (-23) (F32.div x (F32.of_int 2)).
Proof.
  intros [->|(m1 & e1 & -> & He & Hm)]; [left; reflexivity|].
  rewrite two_val. unfold F32.div, SFdiv.
  pose proof (div_core_two m1 e1 He Hm) as Hcore.
  destruct (SFdiv_core_binary F32.prec F32.emax (Zpos m1) e1 8388608 (-22))
    as [[q e'] l].
  destruct Hcore as (Hq & He' & Hle).
  exact (binary_round_aux_le false q e' l 8388608 (-23) representable_one Hq He' Hle).
Qed.

(** A value of at most 1 times [1023] is at most 1023. *)
Lemma mul_1023_at_most (x : float) :
  at_most 8388608 (-23) x -> at_most 16760832 (-14) (F32.mul x (F32.of_int 1023)).
Proof.
  intros [->|(m2 & e2 & -> & He & Hm)]; [left; reflexivity|].
  rewrite f1023_val. unfold F32.mul, SFmul. cbn [xorb].
  apply (binary_round_aux_le false (Zpos (m2 * 16760832)) (e2 + -14) loc_Exact
           16760832 (-14) representable_1023); try lia.
  cbn [inexact]. rewrite Z.add_0_r, Pos2Z.inj_mul.
  replace (-14 - (e2 + -14)) with (- e2) by ring.
  assert (Hb : 8388608 * 2 ^ (-23 - e2) = 2 ^ (- e2)).
  { rewrite <- pow2_23, <- Z.pow_add_r by lia. f_equal. ring. }
  rewrite Hb in Hm. nia.
Qed.

(** The integral part of a value of at most 1023. *)
Lemma to_uint_at_most_1023 (x : float) :
  at_most 16760832 (-14) x -> 0 <= F32.to_uint x <= 1023.
Proof.
  intros [->|(m & e & -> & He & Hm)]; [cbn; lia|].
  unfold F32.to_uint, F32.trunc. cbn [cond_Zopp].
  rewrite Z.shiftl_div_pow2 by lia.
  assert (Hp : 0 < 2 ^ (- e)) by (apply Z.pow_pos_nonneg; lia).
  assert (Hq0 : 0 <= Zpos m / 2 ^ (- e)) by (apply Z.div_pos; lia).
  assert (Hq : Zpos m / 2 ^ (- e) <= 1023).
  { apply div_pow2_le; try lia.
    assert (Hb : 16760832 * 2 ^ (-14 - e) = 1023 * 2 ^ (- e)).
    { change 16760832 with (1023 * 2 ^ 14).
      rewrite <- Z.mul_assoc, <- Z.pow_add_r by lia. do 2 f_equal. ring. }
    lia. }
  change Int.uint_max with 4294967295. lia.
Qed.

Lemma to_joy_range (v : float) :
  F32.valid v = true ->
  F32.leb (F32.of_int (-1)) v = true -> F32.leb v (F32.of_int 1) = true ->
  0 <= to_joy v <= 1023.
Proof.
  intros V Hlo Hhi. unfold to_joy.
  apply to_uint_at_most_1023, mul_1023_at_most, div_two_at_most_one,
    add_one_at_most_two; assumption.
Qed.

(** *** Rounding gives a value of the format *)

Lemma valid_of_canonical (s : bool) (m : positive) (e : Z) :
  fexp F32.prec F32.emax (Zpos (digits2_pos m) + e) = e ->
  F32.valid (if e <=? F32.emax - F32.prec then S754_finite s m e else S754_infinity s)
  = true.
Proof.
  intros Hc. destruct (Z.leb_spec e (F32.emax - F32.prec)) as [He|He]; [|reflexivity].
  unfold F32.valid, valid_binary, bounded, canonical_mantissa.
  rewrite Hc, Z.eqb_refl. cbn [andb]. apply Z.leb_le. exact He.
Qed.

(** The last step of [binary_round_aux] on a mantissa that already has the
    exponent the format gives it. *)
Lemma finish_canonical (s : bool) (m1 e' : Z) :
  0 <= m1 ->
  fexp F32.prec F32.emax (Zdigits2 m1 + e') = e' ->
  F32.valid
    (let '(mrs, e'') := shr_fexp F32.prec F32.emax m1 e' loc_Exact in
     match shr_m mrs with
     | Z0 => S754_zero s
     | Zpos m => if e'' <=? F32.emax - F32.prec then S754_finite s m e''
                 else S754_infinity s
     | Zneg _ => S754_nan
     end) = true.
Proof.
  intros Hm Hc.
  pose proof (shr_fexp_spec m1 e' loc_Exact Hm) as Hspec. cbv zeta in Hspec.
  destruct (shr_fexp F32.prec F32.emax m1 e' loc_Exact) as [mrs e''].
  destruct Hspec as [Hnone _].
  destruct (Hnone ltac:(lia)) as [-> ->]. cbn [shr_record_of_loc shr_m].
  destruct m1 as [|p|p]; [reflexivity| |lia].
  apply valid_of_canonical. exact Hc.
Qed.

(** The same step when rounding up has carried into a 25th digit. *)
Lemma finish_carry (s : bool) (e' : Z) :
  -149 <= e' ->
  F32.valid
    (let '(mrs, e'') := shr_fexp F32.prec F32.emax (2 ^ 24) e' loc_Exact in
     match shr_m mrs with
     | Z0 => S754_zero s
     | Zpos m => if e'' <=? F32.emax - F32.prec then S754_finite s m e''
                 else S754_infinity s
     | Zneg _ => S754_nan
     end) = true.
Proof.
  intros He.
  pose proof (shr_fexp_spec (2 ^ 24) e' loc_Exact ltac:(lia)) as Hspec.
  cbv zeta in Hspec.
  destruct (shr_fexp F32.prec F32.emax (2 ^ 24) e' loc_Exact) as [mrs e''].
  destruct Hspec as [_ Hshift].
  change (Zdigits2 (2 ^ 24)) with 25 in Hshift. rewrite fexp_val in Hshift.
  replace (Z.max (25 + e' - 24) (-149) - e') with 1 in Hshift by lia.
  destruct (Hshift ltac:(lia)) as (-> & -> & _).
  change (2 ^ 24 / 2 ^ 1) with 8388608.
  apply valid_of_canonical. rewrite fexp_val. cbn [digits2_pos Pos.succ]. lia.
Qed.

(** Every float that rounding produces is a value of the format. *)
Lemma binary_round_valid (s : bool) (m : positive) (e : Z) :
  F32.valid (binary_round F32.prec F32.emax s m e) = true.
Proof.
  unfold binary_round.
  set (t := fexp F32.prec F32.emax (Zpos (digits2_pos m) + e)).
  pose proof (shl_align_spec m e t) as Hal.
  destruct (shl_align m e t) as [mz ez]. destruct Hal as [Hez Hmz].
  assert (Hdig : Zdigits2 (Zpos mz) + ez = Zpos (digits2_pos m) + e).
  { rewrite Hmz, Zdigits2_shift by lia. cbn [Zdigits2]. ring. }
  unfold binary_round_aux.
  pose proof (shr_fexp_spec (Zpos mz) ez loc_Exact ltac:(lia)) as Hspec.
  cbv zeta in Hspec. rewrite Hdig in Hspec. fold t in Hspec.
  destruct (shr_fexp F32.prec F32.emax (Zpos mz) ez loc_Exact) as [mrs' e'].
  destruct Hspec as [Hnone Hshift].
  destruct (Z.le_gt_cases t e) as [Hte|Hte].
  - (* the mantissa is shifted left, or stays: nothing is rounded *)
    destruct (Hnone ltac:(lia)) as [-> ->].
    cbn [shr_record_of_loc shr_m loc_of_shr_record round_nearest_even].
    apply finish_canonical; [lia|]. rewrite Hdig. fold t. lia.
  - (* the mantissa is shifted right by [t - e] digits *)
    assert (Hmzm : Zpos mz = Zpos m).
    { rewrite Hmz. replace (e - ez) with 0 by lia. change (2 ^ 0) with 1. lia. }
    rewrite Hmzm in *. replace ez with e in * by lia.
    destruct (Hshift ltac:(lia)) as (-> & Hm' & _).
    replace (e + (t - e)) with t by ring.
    set (k := t - e) in *.
    assert (Hk : 0 < k) by (subst k; lia).
    assert (Hp : 0 < 2 ^ k) by (apply Z.pow_pos_nonneg; lia).
    destruct (digits_bounds m) as [Lm Um].
    set (d := Zpos (digits2_pos m)) in *.
    assert (Hd : 1 <= d) by (subst d; lia).
    pose proof (round_nearest_even_bounds (shr_m mrs') (loc_of_shr_record mrs')) as Hr.
    assert (Hinex : inexact (loc_of_shr_record mrs') <= 1)
      by (destruct (loc_of_shr_record mrs'); cbn; lia).
    set (m1 := round_nearest_even (shr_m mrs') (loc_of_shr_record mrs')) in *.
    assert (Hm0 : 0 <= shr_m mrs') by (rewrite Hm'; apply Z.div_pos; lia).
    unfold t in Hte, k. rewrite fexp_val in *. fold d in Hte, k.
    destruct (Z.le_gt_cases (-149) (d + e - 24)) as [Hnorm|Hsub].
    + (* a normal result: 24 digits are kept *)
      assert (Hkd : k = d - 24) by (subst k t; rewrite fexp_val; fold d; lia).
      assert (Ht : t = d + e - 24) by (subst t; rewrite fexp_val; fold d; lia).
      assert (Hlo : 2 ^ 23 <= shr_m mrs').
      { rewrite Hm', Hkd. apply Z.div_le_lower_bound; [rewrite <- Hkd; lia|].
        rewrite <- Z.pow_add_r by lia.
        replace (d - 24 + 23) with (d - 1) by ring. exact Lm. }
      assert (Hhi : shr_m mrs' < 2 ^ 24).
      { rewrite Hm', Hkd. apply Z.div_lt_upper_bound; [rewrite <- Hkd; lia|].
        rewrite <- Z.pow_add_r by lia.
        replace (d - 24 + 24) with d by ring. exact Um. }
      destruct (Z.eq_dec m1 (2 ^ 24)) as [Hcarry|Hnocarry].
      * rewrite Hcarry. apply finish_carry. lia.
      * apply finish_canonical; [lia|].
        assert (Hd1 : Zdigits2 m1 = 24).
        { apply Z.le_antisymm.
          - apply Zdigits2_le_of_lt_pow; lia.
          - apply Zdigits2_ge_of_pow_le; change (2 ^ (24 - 1)) with (2 ^ 23); lia. }
        rewrite Hd1, fexp_val. lia.
    + (* a subnormal result *)
      assert (Ht : t = -149) by (subst t; rewrite fexp_val; fold d; lia).
      assert (Hhi : shr_m mrs' < 2 ^ 23).
      { rewrite Hm'. apply Z.div_lt_upper_bound; [lia|].
        eapply Z.lt_le_trans; [exact Um|].
        destruct (Z.le_gt_cases d k) as [Hdk|Hdk].
        - assert (2 ^ d <= 2 ^ k) by (apply Z.pow_le_mono_r; lia).
          assert (1 <= 2 ^ 23) by (change (2 ^ 23) with 8388608; lia). nia.
        - rewrite <- Z.pow_add_r by lia. apply Z.pow_le_mono_r; lia. }
      apply finish_canonical; [lia|].
      assert (Hd1 : Zdigits2 m1 <= 24).
      { apply Zdigits2_le_of_lt_pow; [lia|].
        change (2 ^ 24) with 16777216. change (2 ^ 23) with 8388608 in Hhi. lia. }
      rewrite fexp_val. lia.
Qed.

Lemma of_int_valid (z : Z) : F32.valid (F32.of_int z) = true.
Proof.
  unfold F32.of_int, F32.round, binary_normalize.
  destruct z as [|p|p]; [reflexivity| |]; apply binary_round_valid.
Qed.

(** ** Calibration at startup and the joystick range *)

Lemma setup_extents (samples : list Z) :
  axisExtents (setup samples initial_state) =
  map (fun i => (configured_low i, F32.of_int (nth i samples 0), configured_high i))
      (seq 0 n_axes).
Proof. reflexivity. Qed.

Lemma first_tick_normalized (samples : list Z) (i : nat) :
  (i < n_axes)%nat ->
  nth i (normalizedAxes (normalizeSticks (readSticks samples (setup samples initial_state))))
      F32.zero
  = normalize_axis (configured_low i, F32.of_int (nth i samples 0), configured_high i)
      (nth i samples 0).
Proof.
  unfold n_axes. intros Hi.
  destruct i as [|[|[|[|i]]]]; try lia; reflexivity.
Qed.

Lemma configured_high_valid (i : nat) : F32.valid (configured_high i) = true.
Proof.
  destruct i as [|[|[|[|i]]]]; try reflexivity.
  unfold configured_high, extents. cbn [nth configured_extents snd].
  destruct i; reflexivity.
Qed.

(** C5: for every calibration of an axis with [low < center < high], a raw
    sample whose conversion to [float] is the calibrated center normalizes to
    zero, exactly (the zero is negative, since the result is inverted; it
    compares equal to 0). In particular, after [setup] has overwritten every
    center with the startup sample of its axis, each axis whose startup sample
    lies between its configured low and high normalizes that same sample to
    zero; the startup sample 600 on the axis configured [3, 520, 1021] makes
    600 its center, and 600 then normalizes to zero. *)
Theorem normalization_at_center (low center high : float) (raw : Z) :
  F32.valid high = true ->
  F32.ltb low center = true -> F32.ltb center high = true ->
  F32.of_int raw = center ->
  (F32.is_zero (normalize_axis (low, center, high) raw) = true /\
   F32.eqb (normalize_axis (low, center, high) raw) F32.zero = true) /\
  (forall (samples : list Z) (i : nat),
     (i < n_axes)%nat ->
     let st := setup samples initial_state in
     let c := F32.of_int (nth i samples 0) in
     extents (axisExtents st) i = (configured_low i, c, configured_high i) /\
     (F32.ltb (configured_low i) c = true ->
      F32.ltb c (configured_high i) = true ->
      F32.is_zero (nth i (normalizedAxes (normalizeSticks (readSticks samples st)))
                     F32.zero) = true)) /\
  (extents (axisExtents (setup startup_600 initial_state)) 0
     = (F32.of_int 3, F32.of_int 600, F32.of_int 1021) /\
   nth 0 (normalizedAxes
            (normalizeSticks (readSticks startup_600 (setup startup_600 initial_state))))
       F32.zero
     = S754_zero true).
Proof.
  intros Vh Hl Hh Hraw.
  assert (Vc : F32.valid center = true) by (rewrite <- Hraw; apply of_int_valid).
  pose proof (normalize_axis_at_center low center high raw Vc Vh Hl Hh Hraw) as Hz.
  split; [split; [exact Hz|apply is_zero_eqb; exact Hz]|]. split.
  - intros samples i Hi st c. split.
    + subst st c. rewrite setup_extents. unfold n_axes in *.
      destruct i as [|[|[|[|i]]]]; try lia; reflexivity.
    + intros Hlo Hhi. subst st. rewrite (first_tick_normalized samples i Hi).
      apply normalize_axis_at_center; auto using of_int_valid, configured_high_valid.
  - split; reflexivity.
Qed.

Lemma normalization_at_center_witness :
  (F32.is_zero (normalize_axis (F32.of_int 3, F32.of_int 600, F32.of_int 1021) 600) = true /\
   F32.eqb (normalize_axis (F32.of_int 3, F32.of_int 600, F32.of_int 1021) 600) F32.zero
     = true) /\
  (forall (samples : list Z) (i : nat),
     (i < n_axes)%nat ->
     let st := setup samples initial_state in
     let c := F32.of_int (nth i samples 0) in
     extents (axisExtents st) i = (configured_low i, c, configured_high i) /\
     (F32.ltb (configured_low i) c = true ->
      F32.ltb c (configured_high i) = true ->
      F32.is_zero (nth i (normalizedAxes (normalizeSticks (readSticks samples st)))
                     F32.zero) = true)) /\
  (extents (axisExtents (setup startup_600 initial_state)) 0
     = (F32.of_int 3, F32.of_int 600, F32.of_int 1021) /\
   nth 0 (normalizedAxes
            (normalizeSticks (readSticks startup_600 (setup startup_600 initial_state))))
       F32.zero
     = S754_zero true).
Proof.
  apply (normalization_at_center (F32.of_int 3) (F32.of_int 600) (F32.of_int 1021) 600);
    reflexivity.
Defined.

(** C9, as stated, fails: with the sticks calibrated on their configured
    centers, a first axis that reads 0, below its calibrated low of 3,
    normalizes to a value above 1, and the joystick report carries 1025. *)
Lemma joystick_report_above_1023 :
  let st := normalizeSticks (readSticks first_axis_at_0
                               (setup startup_centered initial_state)) in
  nth 0 (normalizedAxes st) F32.zero = S754_finite false 8437285 (-23) /\
  sendJoystick st =
    [JoystickX 1025; JoystickY 511; JoystickSliderLeft 511; JoystickZrotate 511] /\
  ~ (0 <= to_joy (axis (normalizedAxes st) 0) <= 1023).
Proof.
  cbv zeta. split; [reflexivity|]. split; [reflexivity|].
  change (to_joy _) with 1025. lia.
Qed.

(** C9, amended: the joystick value [sendJoystick] reports for an axis is
    [(normalized + 1) / 2 * 1023], computed in single precision and truncated
    to an unsigned integer; for every normalized value between -1 and 1 it
    lies in the range 0..1023. *)
Theorem joystick_report_range (v : float) :
  F32.valid v = true ->
  F32.leb (F32.of_int (-1)) v = true -> F32.leb v (F32.of_int 1) = true ->
  (forall st : state,
     sendJoystick st =
       [ JoystickX (to_joy (axis (normalizedAxes st) 0));
         JoystickY (to_joy (axis (normalizedAxes st) 1));
         JoystickSliderLeft (to_joy (axis (normalizedAxes st) 3));
         JoystickZrotate (to_joy (axis (normalizedAxes st) 2)) ]) /\
  to_joy v =
    F32.to_uint (F32.mul (F32.div (F32.add v (F32.of_int 1)) (F32.of_int 2))
                         (F32.of_int 1023)) /\
  0 <= to_joy v <= 1023.
Proof.
  intros V Hlo Hhi. split; [reflexivity|]. split; [reflexivity|].
  apply to_joy_range; assumption.
Qed.

Lemma joystick_report_range_witness :
  (forall st : state,
     sendJoystick st =
       [ JoystickX (to_joy (axis (normalizedAxes st) 0));
         JoystickY (to_joy (axis (normalizedAxes st) 1));
         JoystickSliderLeft (to_joy (axis (normalizedAxes st) 3));
         JoystickZrotate (to_joy (axis (normalizedAxes st) 2)) ]) /\
  to_joy (F32.div (F32.of_int 1) (F32.of_int (-3))) =
    F32.to_uint (F32.mul (F32.div (F32.add (F32.div (F32.of_int 1) (F32.of_int (-3)))
                                           (F32.of_int 1)) (F32.of_int 2))
                         (F32.of_int 1023)) /\
  0 <= to_joy (F32.div (F32.of_int 1) (F32.of_int (-3))) <= 1023.
Proof.
  apply (joystick_report_range (F32.div (F32.of_int 1) (F32.of_int (-3)))); reflexivity.
Defined.

(** ** Further properties of the controller *)

(** X1: [doUnwind] terminates on every accumulator the firmware can hold, the
    most negative [int] included, and leaves the accumulator at zero. *)
Theorem unwind_terminates_on_every_int (ax ay : Z) :
  Int.in_range ax -> Int.in_range ay ->
  exists mvs, doUnwind max_unwind_step (ax, ay) = Some (mvs, (0, 0)).
Proof.
  intros Hx Hy. apply doUnwind_total; [apply max_unwind_step_ok|assumption|assumption].
Qed.

Lemma unwind_terminates_on_every_int_witness :
  exists mvs, doUnwind max_unwind_step (Int.int_min, 7) = Some (mvs, (0, 0)).
Proof.
  apply (unwind_terminates_on_every_int Int.int_min 7); vm_compute; split; discriminate.
Defined.

(** ** Buttons and keys follow the gesture *)

Lemma held_buttons_app (l1 l2 : list event) (cur : bool * bool * bool) :
  held_buttons (l1 ++ l2) cur = held_buttons l2 (held_buttons l1 cur).
Proof.
  revert cur. induction l1 as [|ev l1 IH]; intros cur; [reflexivity|].
  destruct ev; cbn [app held_buttons]; apply IH.
Qed.

Lemma held_key_app (l1 l2 : list event) (cur : Z) :
  held_key (l1 ++ l2) cur = held_key l2 (held_key l1 cur).
Proof.
  revert cur. induction l1 as [|ev l1 IH]; intros cur; [reflexivity|].
  destruct ev; cbn [app held_key]; apply IH.
Qed.

Lemma held_moves (mvs : list (Z * Z)) (b : bool * bool * bool) (k : Z) :
  held_buttons (moves_events mvs) b = b /\ held_key (moves_events mvs) k = k.
Proof. induction mvs as [|mv mvs IH]; [split; reflexivity|exact IH]. Qed.

(** One call of [sendMouse] keeps buttons and key in step with the state. *)
Lemma sendMouse_held (st : state) (b : bool * bool * bool) (k : Z) :
  gesture_inv st -> b = buttons_of st -> k = key_of st ->
  exists evs st',
    sendMouse st = Some (evs, st') /\ gesture_inv st' /\
    held_buttons evs b = buttons_of st' /\ held_key evs k = key_of st'.
Proof.
  intros Hinv Hb Hk.
  destruct (sendMouse_inv st Hinv) as (evs & st' & Hrun & Hinv').
  exists evs, st'. split; [exact Hrun|]. split; [exact Hinv'|].
  destruct Hinv as (Hx & Hy & Hidle & Hact).
  unfold sendMouse in Hrun. unfold buttons_of, key_of in Hb, Hk.
  destruct (inMove st) eqn:Hmv; cbn [andb negb] in Hrun.
  - destruct (Hact eq_refl) as [Hidx|Hidx]; rewrite Hidx in *;
      destruct (checkDeadzone (normalizedAxes st) _).
    + unfold stop_move in Hrun.
      destruct (doUnwind max_unwind_step (unwindAccumulator st)) as [[mvs acc]|];
        [|discriminate].
      inversion Hrun; subst evs st' b k. rewrite Hidx.
      destruct (held_moves mvs (false, false, false) 0) as [Hhb Hhk].
      split; cbn; assumption.
    + inversion Hrun; subst evs st' b k. unfold send_motion.
      destruct (stick_move (normalizedAxes st) (motionStartIndex st)).
      unfold buttons_of, key_of. cbn. rewrite Hmv, Hidx. split; reflexivity.
    + unfold stop_move in Hrun.
      destruct (doUnwind max_unwind_step (unwindAccumulator st)) as [[mvs acc]|];
        [|discriminate].
      inversion Hrun; subst evs st' b k. rewrite Hidx.
      destruct (held_moves mvs (false, false, false) 0) as [Hhb Hhk].
      split; cbn; assumption.
    + inversion Hrun; subst evs st' b k. unfold send_motion.
      destruct (stick_move (normalizedAxes st) (motionStartIndex st)).
      unfold buttons_of, key_of. cbn. rewrite Hmv, Hidx. split; reflexivity.
  - destruct (starting_stick (normalizedAxes st)) as [idx|] eqn:Hstart.
    + unfold send_motion in Hrun. cbn [set_gesture normalizedAxes motionStartIndex
                                        unwindAccumulator inMove fst snd] in Hrun.
      destruct (stick_move (normalizedAxes st) idx) as [xMove yMove].
      inversion Hrun; subst evs st' b k.
      destruct (starting_stick_cases _ _ Hstart) as [->| ->]; split; reflexivity.
    + inversion Hrun; subst evs st' b k.
      unfold buttons_of, key_of. rewrite Hmv. split; reflexivity.
Qed.

Lemma loop_held (samples : list Z) (st : state) (b : bool * bool * bool) (k : Z) :
  gesture_inv st -> b = buttons_of st -> k = key_of st ->
  exists evs st',
    loop samples st = Some (evs, st') /\ gesture_inv st' /\
    held_buttons evs b = buttons_of st' /\ held_key evs k = key_of st'.
Proof.
  intros Hinv Hb Hk.
  destruct (sendMouse_held (normalizeSticks (readSticks samples st)) b k Hinv Hb Hk)
    as (evs & st' & Hrun & Hinv' & Hhb & Hhk).
  unfold loop. rewrite Hrun. unfold send_joystick_hid.
  exists ([] ++ evs ++ [Delay 10]), st'.
  split; [reflexivity|]. split; [exact Hinv'|].
  cbn [app]. rewrite held_buttons_app, held_key_app, Hhb, Hhk.
  split; reflexivity.
Qed.

Lemma run_loop_held (ticks : list (list Z)) :
  forall (st : state) (b : bool * bool * bool) (k : Z),
    gesture_inv st -> b = buttons_of st -> k = key_of st ->
    exists evs st',
      run loop ticks st = Some (evs, st') /\ gesture_inv st' /\
      held_buttons evs b = buttons_of st' /\ held_key evs k = key_of st'.
Proof.
  induction ticks as [|samples rest IH]; intros st b k Hinv Hb Hk.
  - exists [], st. repeat split; try apply Hinv; assumption.
  - destruct (loop_held samples st b k Hinv Hb Hk)
      as (evs & st1 & Hrun & Hinv1 & Hhb & Hhk).
    destruct (IH st1 (held_buttons evs b) (held_key evs k) Hinv1 Hhb Hhk)
      as (evs' & st2 & Hrun' & Hinv2 & Hhb' & Hhk').
    exists (evs ++ evs'), st2. cbn [run]. rewrite Hrun, Hrun'.
    split; [reflexivity|]. split; [exact Hinv2|].
    rewrite held_buttons_app, held_key_app. split; assumption.
Qed.

(** X2: whatever the sticks read during [setup] and during any number of
    ticks of [loop], the host sees the middle mouse button held exactly while
    a move is active and the other two buttons never, and it sees left shift
    held exactly while a move started by the orbit stick is active: no button
    and no key stays down once the machine is idle again. *)
Theorem buttons_and_key_follow_the_move (startup : list Z) (ticks : list (list Z)) :
  exists evs st,
    run loop ticks (setup startup initial_state) = Some (evs, st) /\
    held_buttons evs (false, false, false) = (false, inMove st, false) /\
    held_key evs 0 =
      (if inMove st && (motionStartIndex st =? 2) then KEY_LEFT_SHIFT else 0).
Proof.
  destruct (run_loop_held ticks (setup startup initial_state) (false, false, false) 0
              (setup_inv startup) eq_refl eq_refl)
    as (evs & st & Hrun & Hinv & Hb & Hk).
  exists evs, st. split; [exact Hrun|]. rewrite Hb, Hk.
  destruct Hinv as (_ & _ & _ & Hact). unfold buttons_of, key_of.
  destruct (inMove st); [|split; reflexivity].
  destruct (Hact eq_refl) as [->| ->]; split; reflexivity.
Qed.

(** ** The accumulator and the pointer *)

Lemma doUnwind_loop_congr (maxStep : Z) (fuel : nat) :
  forall (acc final : Z * Z) (mvs : list (Z * Z)),
    doUnwind_loop fuel maxStep acc = Some (mvs, final) ->
    Int.in_range (fst final) -> Int.in_range (snd final) ->
    Int.wrap (fst acc + fst (sum_moves mvs)) = fst final /\
    Int.wrap (snd acc + snd (sum_moves mvs)) = snd final.
Proof.
  induction fuel as [|fuel IH]; intros acc final mvs Hrun Hx Hy;
    cbn [doUnwind_loop] in Hrun; destruct (unwinding acc) eqn:Hu.
  - discriminate.
  - inversion Hrun; subst. cbn [sum_moves fst snd]. rewrite !Z.add_0_r.
    split; apply wrap_small; assumption.
  - unfold unwind_step in Hrun.
    destruct (doUnwind_loop fuel maxStep _) as [[mvs' final']|] eqn:Hrec;
      [|discriminate].
    inversion Hrun; subst.
    destruct (IH _ _ _ Hrec Hx Hy) as [Hsx Hsy]. cbn [fst snd] in Hsx, Hsy.
    cbn [sum_moves fst snd]. unfold Int.add in Hsx, Hsy.
    rewrite wrap_add_wrap_l in Hsx, Hsy.
    rewrite <- Hsx, <- Hsy. split; f_equal; ring.
  - inversion Hrun; subst. cbn [sum_moves fst snd]. rewrite !Z.add_0_r.
    split; apply wrap_small; assumption.
Qed.

Lemma wrap_add_wrap_r (a b : Z) : Int.wrap (a + Int.wrap b) = Int.wrap (a + b).
Proof. rewrite Z.add_comm, wrap_add_wrap_l. f_equal. ring. Qed.

(** One call of [sendMouse] keeps the accumulator equal to the wrapped
    displacement of everything sent so far, [d] before the call. *)
Lemma sendMouse_tracks (st : state) (d : Z * Z) :
  gesture_inv st ->
  unwindAccumulator st = (Int.wrap (fst d), Int.wrap (snd d)) ->
  exists evs st',
    sendMouse st = Some (evs, st') /\ gesture_inv st' /\
    unwindAccumulator st' =
      (Int.wrap (fst d + fst (displacement evs)),
       Int.wrap (snd d + snd (displacement evs))).
Proof.
  intros Hinv Hacc.
  destruct (sendMouse_inv st Hinv) as (evs & st' & Hrun & Hinv').
  exists evs, st'. split; [exact Hrun|]. split; [exact Hinv'|].
  destruct Hinv' as (Hx' & Hy' & _).
  unfold sendMouse in Hrun.
  destruct (inMove st && checkDeadzone (normalizedAxes st) (motionStartIndex st)).
  - unfold stop_move in Hrun.
    destruct (doUnwind max_unwind_step (unwindAccumulator st)) as [[mvs acc]|] eqn:Hun;
      [|discriminate].
    inversion Hrun; subst evs st'.
    cbn [set_gesture unwindAccumulator fst snd] in *.
    destruct (doUnwind_loop_congr _ _ _ _ _ Hun Hx' Hy') as [Hsx Hsy].
    rewrite Hacc in Hsx, Hsy. cbn [fst snd] in Hsx, Hsy.
    rewrite wrap_add_wrap_l in Hsx, Hsy.
    assert (Hd : displacement
                   ([MouseButtons false false false]
                      ++ setKeys (motionStartIndex st) false ++ [Delay 10]
                      ++ moves_events mvs) = sum_moves mvs).
    { cbn [app displacement]. rewrite displacement_app, displacement_setKeys.
      cbn [app displacement fst snd]. rewrite displacement_moves.
      now destruct (sum_moves mvs). }
    cbn [app] in Hd. rewrite Hd, Hsx, Hsy. now destruct acc.
  - destruct (negb (inMove st)) eqn:Hidle.
    + destruct Hinv as (_ & _ & Hzero & _).
      rewrite Hzero in Hacc by now destruct (inMove st).
      inversion Hacc as [[Hdx Hdy]].
      destruct (starting_stick (normalizedAxes st)) as [idx|].
      * unfold send_motion in Hrun.
        cbn [set_gesture normalizedAxes motionStartIndex unwindAccumulator inMove
             fst snd] in Hrun.
        destruct (stick_move (normalizedAxes st) idx) as [xMove yMove].
        injection Hrun as Hevs Hst. subst evs st'. cbn [set_gesture unwindAccumulator].
        rewrite displacement_app, displacement_setKeys. cbn [displacement].
        rewrite displacement_app, displacement_setMouseButtons.
        cbn [displacement fst snd]. unfold Int.add.
        rewrite <- (wrap_add_wrap_l (fst d)), <- (wrap_add_wrap_l (snd d)), <- Hdx, <- Hdy.
        f_equal; f_equal; ring.
      * inversion Hrun; subst evs st'.
        rewrite (Hzero ltac:(now destruct (inMove st))).
        cbn [displacement fst snd]. now rewrite !Z.add_0_r, <- Hdx, <- Hdy.
    + unfold send_motion in Hrun.
      destruct (stick_move (normalizedAxes st) (motionStartIndex st)) as [xMove yMove].
      inversion Hrun; subst evs st'. cbn [set_gesture unwindAccumulator].
      rewrite Hacc. cbn [displacement fst snd]. unfold Int.add.
      rewrite !wrap_add_wrap_l. f_equal; f_equal; ring.
Qed.

Lemma run_loop_tracks (ticks : list (list Z)) :
  forall (st : state) (d : Z * Z),
    gesture_inv st ->
    unwindAccumulator st = (Int.wrap (fst d), Int.wrap (snd d)) ->
    exists evs st',
      run loop ticks st = Some (evs, st') /\ gesture_inv st' /\
      unwindAccumulator st' =
        (Int.wrap (fst d + fst (displacement evs)),
         Int.wrap (snd d + snd (displacement evs))).
Proof.
  induction ticks as [|samples rest IH]; intros st d Hinv Hacc.
  - exists [], st. split; [reflexivity|]. split; [exact Hinv|].
    cbn [displacement fst snd]. now rewrite !Z.add_0_r.
  - destruct (sendMouse_tracks (normalizeSticks (readSticks samples st)) d Hinv Hacc)
      as (evs & st1 & Hrun & Hinv1 & Hacc1).
    assert (Hloop : loop samples st = Some (evs ++ [Delay 10], st1)).
    { unfold loop. now rewrite Hrun. }
    destruct (IH st1 (fst d + fst (displacement evs), snd d + snd (displacement evs))
                Hinv1 Hacc1) as (evs' & st2 & Hrun' & Hinv2 & Hacc2).
    cbn [run]. rewrite Hloop, Hrun'.
    eexists _, st2. split; [reflexivity|]. split; [exact Hinv2|].
    rewrite Hacc2. cbn [fst snd].
    rewrite !displacement_app. cbn [displacement fst snd].
    f_equal; f_equal; ring.
Qed.

Lemma wrap_zero_divide (z : Z) : Int.wrap z = 0 -> (Int.modulus | z).
Proof.
  intros H. destruct (wrap_congr z) as [k Hk]. rewrite H in Hk.
  exists (- k). lia.
Qed.

(** X3: whatever the sticks read during [setup] and during any number of
    ticks of [loop], the unwind accumulator is the net displacement of all the
    mouse moves sent since power-up, wrapped to [int]; so whenever no move is
    active, the pointer is back where it was at power-up up to a multiple of
    [2^32] on each axis. *)
Theorem accumulator_tracks_pointer (startup : list Z) (ticks : list (list Z)) :
  exists evs st,
    run loop ticks (setup startup initial_state) = Some (evs, st) /\
    unwindAccumulator st =
      (Int.wrap (fst (displacement evs)), Int.wrap (snd (displacement evs))) /\
    (inMove st = false ->
     (Int.modulus | fst (displacement evs)) /\ (Int.modulus | snd (displacement evs))).
Proof.
  destruct (run_loop_tracks ticks (setup startup initial_state) (0, 0)
              (setup_inv startup) eq_refl) as (evs & st & Hrun & Hinv & Hacc).
  cbn [fst snd] in Hacc. rewrite !Z.add_0_l in Hacc.
  exists evs, st. split; [exact Hrun|]. split; [exact Hacc|].
  intros Hidle. destruct Hinv as (_ & _ & Hzero & _).
  rewrite (Hzero Hidle) in Hacc. inversion Hacc as [[Hx Hy]].
  split; apply wrap_zero_divide; congruence.
Qed.

(** ** Sticks at rest *)

Lemma starting_stick_at_rest (axes : list float) :
  sticks_at_rest axes -> starting_stick axes = None.
Proof. intros [H0 H2]. unfold starting_stick. now rewrite H0, H2. Qed.

(** X4: from any state the gesture invariant allows, a tick of [loop] that
    finds both sticks in their dead zones leaves the machine idle with the
    accumulator at zero, whether or not a move was active; and a further tick
    with the same readings sends nothing but the tick's delay and changes
    nothing. *)
Theorem release_settles (samples : list Z) (st : state) :
  gesture_inv st ->
  sticks_at_rest (normalizedAxes (normalizeSticks (readSticks samples st))) ->
  exists evs st',
    loop samples st = Some (evs, st') /\
    inMove st' = false /\ unwindAccumulator st' = (0, 0) /\
    loop samples st' = Some ([Delay 10], st').
Proof.
  intros Hinv Hrest.
  set (st1 := normalizeSticks (readSticks samples st)) in *.
  assert (Hinv1 : gesture_inv st1) by exact Hinv.
  destruct Hinv as (Hx & Hy & Hzero & Hact).
  pose proof (starting_stick_at_rest _ Hrest) as Hnone.
  destruct Hrest as [H0 H2].
  destruct (inMove st) eqn:Hmv.
  - destruct (unwindAccumulator st) as [ax ay] eqn:Hacc.
    destruct (doUnwind_total max_unwind_step max_unwind_step_ok ax ay Hx Hy)
      as [mvs Hun].
    assert (Hdz : checkDeadzone (normalizedAxes st1) (motionStartIndex st1) = true).
    { change (motionStartIndex st1) with (motionStartIndex st).
      destruct (Hact eq_refl) as [->| ->]; assumption. }
    assert (Hsend : sendMouse st1 =
                    Some ([MouseButtons false false false]
                            ++ setKeys (motionStartIndex st) false ++ [Delay 10]
                            ++ moves_events mvs,
                          set_gesture st1 (0, 0) false (motionStartIndex st))).
    { unfold sendMouse. change (inMove st1) with (inMove st). rewrite Hmv, Hdz.
      cbn [andb]. unfold stop_move.
      change (unwindAccumulator st1) with (unwindAccumulator st).
      now rewrite Hacc, Hun. }
    eexists _, _. split; [unfold loop; fold st1; rewrite Hsend; reflexivity|].
    split; [reflexivity|]. split; [reflexivity|].
    unfold loop, sendMouse.
    change (normalizedAxes (normalizeSticks (readSticks samples
              (set_gesture st1 (0, 0) false (motionStartIndex st)))))
      with (normalizedAxes st1).
    cbn [inMove normalizeSticks readSticks set_gesture andb negb].
    rewrite Hnone. reflexivity.
  - assert (Hsend : sendMouse st1 = Some ([], st1)).
    { unfold sendMouse. change (inMove st1) with (inMove st). rewrite Hmv.
      cbn [andb negb]. now rewrite Hnone. }
    exists ([] ++ [] ++ [Delay 10]), st1.
    split; [unfold loop; fold st1; now rewrite Hsend|].
    split; [exact Hmv|]. split; [exact (Hzero eq_refl)|].
    unfold loop, sendMouse.
    change (normalizedAxes (normalizeSticks (readSticks samples st1)))
      with (normalizedAxes st1).
    change (inMove (normalizeSticks (readSticks samples st1))) with (inMove st).
    rewrite Hmv. cbn [andb negb]. rewrite Hnone. reflexivity.
Qed.

Lemma release_settles_witness :
  exists evs st',
    loop startup_600 (setup startup_600 initial_state) = Some (evs, st') /\
    inMove st' = false /\ unwindAccumulator st' = (0, 0) /\
    loop startup_600 st' = Some ([Delay 10], st').
Proof.
  apply (release_settles startup_600 (setup startup_600 initial_state)).
  - apply setup_inv.
  - split; vm_compute; reflexivity.
Defined.

Lemma zero_in_deadzone (x : float) :
  F32.is_zero x = true -> F32.ltb (F32.abs x) deadzone = true.
Proof. destruct x as [[|]| | |]; try discriminate; reflexivity. Qed.

Lemma loop_at_rest (samples : list Z) (st : state) :
  inMove st = false ->
  sticks_at_rest (normalizedAxes (normalizeSticks (readSticks samples st))) ->
  loop samples st = Some ([Delay 10], normalizeSticks (readSticks samples st)).
Proof.
  intros Hmv Hrest. unfold loop, sendMouse.
  change (inMove (normalizeSticks (readSticks samples st))) with (inMove st).
  rewrite Hmv. cbn [andb negb]. now rewrite (starting_stick_at_rest _ Hrest).
Qed.

Lemma run_loop_at_rest (samples : list Z) (st : state) (n : nat) :
  inMove st = false ->
  sticks_at_rest (normalizedAxes (normalizeSticks (readSticks samples st))) ->
  exists st',
    run loop (repeat samples n) st = Some (repeat (Delay 10) n, st') /\
    inMove st' = false.
Proof.
  intros Hmv Hrest.
  destruct n as [|n]; [exists st; split; [reflexivity|exact Hmv]|].
  exists (normalizeSticks (readSticks samples st)).
  split; [|exact Hmv].
  cbn [repeat run]. rewrite (loop_at_rest samples st Hmv Hrest).
  set (st1 := normalizeSticks (readSticks samples st)) in *.
  assert (Hfix : forall k, run loop (repeat samples k) st1 = Some (repeat (Delay 10) k, st1)).
  { induction k as [|k IH]; [reflexivity|].
    cbn [repeat run]. rewrite (loop_at_rest samples st1 Hmv Hrest).
    change (normalizeSticks (readSticks samples st1)) with st1.
    now rewrite IH. }
  now rewrite Hfix.
Qed.

(** X5: if at power-up every axis reads a value strictly between its
    configured low and high, then for as long as the sticks keep reading those
    values the firmware stays idle and sends nothing: the trace of any number
    of ticks holds the ticks' delays only. *)
Theorem untouched_sticks_send_nothing (samples : list Z) (n : nat) :
  (forall i, (i < n_axes)%nat ->
     F32.ltb (configured_low i) (F32.of_int (nth i samples 0)) = true /\
     F32.ltb (F32.of_int (nth i samples 0)) (configured_high i) = true) ->
  exists st',
    run loop (repeat samples n) (setup samples initial_state)
      = Some (repeat (Delay 10) n, st') /\
    inMove st' = false.
Proof.
  intros Hbetween. apply run_loop_at_rest; [reflexivity|].
  assert (Hz : forall i, (i < n_axes)%nat ->
            F32.ltb (F32.abs (nth i (normalizedAxes (normalizeSticks
                       (readSticks samples (setup samples initial_state)))) F32.zero))
                    deadzone = true).
  { intros i Hi. apply zero_in_deadzone. rewrite (first_tick_normalized samples i Hi).
    destruct (Hbetween i Hi) as [Hlo Hhi].
    apply normalize_axis_at_center; auto using of_int_valid, configured_high_valid. }
  unfold n_axes in Hz.
  split; unfold checkDeadzone, axis; apply andb_true_intro; split.
  - apply (Hz 0%nat); lia.
  - apply (Hz 1%nat); lia.
  - apply (Hz 2%nat); lia.
  - apply (Hz 3%nat); lia.
Qed.

Lemma untouched_sticks_send_nothing_witness :
  exists st',
    run loop (repeat startup_600 3) (setup startup_600 initial_state)
      = Some (repeat (Delay 10) 3, st') /\
    inMove st' = false.
Proof.
  apply (untouched_sticks_send_nothing startup_600 3).
  intros i Hi. unfold n_axes in Hi.
  destruct i as [|[|[|[|i]]]]; try lia; split; reflexivity.
Defined.

(** ** The unwind path *)

Lemma sum_moves_firstn_nil (k : nat) : sum_moves (firstn k []) = (0, 0).
Proof. destruct k; reflexivity. Qed.

Lemma doUnwind_loop_path (maxStep : Z) (fuel : nat) :
  0 < maxStep <= Int.int_max ->
  forall (ax ay : Z) (mvs : list (Z * Z)) (final : Z * Z),
    negatable ax -> negatable ay ->
    doUnwind_loop fuel maxStep (ax, ay) = Some (mvs, final) ->
    forall k,
      towards_zero ax (fst (sum_moves (firstn k mvs))) /\
      towards_zero ay (snd (sum_moves (firstn k mvs))).
Proof.
  intros Hm. induction fuel as [|fuel IH]; intros ax ay mvs final Hx Hy Hrun k;
    cbn [doUnwind_loop] in Hrun; destruct (unwinding (ax, ay)) eqn:Hu.
  - discriminate.
  - inversion Hrun; subst. rewrite sum_moves_firstn_nil. cbn [fst snd].
    unfold towards_zero. lia.
  - unfold unwind_step in Hrun. cbn [fst snd] in Hrun.
    destruct (max_step_exact maxStep Hm ax Hx) as [Hsx Hax].
    destruct (max_step_exact maxStep Hm ay Hy) as [Hsy Hay].
    rewrite Hax, Hay, Hsx, Hsy in Hrun.
    destruct (doUnwind_loop fuel maxStep _) as [[mvs' final']|] eqn:Hrec;
      [|discriminate].
    inversion Hrun; subst. clear Hrun.
    assert (Hpos : 0 < maxStep) by lia.
    pose proof (exact_step_abs maxStep ax Hpos) as [Hbx Hnx].
    pose proof (exact_step_abs maxStep ay Hpos) as [Hby Hny].
    assert (Ex : towards_zero ax (exact_step maxStep ax) /\
                 towards_zero (ax + exact_step maxStep ax) (- (ax + exact_step maxStep ax)) /\
                 (0 <= ax -> 0 <= ax + exact_step maxStep ax) /\
                 (ax <= 0 -> ax + exact_step maxStep ax <= 0)).
    { unfold towards_zero, exact_step.
      destruct (Z.ltb_spec 0 ax); [|destruct (Z.ltb_spec ax 0)]; lia. }
    assert (Ey : towards_zero ay (exact_step maxStep ay) /\
                 towards_zero (ay + exact_step maxStep ay) (- (ay + exact_step maxStep ay)) /\
                 (0 <= ay -> 0 <= ay + exact_step maxStep ay) /\
                 (ay <= 0 -> ay + exact_step maxStep ay <= 0)).
    { unfold towards_zero, exact_step.
      destruct (Z.ltb_spec 0 ay); [|destruct (Z.ltb_spec ay 0)]; lia. }
    destruct k as [|k].
    + cbn [firstn sum_moves fst snd]. unfold towards_zero. lia.
    + assert (Nx : negatable (ax + exact_step maxStep ax))
        by int_range.
      assert (Ny : negatable (ay + exact_step maxStep ay))
        by int_range.
      destruct (IH _ _ _ _ Nx Ny Hrec k) as [Ix Iy].
      cbn [firstn sum_moves fst snd]. unfold towards_zero in *. lia.
  - inversion Hrun; subst. rewrite sum_moves_firstn_nil. cbn [fst snd].
    unfold towards_zero. lia.
Qed.

(** Every move of the loop points from the accumulator towards zero, on both
    axes, and is no longer than the accumulator. *)
Lemma doUnwind_loop_moves (maxStep : Z) (fuel : nat) :
  0 < maxStep <= Int.int_max ->
  forall (ax ay : Z) (mvs : list (Z * Z)) (final : Z * Z),
    negatable ax -> negatable ay ->
    doUnwind_loop fuel maxStep (ax, ay) = Some (mvs, final) ->
    Forall (fun mv => towards_zero ax (fst mv) /\ towards_zero ay (snd mv)) mvs.
Proof.
  intros Hm. induction fuel as [|fuel IH]; intros ax ay mvs final Hx Hy Hrun;
    cbn [doUnwind_loop] in Hrun; destruct (unwinding (ax, ay)) eqn:Hu.
  - discriminate.
  - inversion Hrun; subst. constructor.
  - unfold unwind_step in Hrun. cbn [fst snd] in Hrun.
    destruct (max_step_exact maxStep Hm ax Hx) as [Hsx Hax].
    destruct (max_step_exact maxStep Hm ay Hy) as [Hsy Hay].
    rewrite Hax, Hay, Hsx, Hsy in Hrun.
    destruct (doUnwind_loop fuel maxStep _) as [[mvs' final']|] eqn:Hrec;
      [|discriminate].
    inversion Hrun; subst. clear Hrun.
    assert (Hpos : 0 < maxStep) by lia.
    pose proof (exact_step_abs maxStep ax Hpos) as [Hbx Hnx].
    pose proof (exact_step_abs maxStep ay Hpos) as [Hby Hny].
    assert (Ex : towards_zero ax (exact_step maxStep ax) /\
                 (0 <= ax -> 0 <= ax + exact_step maxStep ax <= ax) /\
                 (ax <= 0 -> ax <= ax + exact_step maxStep ax <= 0)).
    { unfold towards_zero, exact_step.
      destruct (Z.ltb_spec 0 ax); [|destruct (Z.ltb_spec ax 0)]; lia. }
    assert (Ey : towards_zero ay (exact_step maxStep ay) /\
                 (0 <= ay -> 0 <= ay + exact_step maxStep ay <= ay) /\
                 (ay <= 0 -> ay <= ay + exact_step maxStep ay <= 0)).
    { unfold towards_zero, exact_step.
      destruct (Z.ltb_spec 0 ay); [|destruct (Z.ltb_spec ay 0)]; lia. }
    assert (Nx : negatable (ax + exact_step maxStep ax)) by int_range.
    assert (Ny : negatable (ay + exact_step maxStep ay)) by int_range.
    constructor; [cbn [fst snd]; split; [apply Ex|apply Ey]|].
    eapply Forall_impl; [|exact (IH _ _ _ _ Nx Ny Hrec)].
    intros [dx dy]. cbn [fst snd]. unfold towards_zero in *. lia.
  - inversion Hrun; subst. constructor.
Qed.

(** X6: unwinding walks straight back and never overshoots. For a step cap
    that is a positive [int] and an accumulator whose components are not
    [int_min], [doUnwind] returns with the accumulator at zero; every move it
    sends points, on each axis, from the accumulator towards zero (its sign is
    opposite to the accumulator's, or it is zero), so the pointer never turns
    round; and after each move the pointer has covered, on each axis, a
    distance between 0 and the negated accumulator, so it never passes its
    start. *)
Theorem unwind_never_overshoots (maxStep ax ay : Z) :
  0 < maxStep <= Int.int_max ->
  negatable ax -> negatable ay ->
  exists mvs,
    doUnwind maxStep (ax, ay) = Some (mvs, (0, 0)) /\
    Forall (fun mv => towards_zero ax (fst mv) /\ towards_zero ay (snd mv)) mvs /\
    forall k,
      towards_zero ax (fst (sum_moves (firstn k mvs))) /\
      towards_zero ay (snd (sum_moves (firstn k mvs))).
Proof.
  intros Hm Hx Hy.
  destruct (doUnwind_sum maxStep Hm ax ay Hx Hy) as (mvs & Hrun & _).
  exists mvs. split; [exact Hrun|]. split.
  - exact (doUnwind_loop_moves maxStep _ Hm ax ay mvs (0, 0) Hx Hy Hrun).
  - exact (doUnwind_loop_path maxStep _ Hm ax ay mvs (0, 0) Hx Hy Hrun).
Qed.

Lemma unwind_never_overshoots_witness :
  exists mvs,
    doUnwind 100 (250, -30) = Some (mvs, (0, 0)) /\
    Forall (fun mv => towards_zero 250 (fst mv) /\ towards_zero (-30) (snd mv)) mvs /\
    forall k,
      towards_zero 250 (fst (sum_moves (firstn k mvs))) /\
      towards_zero (-30) (snd (sum_moves (firstn k mvs))).
Proof.
  apply (unwind_never_overshoots 100 250 (-30)).
  - rewrite int_max_val. lia.
  - unfold negatable. rewrite int_min_val, int_max_val. lia.
  - unfold negatable. rewrite int_min_val, int_max_val. lia.
Defined.

(** ** A center on the edge of the range *)

Lemma normalize_degenerate (c : float) : normalize c c c = S754_nan.
Proof.
  unfold normalize.
  destruct (is_number c) eqn:Nc.
  - now rewrite (sub_self c Nc).
  - destruct c as [s|[|]| |s m e]; try discriminate; reflexivity.
Qed.

Lemma nan_not_in_deadzone (axes : list float) (s : Z) :
  axis axes s = S754_nan \/ axis axes (s + 1) = S754_nan ->
  checkDeadzone axes s = false.
Proof.
  unfold checkDeadzone. intros [-> | ->]; [reflexivity|].
  apply andb_false_r.
Qed.

Lemma sendMouse_extents (st : state) (evs : list event) (st' : state) :
  sendMouse st = Some (evs, st') -> axisExtents st' = axisExtents st.
Proof.
  unfold sendMouse, stop_move, send_motion. intros H.
  destruct (inMove st && checkDeadzone (normalizedAxes st) (motionStartIndex st)).
  - destruct (doUnwind max_unwind_step (unwindAccumulator st)) as [[mvs acc]|];
      [|discriminate].
    now inversion H.
  - destruct (negb (inMove st)).
    + destruct (starting_stick (normalizedAxes st)) as [idx|]; [|now inversion H].
      cbn [set_gesture normalizedAxes motionStartIndex] in H.
      destruct (stick_move (normalizedAxes st) idx). now inversion H.
    + destruct (stick_move (normalizedAxes st) (motionStartIndex st)).
      now inversion H.
Qed.

Lemma loop_extents (samples : list Z) (st : state) (evs : list event) (st' : state) :
  loop samples st = Some (evs, st') -> axisExtents st' = axisExtents st.
Proof.
  unfold loop. intros H.
  destruct (sendMouse (normalizeSticks (readSticks samples st))) as [[evs1 st1]|] eqn:Hs;
    [|discriminate].
  inversion H; subst. exact (sendMouse_extents _ _ _ Hs).
Qed.

Lemma run_loop_extents (ticks : list (list Z)) :
  forall (st : state) (evs : list event) (st' : state),
    run loop ticks st = Some (evs, st') -> axisExtents st' = axisExtents st.
Proof.
  induction ticks as [|samples rest IH]; intros st evs st' H; cbn [run] in H.
  - now inversion H.
  - destruct (loop samples st) as [[evs1 st1]|] eqn:Hl; [|discriminate].
    destruct (run loop rest st1) as [[evs2 st2]|] eqn:Hr; [|discriminate].
    inversion H; subst. rewrite (IH _ _ _ Hr). exact (loop_extents _ _ _ _ Hl).
Qed.

Lemma normalized_nth (samples : list Z) (st : state) (i : nat) :
  (i < n_axes)%nat ->
  nth i (normalizedAxes (normalizeSticks (readSticks samples st))) F32.zero
  = normalize_axis (extents (axisExtents st) i) (nth i samples 0).
Proof.
  unfold n_axes. intros Hi.
  destruct i as [|[|[|[|i]]]]; try lia; reflexivity.
Qed.

Lemma stick_of_axis_cases (i : nat) (axes : list float) :
  (i < n_axes)%nat ->
  nth i axes F32.zero = axis axes (stick_of_axis i) \/
  nth i axes F32.zero = axis axes (stick_of_axis i + 1).
Proof.
  unfold n_axes. intros Hi.
  destruct i as [|[|[|[|i]]]]; try lia; [left|right|left|right]; reflexivity.
Qed.

(** X7: calibration does not check that a center lies inside the axis range.
    If at power-up an axis reads its configured high value, the center
    becomes that value, the half range above it is empty, and on every later
    tick on which the axis reads that value again it normalizes to NaN (0/0);
    a NaN is below no threshold, so the stick of that axis is found outside
    its dead zone on each such tick, at rest though it is. *)
Theorem startup_at_high_never_rests
  (startup : list Z) (ticks : list (list Z)) (samples : list Z) (i : nat) :
  (i < n_axes)%nat ->
  F32.of_int (nth i startup 0) = configured_high i ->
  nth i samples 0 = nth i startup 0 ->
  exists evs st,
    run loop ticks (setup startup initial_state) = Some (evs, st) /\
    let st1 := normalizeSticks (readSticks samples st) in
    nth i (normalizedAxes st1) F32.zero = S754_nan /\
    checkDeadzone (normalizedAxes st1) (stick_of_axis i) = false.
Proof.
  intros Hi Hhigh Hsame.
  destruct (run_inv loop loop_inv ticks (setup startup initial_state)
              (setup_inv startup)) as (evs & st & Hrun & _).
  exists evs, st. split; [exact Hrun|]. intros st1.
  assert (Hnan : nth i (normalizedAxes st1) F32.zero = S754_nan).
  { subst st1. rewrite (normalized_nth samples st i Hi).
    rewrite (run_loop_extents _ _ _ _ Hrun), setup_extents.
    assert (Hext : extents (map (fun i => (configured_low i, F32.of_int (nth i startup 0),
                                           configured_high i)) (seq 0 n_axes)) i
                   = (configured_low i, F32.of_int (nth i startup 0), configured_high i)).
    { unfold n_axes in *. destruct i as [|[|[|[|i]]]]; try lia; reflexivity. }
    rewrite Hext, Hsame. unfold normalize_axis.
    now rewrite Hhigh, ltb_irrefl, normalize_degenerate. }
  split; [exact Hnan|].
  apply nan_not_in_deadzone.
  destruct (stick_of_axis_cases i (normalizedAxes st1) Hi) as [H|H];
    rewrite <- H; auto.
Qed.

Lemma startup_at_high_never_rests_witness :
  exists evs st,
    run loop [[1021; 498; 530; 513]] (setup [1021; 498; 530; 513] initial_state)
      = Some (evs, st) /\
    let st1 := normalizeSticks (readSticks [1021; 498; 530; 513] st) in
    nth 0 (normalizedAxes st1) F32.zero = S754_nan /\
    checkDeadzone (normalizedAxes st1) (stick_of_axis 0) = false.
Proof.
  apply (startup_at_high_never_rests [1021; 498; 530; 513] [[1021; 498; 530; 513]]
           [1021; 498; 530; 513] 0).
  - unfold n_axes. lia.
  - reflexivity.
  - reflexivity.
Defined.

(** ** Stick-press buttons *)

Lemma updateButtons_nth (es : list edges) (bs : list bool) (i : nat) :
  (i < n_buttons)%nat ->
  nth i (updateButtons es bs) false = update_button (nth i es no_edge) (nth i bs false).
Proof.
  unfold n_buttons. intros Hi. destruct i as [|[|i]]; try lia; reflexivity.
Qed.

(** X8: [updateButtons] makes each [buttonState] a latch of its debouncer's
    latest edge. After any number of calls, a button's state is true if the
    latest edge reported for it was a fall, false if it was a rise, and its
    initial state if no edge was reported; a fall wins over a rise reported
    in the same call, and no button's state depends on another button. *)
Theorem button_state_is_latest_edge
  (history : list (list edges)) (buttonState : list bool) (i : nat) :
  (i < n_buttons)%nat ->
  nth i (buttons_after history buttonState) false =
  match latest_edge i (rev history) with
  | Some pressed => pressed
  | None => nth i buttonState false
  end.
Proof.
  intros Hi. unfold buttons_after.
  induction history as [|es history IH] using rev_ind; [reflexivity|].
  rewrite fold_left_app, rev_app_distr. cbn [fold_left rev app latest_edge].
  rewrite (updateButtons_nth _ _ i Hi), IH. unfold update_button.
  destruct (fell (nth i es no_edge)); [reflexivity|].
  destruct (rose (nth i es no_edge)); cbn [andb]; [|reflexivity].
  destruct (latest_edge i (rev history)) as [[|]|];
    try reflexivity; now destruct (nth i buttonState false).
Qed.

Lemma button_state_is_latest_edge_witness :
  nth 1 (buttons_after [[no_edge; mkEdges true false]; [mkEdges true true; no_edge]]
           [false; false]) false =
  match latest_edge 1 (rev [[no_edge; mkEdges true false]; [mkEdges true true; no_edge]]) with
  | Some pressed => pressed
  | None => nth 1 [false; false] false
  end.
Proof.
  apply (button_state_is_latest_edge
           [[no_edge; mkEdges true false]; [mkEdges true true; no_edge]] [false; false] 1).
  unfold n_buttons. lia.
Defined.

(** ** The start of a move *)

(** X9: a tick that finds no move active and a stick outside its dead zone
    starts a move for the first such stick, the pan stick before the orbit
    stick: the accumulator restarts from zero, the stick's key is pressed if
    it has one, then after a delay its mouse buttons are set, then after
    another delay this tick's motion is sent and accounted for. *)
Theorem gesture_start_tick (axes : list float) (st : state) (s : Z) :
  inMove st = false ->
  starting_stick axes = Some s ->
  (s = 0 /\ checkDeadzone axes 0 = false \/
   s = 2 /\ checkDeadzone axes 0 = true /\ checkDeadzone axes 2 = false) /\
  tick axes st =
  Some (setKeys s true ++ [Delay 10] ++ setMouseButtons s ++ [Delay 10]
          ++ [MouseMove (fst (stick_move axes s)) (snd (stick_move axes s))],
        set_gesture (with_axes st axes)
          (Int.add 0 (fst (stick_move axes s)), Int.add 0 (snd (stick_move axes s)))
          true s) /\
  setKeys 0 true = [] /\ setKeys 2 true = [KeyPress KEY_LEFT_SHIFT] /\
  setMouseButtons 0 = [MouseButtons false true false] /\
  setMouseButtons 2 = [MouseButtons false true false].
Proof.
  intros Hmv Hstart. split; [|split; [apply tick_start; assumption|repeat split]].
  unfold starting_stick in Hstart.
  destruct (checkDeadzone axes 0); cbn [negb] in Hstart.
  - destruct (checkDeadzone axes 2); cbn [negb] in Hstart; [discriminate|].
    inversion Hstart. right. auto.
  - inversion Hstart. left. auto.
Qed.

Lemma gesture_start_tick_witness :
  (0 = 0 /\ checkDeadzone pan_held 0 = false \/
   0 = 2 /\ checkDeadzone pan_held 0 = true /\ checkDeadzone pan_held 2 = false) /\
  tick pan_held initial_state =
  Some (setKeys 0 true ++ [Delay 10] ++ setMouseButtons 0 ++ [Delay 10]
          ++ [MouseMove (fst (stick_move pan_held 0)) (snd (stick_move pan_held 0))],
        set_gesture (with_axes initial_state pan_held)
          (Int.add 0 (fst (stick_move pan_held 0)),
           Int.add 0 (snd (stick_move pan_held 0)))
          true 0) /\
  setKeys 0 true = [] /\ setKeys 2 true = [KeyPress KEY_LEFT_SHIFT] /\
  setMouseButtons 0 = [MouseButtons false true false] /\
  setMouseButtons 2 = [MouseButtons false true false].
Proof.
  apply (gesture_start_tick pan_held initial_state 0); reflexivity.
Defined.

(** A whole gesture, run: the pan stick held half way over for three ticks and then released:
    the buttons are set, three moves of [-25 * 0.5] truncated to [-12] are
    sent, the buttons are released, and one unwind move takes the pointer the
    36 units back. *)
Example gesture_lifecycle_scenario :
  exists st,
    run tick [pan_half; pan_half; pan_half; at_rest] initial_state =
    Some ([ Delay 10; MouseButtons false true false; Delay 10;
            MouseMove (-12) 0; MouseMove (-12) 0; MouseMove (-12) 0;
            MouseButtons false false false; Delay 10;
            MouseMove 36 0 ], st) /\
    inMove st = false /\ unwindAccumulator st = (0, 0).
Proof. eexists. repeat split. Qed.

(** ** Integers below [2^24] are floats *)

Lemma new_location_inexact (nb r : Z) :
  inexact (new_location nb r) = if r =? 0 then 0 else 1.
Proof.
  unfold new_location, new_location_even, new_location_odd.
  destruct (Z.even nb); destruct (r =? 0); reflexivity.
Qed.

(** Rounding a value that the format holds gives that value. *)
Lemma binary_round_aux_exact (s : bool) (m e : Z) (mt : positive) (et : Z) :
  e <= et -> m = Zpos mt * 2 ^ (et - e) ->
  fexp F32.prec F32.emax (Zpos (digits2_pos mt) + et) = et -> et <= 104 ->
  binary_round_aux F32.prec F32.emax s m e loc_Exact = S754_finite s mt et.
Proof.
  intros He Hm Hc Hmax.
  assert (Hp : 0 < 2 ^ (et - e)) by (apply Z.pow_pos_nonneg; lia).
  assert (Hm0 : 0 < m) by nia.
  assert (Hdig : Zdigits2 m + e = Zpos (digits2_pos mt) + et).
  { rewrite Hm, Zdigits2_shift by lia. cbn [Zdigits2]. ring. }
  assert (Hstage2 : forall e',
            e' = et ->
            (let '(mrs, e'') := shr_fexp F32.prec F32.emax (Zpos mt) e' loc_Exact in
             match shr_m mrs with
             | Z0 => S754_zero s
             | Zpos m => if e'' <=? F32.emax - F32.prec then S754_finite s m e''
                         else S754_infinity s
             | Zneg _ => S754_nan
             end) = S754_finite s mt et).
  { intros e' ->.
    pose proof (shr_fexp_spec (Zpos mt) et loc_Exact ltac:(lia)) as Hspec.
    cbv zeta in Hspec. cbn [Zdigits2] in Hspec. rewrite Hc in Hspec.
    destruct (shr_fexp F32.prec F32.emax (Zpos mt) et loc_Exact) as [mrs e''].
    destruct Hspec as [Hnone _]. destruct (Hnone ltac:(lia)) as [-> ->].
    cbn [shr_record_of_loc shr_m].
    replace (et <=? F32.emax - F32.prec) with true; [reflexivity|].
    symmetry. apply Z.leb_le. change (F32.emax - F32.prec) with 104. exact Hmax. }
  unfold binary_round_aux.
  pose proof (shr_fexp_spec m e loc_Exact ltac:(lia)) as Hspec.
  cbv zeta in Hspec. rewrite Hdig, Hc in Hspec.
  destruct (shr_fexp F32.prec F32.emax m e loc_Exact) as [mrs' e'].
  destruct Hspec as [Hnone Hshift].
  destruct (Z.eq_dec e et) as [Heq|Hne].
  - destruct (Hnone ltac:(lia)) as [-> ->].
    rewrite shr_m_record_of_loc, loc_of_record_of_loc. cbn [round_nearest_even].
    assert (Hmt : m = Zpos mt).
    { rewrite Hm, Heq. replace (et - et) with 0 by ring. change (2 ^ 0) with 1. lia. }
    rewrite Hmt. apply Hstage2. exact Heq.
  - destruct (Hshift ltac:(lia)) as (-> & Hm' & Hexact).
    assert (Hdiv : m / 2 ^ (et - e) = Zpos mt).
    { rewrite Hm. apply Z.div_mul. lia. }
    assert (Hmod : m mod 2 ^ (et - e) = 0).
    { rewrite Hm. apply Z.mod_mul. lia. }
    rewrite (exact_record_loc mrs' (Hexact eq_refl Hmod)), Hm', Hdiv.
    cbn [round_nearest_even]. apply Hstage2. ring.
Qed.

Lemma binary_round_exact (s : bool) (p : positive) (e : Z) (mt : positive) (et : Z) :
  Zpos p * 2 ^ (e - Z.min e et) = Zpos mt * 2 ^ (et - Z.min e et) ->
  fexp F32.prec F32.emax (Zpos (digits2_pos mt) + et) = et -> et <= 104 ->
  binary_round F32.prec F32.emax s p e = S754_finite s mt et.
Proof.
  intros Hval Hc Hmax. unfold binary_round.
  assert (Hdig : Zpos (digits2_pos p) + e = Zpos (digits2_pos mt) + et).
  { assert (H : Zdigits2 (Zpos p * 2 ^ (e - Z.min e et))
                = Zdigits2 (Zpos mt * 2 ^ (et - Z.min e et))) by now rewrite Hval.
    rewrite !Zdigits2_shift in H by lia. cbn [Zdigits2] in H. lia. }
  rewrite Hdig, Hc.
  pose proof (shl_align_spec p e et) as Hal.
  destruct (shl_align p e et) as [mz ez]. destruct Hal as [Hez Hmz].
  apply binary_round_aux_exact; try assumption; [lia|].
  rewrite Hmz, Hez, Hval.
  destruct (Z.le_ge_cases e et) as [H|H].
  - replace (Z.min e et) with e in * by lia. reflexivity.
  - replace (Z.min e et) with et in * by lia.
    replace (et - et) with 0 by ring. reflexivity.
Qed.

Lemma int_float_spec (n : Z) :
  0 < n < 2 ^ 24 ->
  Zpos (int_mantissa n) = n * 2 ^ (- int_exponent n) /\
  -23 <= int_exponent n <= 0 /\
  fexp F32.prec F32.emax (Zpos (digits2_pos (int_mantissa n)) + int_exponent n)
    = int_exponent n.
Proof.
  intros Hn. unfold int_mantissa, int_exponent.
  destruct (Zdigits2_bounds n ltac:(lia)) as [Hlo Hhi].
  assert (Hd : 1 <= Zdigits2 n <= 24).
  { split.
    - apply Zdigits2_ge_of_pow_le; [change (2 ^ (1 - 1)) with 1|]; lia.
    - apply Zdigits2_le_of_lt_pow; lia. }
  assert (Hp : 0 < 2 ^ (24 - Zdigits2 n)) by (apply Z.pow_pos_nonneg; lia).
  assert (Hm : Zpos (Z.to_pos (n * 2 ^ (24 - Zdigits2 n))) = n * 2 ^ (24 - Zdigits2 n)).
  { apply Z2Pos.id. nia. }
  split; [rewrite Hm; do 2 f_equal; ring|]. split; [lia|].
  assert (Hdm : Zdigits2 (Zpos (Z.to_pos (n * 2 ^ (24 - Zdigits2 n)))) = 24).
  { rewrite Hm, Zdigits2_shift by lia. ring. }
  cbn [Zdigits2] in Hdm. rewrite Hdm, fexp_val. lia.
Qed.

(** The conversion of a positive or negative integer below [2^24]. *)
Lemma round_int (s : bool) (p : positive) :
  Zpos p < 2 ^ 24 ->
  binary_round F32.prec F32.emax s p 0
  = S754_finite s (int_mantissa (Zpos p)) (int_exponent (Zpos p)).
Proof.
  intros Hp.
  destruct (int_float_spec (Zpos p) ltac:(lia)) as (Hm & He & Hc).
  apply binary_round_exact; [|exact Hc|lia].
  replace (Z.min 0 (int_exponent (Zpos p))) with (int_exponent (Zpos p)) by lia.
  rewrite Hm. replace (int_exponent (Zpos p) - int_exponent (Zpos p)) with 0 by ring.
  replace (0 - int_exponent (Zpos p)) with (- int_exponent (Zpos p)) by ring.
  change (2 ^ 0) with 1. ring.
Qed.

Lemma of_int_pos (n : Z) :
  0 < n < 2 ^ 24 ->
  F32.of_int n = S754_finite false (int_mantissa n) (int_exponent n).
Proof.
  intros Hn. destruct n as [|p|p]; try lia.
  unfold F32.of_int, F32.round. cbn [binary_normalize]. apply round_int. lia.
Qed.

Lemma of_int_opp (n : Z) :
  0 < n < 2 ^ 24 ->
  F32.of_int (- n) = S754_finite true (int_mantissa n) (int_exponent n).
Proof.
  intros Hn. destruct n as [|p|p]; try lia.
  unfold F32.of_int, F32.round. cbn [Z.opp binary_normalize]. apply round_int. lia.
Qed.

Lemma pow2_split (a b : Z) : 0 <= a -> 0 <= b -> 2 ^ (a + b) = 2 ^ a * 2 ^ b.
Proof. intros. apply Z.pow_add_r; assumption. Qed.

(** An integer's mantissa, aligned to an exponent at or below its own. *)
Lemma int_mantissa_aligned (n ez : Z) :
  0 < n < 2 ^ 24 -> ez <= int_exponent n ->
  Zpos (int_mantissa n) * 2 ^ (int_exponent n - ez) = n * 2 ^ (- ez).
Proof.
  intros Hn Hez. destruct (int_float_spec n Hn) as (Hm & He & _).
  rewrite Hm, <- Z.mul_assoc, <- Z.pow_add_r by lia. do 2 f_equal. ring.
Qed.

(** The difference of two integers below [2^24] is computed exactly. *)
Lemma sub_of_int (a b : Z) :
  small_int a -> small_int b ->
  F32.sub (F32.of_int a) (F32.of_int b) = F32.of_int (a - b).
Proof.
  unfold small_int. intros Ha Hb.
  destruct (Z.eq_dec b 0) as [->|Hb0].
  { rewrite Z.sub_0_r. change (F32.of_int 0) with (S754_zero false).
    destruct (Z.eq_dec a 0) as [->|Ha0]; [reflexivity|].
    rewrite (of_int_pos a) by lia. reflexivity. }
  destruct (Z.eq_dec a 0) as [->|Ha0].
  { rewrite Z.sub_0_l, (of_int_pos b), (of_int_opp b) by lia. reflexivity. }
  rewrite (of_int_pos a), (of_int_pos b) by lia.
  unfold F32.sub, SFsub. cbn [cond_Zopp].
  rewrite (shl_align_fst (int_mantissa a)), (shl_align_fst' (int_mantissa b)).
  set (ez := Z.min (int_exponent a) (int_exponent b)).
  rewrite (int_mantissa_aligned a ez), (int_mantissa_aligned b ez) by (subst ez; lia).
  destruct (int_float_spec a ltac:(lia)) as (_ & Hea & _).
  destruct (int_float_spec b ltac:(lia)) as (_ & Heb & _).
  assert (Hez : -23 <= ez <= 0) by (subst ez; lia).
  assert (Hp : 0 < 2 ^ (- ez)) by (apply Z.pow_pos_nonneg; lia).
  replace (a * 2 ^ (- ez) - b * 2 ^ (- ez)) with ((a - b) * 2 ^ (- ez)) by ring.
  destruct (Z.lt_trichotomy a b) as [Hlt|[Heq|Hgt]].
  - assert (Hn : 0 < b - a < 2 ^ 24) by lia.
    replace (a - b) with (- (b - a)) by ring. rewrite (of_int_opp (b - a) Hn).
    destruct (- (b - a) * 2 ^ (- ez)) as [|p|p] eqn:Hp'; try nia.
    cbn [binary_normalize].
    destruct (int_float_spec (b - a) Hn) as (Hm & He & Hc).
    apply binary_round_exact; [|exact Hc|lia].
    assert (Hpz : Zpos p = (b - a) * 2 ^ (- ez)) by lia.
    set (E := Z.min ez (int_exponent (b - a))).
    rewrite Hpz, Hm, <- !Z.mul_assoc, <- !Z.pow_add_r by (subst E; lia).
    do 2 f_equal. ring.
  - subst b. replace (a - a) with 0 by ring. reflexivity.
  - assert (Hn : 0 < a - b < 2 ^ 24) by lia.
    rewrite (of_int_pos (a - b) Hn).
    destruct ((a - b) * 2 ^ (- ez)) as [|p|p] eqn:Hp'; try nia.
    cbn [binary_normalize].
    destruct (int_float_spec (a - b) Hn) as (Hm & He & Hc).
    apply binary_round_exact; [|exact Hc|lia].
    set (E := Z.min ez (int_exponent (a - b))).
    rewrite <- Hp', Hm, <- !Z.mul_assoc, <- !Z.pow_add_r by (subst E; lia).
    do 2 f_equal. ring.
Qed.

Lemma int_exponent_mono (a b : Z) :
  0 < a <= b -> int_exponent a <= int_exponent b.
Proof.
  intros H. unfold int_exponent.
  pose proof (Zdigits2_mono a b ltac:(lia)). lia.
Qed.

(** Integers below [2^24] compare as their floats do. *)
Lemma ltb_of_int (a b : Z) :
  small_int a -> small_int b ->
  F32.ltb (F32.of_int a) (F32.of_int b) = (a <? b).
Proof.
  unfold small_int. intros Ha Hb.
  destruct (Z.eq_dec a 0) as [->|Ha0]; destruct (Z.eq_dec b 0) as [->|Hb0].
  - reflexivity.
  - rewrite (of_int_pos b) by lia. symmetry. cbn. apply Z.ltb_lt. lia.
  - rewrite (of_int_pos a) by lia. symmetry. cbn. apply Z.ltb_ge. lia.
  - rewrite (of_int_pos a), (of_int_pos b) by lia.
    destruct (int_float_spec a ltac:(lia)) as (Hma & Hea & _).
    destruct (int_float_spec b ltac:(lia)) as (Hmb & Heb & _).
    unfold F32.ltb, SFltb, SFcompare.
    destruct (Z.ltb_spec a b) as [Hlt|Hge].
    + pose proof (int_exponent_mono a b ltac:(lia)) as Hmono.
      destruct (Z.compare_spec (int_exponent a) (int_exponent b)) as [He|He|He];
        [|reflexivity|lia].
      assert (Hm : Zpos (int_mantissa a) < Zpos (int_mantissa b)).
      { rewrite Hma, Hmb, He.
        assert (0 < 2 ^ (- int_exponent b)) by (apply Z.pow_pos_nonneg; lia). nia. }
      change (Pos.compare_cont Eq (int_mantissa a) (int_mantissa b))
        with (Pos.compare (int_mantissa a) (int_mantissa b)).
      now rewrite (proj2 (Pos.compare_lt_iff _ _) Hm).
    + pose proof (int_exponent_mono b a ltac:(lia)) as Hmono.
      destruct (Z.compare_spec (int_exponent a) (int_exponent b)) as [He|He|He];
        [|lia|reflexivity].
      assert (Hm : Zpos (int_mantissa b) <= Zpos (int_mantissa a)).
      { rewrite Hma, Hmb, He.
        assert (0 < 2 ^ (- int_exponent b)) by (apply Z.pow_pos_nonneg; lia). nia. }
      change (Pos.compare_cont Eq (int_mantissa a) (int_mantissa b))
        with (Pos.compare (int_mantissa a) (int_mantissa b)).
      destruct (Pos.compare_spec (int_mantissa a) (int_mantissa b)) as [H|H|H];
        try reflexivity. lia.
Qed.

(** ** Quotients of at most one *)

(** The quotient that the division of a positive value by one at least as
    large hands to rounding. *)
Lemma div_core_le (m1 m2 : positive) (e1 e2 : Z) :
  Zpos m1 * 2 ^ (e1 - Z.min e1 e2) <= Zpos m2 * 2 ^ (e2 - Z.min e1 e2) ->
  let '(q, e', l) :=
    SFdiv_core_binary F32.prec F32.emax (Zpos m1) e1 (Zpos m2) e2 in
  0 <= q /\ e' <= -23 /\ q + inexact l <= 8388608 * 2 ^ (-23 - e') /\
  e' = Z.min (fexp F32.prec F32.emax (Zdigits2 (Zpos m1) + e1 - (Zdigits2 (Zpos m2) + e2)))
             (e1 - e2) /\
  q = Zpos m1 * 2 ^ (e1 - e2 - e') / Zpos m2 /\
  (Zpos m1 * 2 ^ (e1 - e2 - e') mod Zpos m2 = 0 -> l = loc_Exact).
Proof.
  intros Hle. unfold SFdiv_core_binary.
  set (E := Z.min e1 e2) in *.
  set (d1 := Zdigits2 (Zpos m1)). set (d2 := Zdigits2 (Zpos m2)).
  assert (Hd : d1 + e1 <= d2 + e2).
  { assert (H : Zdigits2 (Zpos m1 * 2 ^ (e1 - E)) <= Zdigits2 (Zpos m2 * 2 ^ (e2 - E))).
    { apply Zdigits2_mono. split; [|exact Hle].
      apply Z.mul_nonneg_nonneg; [lia|apply Z.pow_nonneg; lia]. }
    rewrite !Zdigits2_shift in H by (subst E; lia). subst d1 d2. lia. }
  set (e' := Z.min (fexp F32.prec F32.emax (d1 + e1 - (d2 + e2))) (e1 - e2)).
  assert (He' : e' <= -24) by (subst e'; rewrite fexp_val; lia).
  assert (He'' : e' <= e1 - e2) by (subst e'; lia).
  assert (Hs : 0 <= e1 - e2 - e') by lia.
  rewrite (shift_for_division (Zpos m1) (e1 - e2 - e') Hs), div_eucl_div_mod.
  set (m' := Zpos m1 * 2 ^ (e1 - e2 - e')).
  assert (Hm0 : 0 <= m').
  { subst m'. apply Z.mul_nonneg_nonneg; [lia|apply Z.pow_nonneg; lia]. }
  assert (Hm' : m' <= Zpos m2 * 2 ^ (- e')).
  { subst m'.
    assert (Hk : 0 <= - e' - (e2 - E)) by (subst E; lia).
    replace (e1 - e2 - e') with ((e1 - E) + (- e' - (e2 - E))) by ring.
    replace (- e') with ((e2 - E) + (- e' - (e2 - E))) at 2 by ring.
    rewrite !Z.pow_add_r, !Z.mul_assoc by (subst E; lia).
    apply Z.mul_le_mono_nonneg_r; [apply Z.pow_nonneg; lia|exact Hle]. }
  assert (Hb : 8388608 * 2 ^ (-23 - e') = 2 ^ (- e')).
  { rewrite <- pow2_23, <- Z.pow_add_r by lia. f_equal. ring. }
  rewrite Hb, new_location_inexact.
  assert (Hp : 0 < 2 ^ (- e')) by (apply Z.pow_pos_nonneg; lia).
  pose proof (Z.div_mod m' (Zpos m2) ltac:(lia)) as Hdm.
  pose proof (Z.mod_pos_bound m' (Zpos m2) ltac:(lia)) as Hmod.
  assert (Hq0 : 0 <= m' / Zpos m2) by (apply Z.div_pos; lia).
  split; [exact Hq0|]. split; [lia|]. split.
  - destruct (Z.eqb_spec (m' mod Zpos m2) 0) as [Hz|Hnz]; nia.
  - split; [reflexivity|]. split; [reflexivity|].
    intros Hz. unfold new_location, new_location_even, new_location_odd.
    rewrite Hz. now destruct (Z.even (Zpos m2)).
Qed.

(** The quotient of two integers below [2^24], the first at most the second,
    is at most 1. *)
Lemma div_int_at_most_one (a b : Z) :
  0 <= a <= b -> 0 < b < 2 ^ 24 ->
  at_most 8388608 (-23) (F32.div (F32.of_int a) (F32.of_int b)).
Proof.
  intros Ha Hb. rewrite (of_int_pos b Hb).
  destruct (Z.eq_dec a 0) as [->|Ha0]; [left; reflexivity|].
  rewrite (of_int_pos a) by lia. unfold F32.div, SFdiv. cbn [xorb].
  set (E := Z.min (int_exponent a) (int_exponent b)).
  assert (Hle : Zpos (int_mantissa a) * 2 ^ (int_exponent a - E)
                <= Zpos (int_mantissa b) * 2 ^ (int_exponent b - E)).
  { rewrite (int_mantissa_aligned a E), (int_mantissa_aligned b E) by (subst E; lia).
    destruct (int_float_spec b Hb) as (_ & Heb & _).
    assert (0 < 2 ^ (- E)) by (apply Z.pow_pos_nonneg; subst E; lia). nia. }
  pose proof (div_core_le _ _ _ _ Hle) as Hcore.
  destruct (SFdiv_core_binary F32.prec F32.emax (Zpos (int_mantissa a)) (int_exponent a)
              (Zpos (int_mantissa b)) (int_exponent b)) as [[q e'] l].
  destruct Hcore as (Hq & He' & Hbound & _).
  exact (binary_round_aux_le false q e' l 8388608 (-23) representable_one Hq He' Hbound).
Qed.

(** A positive integer below [2^24] divided by itself is exactly 1. *)
Lemma div_int_self (b : Z) :
  0 < b < 2 ^ 24 -> F32.div (F32.of_int b) (F32.of_int b) = F32.of_int 1.
Proof.
  intros Hb. rewrite (of_int_pos b Hb), one_val. unfold F32.div, SFdiv. cbn [xorb].
  set (m := int_mantissa b). set (e := int_exponent b).
  assert (Hle : Zpos m * 2 ^ (e - Z.min e e) <= Zpos m * 2 ^ (e - Z.min e e)) by lia.
  pose proof (div_core_le m m e e Hle) as Hcore.
  destruct (SFdiv_core_binary F32.prec F32.emax (Zpos m) e (Zpos m) e) as [[q e'] l].
  destruct Hcore as (_ & _ & _ & He' & Hq & Hl).
  replace (Zdigits2 (Zpos m) + e - (Zdigits2 (Zpos m) + e)) with 0 in He' by ring.
  replace (e - e) with 0 in * by ring.
  change (Z.min (fexp F32.prec F32.emax 0) 0) with (-24) in He'. subst e'.
  change (0 - -24) with 24 in *.
  assert (Hq' : q = 2 ^ 24).
  { rewrite Hq, Z.mul_comm. apply Z.div_mul. lia. }
  assert (Hmod : Zpos m * 2 ^ 24 mod Zpos m = 0).
  { rewrite Z.mul_comm. apply Z.mod_mul. lia. }
  rewrite (Hl Hmod), Hq'.
  apply binary_round_aux_exact; [lia|reflexivity|reflexivity|lia].
Qed.

(** ** Normalization inside the calibrated range *)

(** One minus a value between 0 and 1 lies between 0 and 1. *)
Lemma one_minus_at_most_one (q : float) :
  at_most 8388608 (-23) q -> at_most 8388608 (-23) (F32.sub (F32.of_int 1) q).
Proof.
  rewrite one_val.
  intros [->|(m & e & -> & He & Hm)].
  - right. exists 8388608%positive, (-23). cbn. repeat split; lia.
  - unfold F32.sub, SFsub. cbn [cond_Zopp].
    rewrite (shl_align_fst 8388608 (-23) e), (shl_align_fst' m (-23) e).
    replace (Z.min (-23) e) with e by lia.
    replace (e - e) with 0 by ring. change (2 ^ 0) with 1. rewrite Z.mul_1_r.
    destruct (8388608 * 2 ^ (-23 - e) - Zpos m) as [|p|p] eqn:HM.
    + left. reflexivity.
    + cbn [binary_normalize].
      destruct (binary_round_le false p e 8388608 (-23) representable_one He)
        as [Hz|Hf]; [lia|left; exact Hz|right; exact Hf].
    + lia.
Qed.

Lemma at_most_one_leb (x : float) :
  at_most 8388608 (-23) x ->
  F32.leb F32.zero x = true /\ F32.leb x (F32.of_int 1) = true /\
  F32.leb (F32.of_int (-1)) x = true.
Proof.
  intros [->|(m & e & -> & He & Hm)]; [repeat split|].
  rewrite one_val, minus_one_val. split; [reflexivity|]. split; [|reflexivity].
  unfold F32.leb, SFleb, SFcompare.
  destruct (Z.compare_spec e (-23)) as [Heq|Hlt|Hgt]; [|reflexivity|lia].
  subst e. change (2 ^ (-23 - -23)) with 1 in Hm. rewrite Z.mul_1_r in Hm.
  destruct (Pos.compare_cont Eq m 8388608) eqn:Hc; try reflexivity.
  exfalso. exact (Hm Hc).
Qed.

Lemma leb_opp (a b : float) : F32.leb (F32.neg a) (F32.neg b) = F32.leb b a.
Proof. unfold F32.leb, F32.neg, SFleb. now rewrite SFcompare_opp. Qed.

Lemma at_most_one_neg_leb (x : float) :
  at_most 8388608 (-23) x ->
  F32.leb (F32.neg x) F32.zero = true /\ F32.leb (F32.neg x) (F32.of_int 1) = true /\
  F32.leb (F32.of_int (-1)) (F32.neg x) = true.
Proof.
  intros Hx. destruct (at_most_one_leb x Hx) as (H0 & H1 & _).
  split; [|split].
  - destruct Hx as [->|(m & e & -> & _)]; reflexivity.
  - destruct Hx as [->|(m & e & -> & _)]; reflexivity.
  - change (F32.of_int (-1)) with (F32.neg (F32.of_int 1)). now rewrite leb_opp.
Qed.

Lemma normalize_of_int (low val high : Z) :
  small_int low -> small_int val -> small_int high ->
  normalize (F32.of_int low) (F32.of_int val) (F32.of_int high)
  = F32.div (F32.of_int (val - low)) (F32.of_int (high - low)).
Proof.
  intros Hl Hv Hh. unfold normalize. now rewrite !sub_of_int.
Qed.

(** The two branches of [normalizeSticks], for a calibration in raw units. *)
Lemma normalize_axis_of_int (low center high raw : Z) :
  small_int low -> small_int center -> small_int high -> small_int raw ->
  normalize_axis (F32.of_int low, F32.of_int center, F32.of_int high) raw =
  if raw <? center
  then F32.sub (F32.of_int 1)
         (F32.div (F32.of_int (raw - low)) (F32.of_int (center - low)))
  else F32.neg (F32.div (F32.of_int (raw - center)) (F32.of_int (high - center))).
Proof.
  intros Hl Hc Hh Hr. unfold normalize_axis.
  rewrite (ltb_of_int raw center Hr Hc), !normalize_of_int by assumption.
  destruct (raw <? center); [apply neg_involutive|reflexivity].
Qed.

Lemma normalize_axis_unit (low center high raw : Z) :
  0 <= low -> low < center -> center < high -> high < 2 ^ 24 -> low <= raw <= high ->
  let v := normalize_axis (F32.of_int low, F32.of_int center, F32.of_int high) raw in
  (raw < center -> at_most 8388608 (-23) v) /\
  (center <= raw -> exists q, v = F32.neg q /\ at_most 8388608 (-23) q) /\
  (raw = low -> v = F32.of_int 1) /\
  (raw = high -> v = F32.of_int (-1)).
Proof.
  intros Hl Hlc Hch Hh Hr v. subst v.
  rewrite normalize_axis_of_int by (unfold small_int; lia).
  destruct (Z.ltb_spec raw center) as [Hlt|Hge].
  - split; [|split; [lia|split; [|lia]]].
    + intros _. apply one_minus_at_most_one, div_int_at_most_one; lia.
    + intros ->. replace (low - low) with 0 by ring.
      rewrite (of_int_pos (center - low)) by lia. reflexivity.
  - split; [lia|split; [|split; [lia|]]].
    + intros _. eexists. split; [reflexivity|]. apply div_int_at_most_one; lia.
    + intros ->. rewrite div_int_self by lia. reflexivity.
Qed.

Lemma unit_magnitude (low center high raw : Z) :
  0 <= low -> low < center -> center < high -> high < 2 ^ 24 -> low <= raw <= high ->
  magnitude_at_most 8388608 (-23)
    (normalize_axis (F32.of_int low, F32.of_int center, F32.of_int high) raw).
Proof.
  intros Hl Hlc Hch Hh Hr.
  destruct (normalize_axis_unit low center high raw Hl Hlc Hch Hh Hr) as (Hlt & Hge & _).
  destruct (Z.lt_ge_cases raw center) as [H|H].
  - destruct (Hlt H) as [->|(m & e & -> & Hb)]; [left; eauto|right; eauto].
  - destruct (Hge H) as (q & -> & [->|(m & e & -> & Hb)]); [left|right]; cbn; eauto.
Qed.

Lemma unit_leb (x : float) :
  magnitude_at_most 8388608 (-23) x ->
  F32.leb (F32.of_int (-1)) x = true /\ F32.leb x (F32.of_int 1) = true.
Proof.
  intros [[s ->]|(s & m & e & -> & He & Hm)]; [split; reflexivity|].
  destruct s.
  - destruct (at_most_one_neg_leb (S754_finite false m e)) as (_ & H1 & H2);
      [right; eauto|]. split; assumption.
  - destruct (at_most_one_leb (S754_finite false m e)) as (_ & H1 & H2);
      [right; eauto|]. split; assumption.
Qed.

(** *** Mouse moves *)

(** The product of a non-zero integer below [2^24] in magnitude and a value
    of magnitude at most 1 has at most the integer's magnitude. *)
Lemma mul_int_unit (s : bool) (n : Z) (x : float) :
  0 < n < 2 ^ 24 ->
  magnitude_at_most 8388608 (-23) x ->
  magnitude_at_most (int_mantissa n) (int_exponent n)
    (F32.mul (S754_finite s (int_mantissa n) (int_exponent n)) x).
Proof.
  intros Hn [[sx ->]|(sx & m & e & -> & He & Hm)]; [left; cbn; eauto|].
  destruct (int_float_spec n Hn) as (HM & HE & Hc).
  unfold F32.mul, SFmul.
  destruct (binary_round_aux_le (xorb s sx) (Zpos (int_mantissa n * m))
              (int_exponent n + e) loc_Exact (int_mantissa n) (int_exponent n))
    as [Hz|(mr & er & Hr & Hb)].
  - split; [exact Hc|lia].
  - lia.
  - lia.
  - cbn [inexact]. rewrite Z.add_0_r, Pos2Z.inj_mul.
    replace (int_exponent n - (int_exponent n + e)) with (- e) by ring.
    assert (Hb : 8388608 * 2 ^ (-23 - e) = 2 ^ (- e)).
    { rewrite <- pow2_23, <- Z.pow_add_r by lia. f_equal. ring. }
    rewrite Hb in Hm. nia.
  - left. eauto.
  - right. eauto 6.
Qed.

(** The integral part of a value of magnitude at most the integer [n]. *)
Lemma to_int_magnitude (n : Z) (x : float) :
  0 < n < 2 ^ 24 ->
  magnitude_at_most (int_mantissa n) (int_exponent n) x ->
  Z.abs (F32.to_int x) <= n.
Proof.
  intros Hn [[s ->]|(s & m & e & -> & He & Hm)]; [cbn; lia|].
  destruct (int_float_spec n Hn) as (HM & HE & _).
  unfold F32.to_int, F32.trunc.
  rewrite Z.shiftl_div_pow2 by lia.
  assert (Hp : 0 < 2 ^ (- e)) by (apply Z.pow_pos_nonneg; lia).
  assert (Hq0 : 0 <= Zpos m / 2 ^ (- e)) by (apply Z.div_pos; lia).
  assert (Hq : Zpos m / 2 ^ (- e) <= n).
  { apply div_pow2_le; try lia.
    rewrite HM, <- Z.mul_assoc, <- Z.pow_add_r in Hm by lia.
    replace (- int_exponent n + (int_exponent n - e)) with (- e) in Hm by ring.
    exact Hm. }
  assert (Hn' : n < 2147483647) by (change (2 ^ 24) with 16777216 in Hn; lia).
  rewrite int_min_val, int_max_val.
  destruct s; cbn [cond_Zopp]; lia.
Qed.

Lemma stick_speed_cases (idx : Z) :
  exists n, 0 < n < 2 ^ 24 /\ Z.abs (stick_speed idx) = n /\
            F32.of_int (stick_speed idx) = S754_finite true (int_mantissa n) (int_exponent n).
Proof.
  unfold stick_speed. destruct (idx =? 0).
  - exists 25. repeat split; reflexivity.
  - exists 10. repeat split; reflexivity.
Qed.

(** A stick whose two axes are within [-1, 1] asks for a move of at most its
    speed on each axis. *)
Lemma stick_move_bound (axes : list float) (idx : Z) :
  magnitude_at_most 8388608 (-23) (axis axes idx) ->
  magnitude_at_most 8388608 (-23) (axis axes (idx + 1)) ->
  Z.abs (fst (stick_move axes idx)) <= Z.abs (stick_speed idx) /\
  Z.abs (snd (stick_move axes idx)) <= Z.abs (stick_speed idx).
Proof.
  intros Hx Hy. unfold stick_move. fold (stick_speed idx). cbn [fst snd].
  destruct (stick_speed_cases idx) as (n & Hn & -> & ->).
  split; apply to_int_magnitude; try exact Hn; apply mul_int_unit; assumption.
Qed.

(** *** Joystick reports *)

Lemma add_one_unit (v : float) :
  magnitude_at_most 8388608 (-23) v ->
  at_most 8388608 (-22) (F32.add v (F32.of_int 1)).
Proof.
  rewrite one_val.
  intros [[s ->]|(s & m & e & -> & He & Hm)].
  - right. exists 8388608%positive, (-23). cbn. repeat split; lia.
  - assert (Hpow : 8388608 * 2 ^ (-23 - e) = 2 ^ (- e)).
    { rewrite <- pow2_23, <- Z.pow_add_r by lia. f_equal. ring. }
    rewrite Hpow in Hm.
    unfold F32.add, SFadd.
    rewrite (shl_align_fst m e (-23)), (shl_align_fst' 8388608 e (-23)).
    replace (Z.min e (-23)) with e by lia.
    replace (e - e) with 0 by ring.
    change (2 ^ 0) with 1. rewrite Z.mul_1_r, Hpow. cbn [cond_Zopp].
    assert (Hp : 0 < 2 ^ (- e)) by (apply Z.pow_pos_nonneg; lia).
    destruct (cond_Zopp s (Zpos m) + 2 ^ (- e)) as [|p|p] eqn:HM.
    + left. reflexivity.
    + cbn [binary_normalize].
      destruct (binary_round_le false p e 8388608 (-22) representable_two ltac:(lia))
        as [Hz|Hf].
      * assert (Hpow2 : 8388608 * 2 ^ (-22 - e) = 2 * 2 ^ (- e)).
        { rewrite <- pow2_23, <- Z.pow_add_r by lia.
          replace (23 + (-22 - e)) with (Z.succ (- e)) by ring.
          rewrite Z.pow_succ_r by lia. reflexivity. }
        rewrite Hpow2. destruct s; cbn [cond_Zopp] in HM; lia.
      * left. exact Hz.
      * right. exact Hf.
    + exfalso. destruct s; cbn [cond_Zopp] in HM; lia.
Qed.

Lemma to_joy_unit (v : float) :
  magnitude_at_most 8388608 (-23) v -> 0 <= to_joy v <= 1023.
Proof.
  intros Hv. unfold to_joy.
  apply to_uint_at_most_1023, mul_1023_at_most, div_two_at_most_one, add_one_unit.
  exact Hv.
Qed.

(** ** From raw samples to reports *)

(** The calibration table holds the floats of its raw entries. *)
Lemma configured_extents_raw :
  configured_extents =
  map (fun ext => let '(low, center, high) := ext in
                  (F32.of_int low, F32.of_int center, F32.of_int high))
      configured_raw.
Proof. reflexivity. Qed.

Lemma startup_extents (startup : list Z) (i : nat) :
  (i < n_axes)%nat ->
  extents (axisExtents (setup startup initial_state)) i
  = (F32.of_int (raw_low i), F32.of_int (nth i startup 0), F32.of_int (raw_high i)).
Proof.
  unfold n_axes. intros Hi.
  destruct i as [|[|[|[|i]]]]; try lia; reflexivity.
Qed.

Lemma raw_extents_small (i : nat) :
  (i < n_axes)%nat -> 0 <= raw_low i /\ raw_high i < 2 ^ 24.
Proof.
  unfold n_axes. intros Hi.
  destruct i as [|[|[|[|i]]]]; try lia; cbn; lia.
Qed.

(** After calibration on samples inside the configured range, samples within
    that range normalize to values of magnitude at most 1. *)
Lemma normalized_unit (startup samples : list Z) (st : state) (i : nat) :
  inside_extents startup -> within_extents samples ->
  axisExtents st = axisExtents (setup startup initial_state) ->
  (i < n_axes)%nat ->
  magnitude_at_most 8388608 (-23)
    (nth i (normalizedAxes (normalizeSticks (readSticks samples st))) F32.zero).
Proof.
  intros Hs Hr Hext Hi.
  rewrite (normalized_nth samples st i Hi), Hext, (startup_extents startup i Hi).
  destruct (raw_extents_small i Hi) as [Hlo Hhi].
  specialize (Hs i Hi). specialize (Hr i Hi).
  apply unit_magnitude; lia.
Qed.

Lemma stick_moves_bounded (startup samples : list Z) (st : state) (idx : Z) :
  inside_extents startup -> within_extents samples ->
  axisExtents st = axisExtents (setup startup initial_state) ->
  idx = 0 \/ idx = 2 ->
  let axes := normalizedAxes (normalizeSticks (readSticks samples st)) in
  Z.abs (fst (stick_move axes idx)) <= Z.abs (stick_speed idx) /\
  Z.abs (snd (stick_move axes idx)) <= Z.abs (stick_speed idx).
Proof.
  intros Hs Hr Hext Hidx axes. unfold n_axes in *.
  apply stick_move_bound; unfold axis;
    destruct Hidx as [-> | ->]; cbn [Z.to_nat Z.add Pos.to_nat Pos.iter_op Nat.add];
    apply (normalized_unit startup samples st _ Hs Hr Hext); unfold n_axes; lia.
Qed.

(** X10: the calibrated range is the unit range. If at power-up every axis
    reads strictly inside its configured range, then on every later tick
    each axis that reads within its configured range normalizes to a value
    in [-1, 1]: at or above 0 below the startup reading, at or below 0 from
    the startup reading on (the axes are inverted), exactly 1 at the
    configured low and exactly -1 at the configured high; and [to_joy] turns
    the value into a report in 0..1023. *)
Theorem calibrated_range_is_unit_range
  (startup : list Z) (ticks : list (list Z)) (samples : list Z) :
  inside_extents startup -> within_extents samples ->
  exists evs st,
    run loop ticks (setup startup initial_state) = Some (evs, st) /\
    forall i, (i < n_axes)%nat ->
      let v := nth i (normalizedAxes (normalizeSticks (readSticks samples st))) F32.zero in
      F32.leb (F32.of_int (-1)) v = true /\ F32.leb v (F32.of_int 1) = true /\
      (nth i samples 0 < nth i startup 0 -> F32.leb F32.zero v = true) /\
      (nth i startup 0 <= nth i samples 0 -> F32.leb v F32.zero = true) /\
      (nth i samples 0 = raw_low i -> v = F32.of_int 1) /\
      (nth i samples 0 = raw_high i -> v = F32.of_int (-1)) /\
      0 <= to_joy v <= 1023.
Proof.
  intros Hs Hr.
  destruct (run_inv loop loop_inv ticks (setup startup initial_state)
              (setup_inv startup)) as (evs & st & Hrun & _).
  exists evs, st. split; [exact Hrun|]. intros i Hi v.
  pose proof (run_loop_extents _ _ _ _ Hrun) as Hext.
  pose proof (normalized_unit startup samples st i Hs Hr Hext Hi) as Hunit.
  fold v in Hunit.
  destruct (unit_leb v Hunit) as [Hlo Hhi].
  split; [exact Hlo|]. split; [exact Hhi|].
  assert (Hv : v = normalize_axis (F32.of_int (raw_low i), F32.of_int (nth i startup 0),
                                   F32.of_int (raw_high i)) (nth i samples 0)).
  { subst v. now rewrite (normalized_nth samples st i Hi), Hext,
                         (startup_extents startup i Hi). }
  destruct (raw_extents_small i Hi) as [Hl0 Hh0].
  specialize (Hs i Hi). specialize (Hr i Hi).
  destruct (normalize_axis_unit (raw_low i) (nth i startup 0) (raw_high i)
              (nth i samples 0)) as (Hlt & Hge & Hatlow & Hathigh); try lia.
  rewrite <- Hv in Hlt, Hge, Hatlow, Hathigh.
  split; [|split; [|split; [exact Hatlow|split; [exact Hathigh|]]]].
  - intros H. apply at_most_one_leb. exact (Hlt H).
  - intros H. destruct (Hge H) as (q & -> & Hq). apply at_most_one_neg_leb. exact Hq.
  - apply to_joy_unit. exact Hunit.
Qed.

Lemma calibrated_range_is_unit_range_witness :
  exists evs st,
    run loop [first_axis_at_0] (setup startup_600 initial_state) = Some (evs, st) /\
    forall i, (i < n_axes)%nat ->
      let v := nth i (normalizedAxes (normalizeSticks (readSticks [3; 1019; 700; 513] st)))
                 F32.zero in
      F32.leb (F32.of_int (-1)) v = true /\ F32.leb v (F32.of_int 1) = true /\
      (nth i [3; 1019; 700; 513] 0 < nth i startup_600 0 -> F32.leb F32.zero v = true) /\
      (nth i startup_600 0 <= nth i [3; 1019; 700; 513] 0 -> F32.leb v F32.zero = true) /\
      (nth i [3; 1019; 700; 513] 0 = raw_low i -> v = F32.of_int 1) /\
      (nth i [3; 1019; 700; 513] 0 = raw_high i -> v = F32.of_int (-1)) /\
      0 <= to_joy v <= 1023.
Proof.
  apply (calibrated_range_is_unit_range startup_600 [first_axis_at_0] [3; 1019; 700; 513]).
  - intros i Hi. unfold n_axes in Hi.
    destruct i as [|[|[|[|i]]]]; try lia; cbn; lia.
  - intros i Hi. unfold n_axes in Hi.
    destruct i as [|[|[|[|i]]]]; try lia; cbn; lia.
Defined.

(** ** Gestures of realistic length *)

Lemma moves_within_app (bound : Z) (l1 l2 : list event) :
  moves_within bound l1 -> moves_within bound l2 -> moves_within bound (l1 ++ l2).
Proof. unfold moves_within. intros H1 H2. apply Forall_app. split; assumption. Qed.

Lemma moves_within_setKeys (bound idx : Z) (press : bool) :
  moves_within bound (setKeys idx press).
Proof.
  unfold setKeys, moves_within.
  destruct (nth (Z.to_nat (Z.shiftr idx 1)) stick_active_key 0 =? 0); [constructor|].
  destruct press; repeat constructor.
Qed.

Lemma moves_within_setMouseButtons (bound idx : Z) :
  moves_within bound (setMouseButtons idx).
Proof.
  unfold setMouseButtons, moves_within.
  destruct (nth (Z.to_nat (Z.shiftr idx 1)) stick_active_buttons (false, false, false))
    as [[b0 b1] b2].
  repeat constructor.
Qed.

Lemma moves_within_moves_events (bound : Z) (mvs : list (Z * Z)) :
  moves_bounded bound mvs -> moves_within bound (moves_events mvs).
Proof.
  unfold moves_bounded, moves_within, moves_events. intros H.
  induction H as [|mv mvs Hmv _ IH]; [constructor|].
  cbn [map]. constructor; assumption.
Qed.

Lemma top_speed_val : top_speed = 25.
Proof. reflexivity. Qed.

Lemma stick_speed_top (idx : Z) : Z.abs (stick_speed idx) <= top_speed.
Proof. unfold stick_speed. destruct (idx =? 0); cbn; lia. Qed.

(** One call of [sendMouse] while the accumulator is far from the ends of
    [int]: nothing wraps. *)
Lemma sendMouse_exact (st : state) (B : Z) :
  gesture_inv st ->
  (forall idx, idx = 0 \/ idx = 2 ->
     Z.abs (fst (stick_move (normalizedAxes st) idx)) <= top_speed /\
     Z.abs (snd (stick_move (normalizedAxes st) idx)) <= top_speed) ->
  Z.abs (fst (unwindAccumulator st)) <= B ->
  Z.abs (snd (unwindAccumulator st)) <= B ->
  B + top_speed <= Int.int_max ->
  exists evs st',
    sendMouse st = Some (evs, st') /\ gesture_inv st' /\
    unwindAccumulator st' =
      (fst (unwindAccumulator st) + fst (displacement evs),
       snd (unwindAccumulator st) + snd (displacement evs)) /\
    Z.abs (fst (unwindAccumulator st')) <= B + top_speed /\
    Z.abs (snd (unwindAccumulator st')) <= B + top_speed /\
    moves_within max_unwind_step evs.
Proof.
  intros Hinv Hmoves Hbx Hby HB.
  destruct (sendMouse_inv st Hinv) as (evs & st' & Hrun & Hinv').
  exists evs, st'. split; [exact Hrun|]. split; [exact Hinv'|].
  destruct Hinv as (Hx & Hy & Hzero & Hact).
  rewrite top_speed_val in *. rewrite int_max_val in HB.
  unfold sendMouse in Hrun.
  destruct (inMove st) eqn:Hmv; cbn [andb negb] in Hrun.
  - destruct (checkDeadzone (normalizedAxes st) (motionStartIndex st)).
    + unfold stop_move in Hrun.
      destruct (unwindAccumulator st) as [ax ay] eqn:Hacc. cbn [fst snd] in *.
      destruct (doUnwind_spec max_unwind_step max_unwind_step_ok ax ay)
        as (mvs & Hun & Hsum & Hbd & _); [int_range|int_range|].
      rewrite Hun in Hrun. injection Hrun as Hevs Hst. subst evs st'.
      cbn [set_gesture unwindAccumulator fst snd].
      assert (Hd : displacement
                     ([MouseButtons false false false]
                        ++ setKeys (motionStartIndex st) false ++ [Delay 10]
                        ++ moves_events mvs) = sum_moves mvs).
      { cbn [app displacement]. rewrite displacement_app, displacement_setKeys.
        cbn [app displacement fst snd]. rewrite displacement_moves.
        now destruct (sum_moves mvs). }
      cbn [app] in Hd |- *. rewrite Hd, Hsum. cbn [fst snd].
      split; [f_equal; ring|]. split; [lia|]. split; [lia|].
      apply (moves_within_app _ [_]); [repeat constructor|].
      apply moves_within_app; [apply moves_within_setKeys|].
      apply (moves_within_app _ [_]); [repeat constructor|].
      apply moves_within_moves_events. exact Hbd.
    + destruct (Hmoves (motionStartIndex st) (Hact eq_refl)) as [Hmx Hmy].
      unfold send_motion in Hrun.
      destruct (stick_move (normalizedAxes st) (motionStartIndex st)) as [xMove yMove].
      cbn [fst snd] in Hmx, Hmy.
      injection Hrun as Hevs Hst. subst evs st'.
      cbn [set_gesture unwindAccumulator displacement fst snd]. unfold Int.add.
      rewrite !wrap_small by int_range. rewrite !Z.add_0_r.
      split; [reflexivity|]. split; [lia|]. split; [lia|].
      repeat constructor; unfold max_unwind_step; lia.
  - rewrite (Hzero eq_refl). cbn [fst snd].
    destruct (starting_stick (normalizedAxes st)) as [idx|] eqn:Hstart.
    + destruct (Hmoves idx (starting_stick_cases _ _ Hstart)) as [Hmx Hmy].
      unfold send_motion in Hrun.
      cbn [set_gesture normalizedAxes motionStartIndex unwindAccumulator inMove
           fst snd] in Hrun.
      destruct (stick_move (normalizedAxes st) idx) as [xMove yMove].
      cbn [fst snd] in Hmx, Hmy.
      injection Hrun as Hevs Hst. subst evs st'.
      cbn [set_gesture unwindAccumulator fst snd].
      rewrite displacement_app, displacement_setKeys. cbn [displacement].
      rewrite displacement_app, displacement_setMouseButtons.
      cbn [displacement fst snd]. unfold Int.add.
      rewrite !wrap_small by int_range. rewrite !Z.add_0_r.
      split; [reflexivity|]. split; [lia|]. split; [lia|].
      apply moves_within_app; [apply moves_within_setKeys|].
      apply (moves_within_app _ [_]); [repeat constructor|].
      apply moves_within_app; [apply moves_within_setMouseButtons|].
      repeat constructor; unfold max_unwind_step; lia.
    + injection Hrun as Hevs Hst. subst evs st'.
      rewrite (Hzero eq_refl). cbn [displacement fst snd].
      split; [reflexivity|]. split; [lia|]. split; [lia|]. constructor.
Qed.

Lemma run_loop_exact (startup : list Z) (ticks : list (list Z)) :
  inside_extents startup -> Forall within_extents ticks ->
  forall (st : state) (B : Z),
    gesture_inv st ->
    axisExtents st = axisExtents (setup startup initial_state) ->
    Z.abs (fst (unwindAccumulator st)) <= B ->
    Z.abs (snd (unwindAccumulator st)) <= B ->
    B + top_speed * Z.of_nat (length ticks) <= Int.int_max ->
    exists evs st',
      run loop ticks st = Some (evs, st') /\ gesture_inv st' /\
      unwindAccumulator st' =
        (fst (unwindAccumulator st) + fst (displacement evs),
         snd (unwindAccumulator st) + snd (displacement evs)) /\
      moves_within max_unwind_step evs.
Proof.
  intros Hs Hall. induction Hall as [|samples rest Hr _ IH];
    intros st B Hinv Hext Hbx Hby HB.
  - exists [], st. split; [reflexivity|]. split; [exact Hinv|].
    cbn [displacement fst snd]. rewrite !Z.add_0_r.
    split; [now destruct (unwindAccumulator st)|constructor].
  - cbn [length] in HB. rewrite Nat2Z.inj_succ, top_speed_val in HB.
    set (st0 := normalizeSticks (readSticks samples st)).
    destruct (sendMouse_exact st0 B) as (evs & st1 & Hrun & Hinv1 & Hacc1 & Hbx1 & Hby1 & Hmw).
    + exact Hinv.
    + intros idx Hidx.
      destruct (stick_moves_bounded startup samples st idx Hs Hr Hext Hidx) as [Hmx Hmy].
      pose proof (stick_speed_top idx). fold st0 in Hmx, Hmy. split; lia.
    + exact Hbx.
    + exact Hby.
    + rewrite top_speed_val. lia.
    + assert (Hloop : loop samples st = Some (evs ++ [Delay 10], st1)).
      { unfold loop. fold st0. now rewrite Hrun. }
      destruct (IH st1 (B + top_speed) Hinv1) as (evs' & st2 & Hrun' & Hinv2 & Hacc2 & Hmw').
      * rewrite (sendMouse_extents _ _ _ Hrun). exact Hext.
      * exact Hbx1.
      * exact Hby1.
      * rewrite top_speed_val. lia.
      * exists ((evs ++ [Delay 10]) ++ evs'), st2.
        cbn [run]. rewrite Hloop, Hrun'.
        split; [reflexivity|]. split; [exact Hinv2|]. split.
        -- rewrite Hacc2, Hacc1. change (unwindAccumulator st0) with (unwindAccumulator st).
           cbn [fst snd]. rewrite !displacement_app. cbn [displacement fst snd].
           f_equal; ring.
        -- apply moves_within_app; [|exact Hmw'].
           apply moves_within_app; [exact Hmw|repeat constructor].
Qed.

(** X11: gestures of realistic length come back exactly. If at power-up every
    axis reads strictly inside its configured range, every tick reads within
    it, and the run is short enough that the fastest stick cannot take the
    accumulator past the largest [int] (25 units a tick: 85,899,345 ticks,
    some ten days), then every tick returns, the accumulator is the net
    displacement of the pointer since power-up, unwrapped; whenever the
    machine is idle that displacement is exactly zero on both axes; and no
    mouse move sent is longer than [max_unwind_step] units on either axis. *)
Theorem short_runs_return_exactly (startup : list Z) (ticks : list (list Z)) :
  inside_extents startup -> Forall within_extents ticks ->
  top_speed * Z.of_nat (length ticks) <= Int.int_max ->
  exists evs st,
    run loop ticks (setup startup initial_state) = Some (evs, st) /\
    unwindAccumulator st = displacement evs /\
    (inMove st = false -> displacement evs = (0, 0)) /\
    moves_within max_unwind_step evs.
Proof.
  intros Hs Hall Hlen.
  destruct (run_loop_exact startup ticks Hs Hall (setup startup initial_state) 0
              (setup_inv startup) eq_refl)
    as (evs & st & Hrun & Hinv & Hacc & Hmw); [cbn; lia|cbn; lia|lia|].
  cbn [setup calibrate_on_startup calibrate readSticks initial_state unwindAccumulator
       fst snd] in Hacc.
  rewrite !Z.add_0_l, <- surjective_pairing in Hacc.
  exists evs, st. split; [exact Hrun|]. split; [exact Hacc|]. split; [|exact Hmw].
  intros Hidle. destruct Hinv as (_ & _ & Hzero & _).
  rewrite <- Hacc. exact (Hzero Hidle).
Qed.

Lemma short_runs_return_exactly_witness :
  exists evs st,
    run loop [[3; 498; 530; 513]; [3; 498; 530; 513]; startup_600]
      (setup startup_600 initial_state) = Some (evs, st) /\
    unwindAccumulator st = displacement evs /\
    (inMove st = false -> displacement evs = (0, 0)) /\
    moves_within max_unwind_step evs.
Proof.
  apply (short_runs_return_exactly startup_600
           [[3; 498; 530; 513]; [3; 498; 530; 513]; startup_600]).
  - intros i Hi. unfold n_axes in Hi.
    destruct i as [|[|[|[|i]]]]; try lia; cbn; lia.
  - constructor; [|constructor; [|constructor; [|constructor]]];
      intros i Hi; unfold n_axes in Hi;
      destruct i as [|[|[|[|i]]]]; try lia; cbn; lia.
  - vm_compute. discriminate.
Defined.

(** X12: the configured speeds are top speeds. If at power-up every axis
    reads strictly inside its configured range, then on every later tick
    that reads within the range the move a stick asks for is at most
    [|pan_speed| = 25] units on each axis for the pan stick and
    [|orbit_speed| = 10] for the orbit stick; the top speed is reached at the
    ends of the range: an axis of the pan stick at its configured low asks
    for -25, at its configured high for 25. *)
Theorem speeds_are_top_speeds
  (startup : list Z) (ticks : list (list Z)) (samples : list Z) :
  inside_extents startup -> within_extents samples ->
  exists evs st,
    run loop ticks (setup startup initial_state) = Some (evs, st) /\
    let axes := normalizedAxes (normalizeSticks (readSticks samples st)) in
    (Z.abs (fst (stick_move axes 0)) <= 25 /\ Z.abs (snd (stick_move axes 0)) <= 25) /\
    (Z.abs (fst (stick_move axes 2)) <= 10 /\ Z.abs (snd (stick_move axes 2)) <= 10) /\
    (nth 0 samples 0 = raw_low 0 -> fst (stick_move axes 0) = -25) /\
    (nth 0 samples 0 = raw_high 0 -> fst (stick_move axes 0) = 25).
Proof.
  intros Hs Hr.
  destruct (run_inv loop loop_inv ticks (setup startup initial_state)
              (setup_inv startup)) as (evs & st & Hrun & _).
  exists evs, st. split; [exact Hrun|]. intros axes.
  pose proof (run_loop_extents _ _ _ _ Hrun) as Hext.
  split; [exact (stick_moves_bounded startup samples st 0 Hs Hr Hext (or_introl eq_refl))|].
  split; [exact (stick_moves_bounded startup samples st 2 Hs Hr Hext (or_intror eq_refl))|].
  assert (Hi : (0 < n_axes)%nat) by (unfold n_axes; lia).
  assert (Hv : axis axes 0 =
               normalize_axis (F32.of_int (raw_low 0), F32.of_int (nth 0 startup 0),
                               F32.of_int (raw_high 0)) (nth 0 samples 0)).
  { unfold axis, axes. cbn [Z.to_nat].
    now rewrite (normalized_nth samples st 0 Hi), Hext, (startup_extents startup 0 Hi). }
  destruct (raw_extents_small 0 Hi) as [Hl0 Hh0].
  specialize (Hs 0%nat Hi). specialize (Hr 0%nat Hi).
  destruct (normalize_axis_unit (raw_low 0) (nth 0 startup 0) (raw_high 0)
              (nth 0 samples 0)) as (_ & _ & Hatlow & Hathigh); try lia.
  rewrite <- Hv in Hatlow, Hathigh.
  split; intros H; unfold stick_move; cbn [fst Z.eqb].
  - rewrite (Hatlow H). reflexivity.
  - rewrite (Hathigh H). reflexivity.
Qed.

Lemma speeds_are_top_speeds_witness :
  exists evs st,
    run loop [first_axis_at_0] (setup startup_600 initial_state) = Some (evs, st) /\
    let axes := normalizedAxes (normalizeSticks (readSticks [3; 1019; 700; 513] st)) in
    (Z.abs (fst (stick_move axes 0)) <= 25 /\ Z.abs (snd (stick_move axes 0)) <= 25) /\
    (Z.abs (fst (stick_move axes 2)) <= 10 /\ Z.abs (snd (stick_move axes 2)) <= 10) /\
    (nth 0 [3; 1019; 700; 513] 0 = raw_low 0 -> fst (stick_move axes 0) = -25) /\
    (nth 0 [3; 1019; 700; 513] 0 = raw_high 0 -> fst (stick_move axes 0) = 25).
Proof.
  apply (speeds_are_top_speeds startup_600 [first_axis_at_0] [3; 1019; 700; 513]).
  - intros i Hi. unfold n_axes in Hi.
    destruct i as [|[|[|[|i]]]]; try lia; cbn; lia.
  - intros i Hi. unfold n_axes in Hi.
    destruct i as [|[|[|[|i]]]]; try lia; cbn; lia.
Defined.
